(** * TigerVNC frame-update encoding: EncodeManager, MsgReader, MsgWriter

    A shallow embedding of the parts of [common/rfb/EncodeManager.cxx],
    [MsgReader.cxx] and [MsgWriter.cxx] that the properties below talk
    about, followed by the properties themselves.

    Conventions.
    - C++ [int] values are integers of [Z].  The geometry code only adds,
      subtracts, multiplies and divides coordinates; the model is exact
      wherever those operations do not overflow [int], which is undefined
      behaviour in the source.  Division is C division ([Z.quot]).
    - [rdr::U32]/[rdr::S32] conversions are written out with [u32]/[s32].
    - A byte stream is a [list Z] of octets.
    - Exceptions are values of [Exn]; a throwing function returns its
      exception together with the state reached when it was thrown. *)

From Stdlib Require Import ZArith List Lia Bool Permutation.
From stdpp Require Import base list functions.
Import ListNotations.
Local Open Scope Z_scope.

(** ** Rectangles *)

Module Geometry.

(** Modelled from the spec: [rfb/Rect.h] is not part of the sources at hand.
    A [Rect] is the half-open rectangle [tl.x,br.x) x [tl.y,br.y); its
    area is [w * h]. *)
Record Point : Type := mkPoint { px : Z; py : Z }.
Record Rect : Type := mkRect { tl : Point; br : Point }.

Definition rectXY (x1 y1 x2 y2 : Z) : Rect :=
  mkRect (mkPoint x1 y1) (mkPoint x2 y2).

Definition width (r : Rect) : Z := px (br r) - px (tl r).
Definition height (r : Rect) : Z := py (br r) - py (tl r).
Definition area (r : Rect) : Z := width r * height r.

(** [Rect::setXYWH] *)
Definition setXYWH (x y w h : Z) : Rect := rectXY x y (x + w) (y + h).

(** The data model's invariant [tl <= br]. *)
Definition valid (r : Rect) : Prop := 0 <= width r /\ 0 <= height r.

(** A rectangle that covers at least one pixel; the rectangles a [Region]
    enumerates are of this kind. *)
Definition nonempty (r : Rect) : Prop := 0 < width r /\ 0 < height r.

End Geometry.
Export Geometry.

(** ** Sub-rectangle splitting: [EncodeManager::writeRects] and
       [EncodeManager::computeNumRects] *)

Module Split.

Definition SubRectMaxArea : Z := 65536.
Definition SubRectMaxWidth : Z := 2048.

(** The test [((w*h) < SubRectMaxArea) && (w < SubRectMaxWidth)]. *)
Definition noSplit (w h : Z) : bool :=
  (w * h <? SubRectMaxArea) && (w <? SubRectMaxWidth).

(** [if (w <= SubRectMaxWidth) sw = w; else sw = SubRectMaxWidth;] *)
Definition subWidth (w : Z) : Z :=
  if w <=? SubRectMaxWidth then w else SubRectMaxWidth.

(** [sh = SubRectMaxArea / sw;] *)
Definition subHeight (sw : Z) : Z := Z.quot SubRectMaxArea sw.

(** The inner loop
    [for (sr.tl.x = rect->tl.x; sr.tl.x < rect->br.x; sr.tl.x += sw)],
    for the band [ytop, ybot).  It yields the rectangles handed to
    [queueSubRect], in order.  [fuel] bounds the number of iterations;
    [None] means the bound was hit with the loop condition still true. *)
Fixpoint xLoop (fuel : nat) (rbrx sw ytop ybot x : Z) : option (list Rect) :=
  if x <? rbrx then
    match fuel with
    | O => None
    | S f =>
        let brx := x + sw in
        let brx := if brx >? rbrx then rbrx else brx in
        match xLoop f rbrx sw ytop ybot (x + sw) with
        | Some rest => Some (rectXY x ytop brx ybot :: rest)
        | None => None
        end
    end
  else Some [].

(** The outer loop
    [for (sr.tl.y = rect->tl.y; sr.tl.y < rect->br.y; sr.tl.y += sh)]. *)
Fixpoint yLoop (fuel : nat) (r : Rect) (sw sh y : Z) : option (list Rect) :=
  if y <? py (br r) then
    match fuel with
    | O => None
    | S f =>
        let bry := y + sh in
        let bry := if bry >? py (br r) then py (br r) else bry in
        match xLoop (Z.to_nat (width r)) (px (br r)) sw y bry (px (tl r)) with
        | Some row =>
            match yLoop f r sw sh (y + sh) with
            | Some rest => Some (row ++ rest)
            | None => None
            end
        | None => None
        end
    end
  else Some [].

(** The body of the loop over the rectangles of [changed] in [writeRects]:
    the sub-rectangles queued for one rectangle. *)
Definition splitRect (r : Rect) : option (list Rect) :=
  let w := width r in
  let h := height r in
  if noSplit w h then Some [r]
  else
    let sw := subWidth w in
    let sh := subHeight sw in
    yLoop (Z.to_nat h) r sw sh (py (tl r)).

(** [writeRects], up to the final [flush]: everything pushed on the work
    queue for the rectangles [rects] of the region [changed]. *)
Fixpoint queuedRects (rects : list Rect) : option (list Rect) :=
  match rects with
  | [] => Some []
  | r :: rs =>
      match splitRect r with
      | Some q =>
          match queuedRects rs with
          | Some qs => Some (q ++ qs)
          | None => None
          end
      | None => None
      end
  end.

(** [computeNumRects]: the contribution of one rectangle. *)
Definition numRects1 (r : Rect) : Z :=
  let w := width r in
  let h := height r in
  if noSplit w h then 1
  else
    let sw := subWidth w in
    let sh := subHeight sw in
    (Z.quot (w - 1) sw + 1) * (Z.quot (h - 1) sh + 1).

(** [computeNumRects] *)
Definition computeNumRects (rects : list Rect) : Z :=
  fold_left (fun numRects r => numRects + numRects1 r) rects 0.

(** The tiling as the specification words it: [nx * ny] tiles of size at
    most [sw * sh], row by row, each clipped to the rectangle. *)
Definition ceilDiv (a b : Z) : Z := (a + b - 1) / b.

Definition tile (r : Rect) (sw sh : Z) (i j : nat) : Rect :=
  let x0 := px (tl r) + Z.of_nat j * sw in
  let y0 := py (tl r) + Z.of_nat i * sh in
  rectXY x0 y0 (Z.min (x0 + sw) (px (br r))) (Z.min (y0 + sh) (py (br r))).

Definition tiling (r : Rect) (sw sh : Z) (nx ny : nat) : list Rect :=
  flat_map (fun i => map (fun j => tile r sw sh i j) (seq 0 nx)) (seq 0 ny).

End Split.

(** ** Machine integers *)

Module Ints.

(** Conversion to [rdr::U32] / [unsigned int]. *)
Definition u32 (z : Z) : Z := z mod 2 ^ 32.

(** Conversion to [rdr::S32] / [int], two's complement. *)
Definition s32 (z : Z) : Z := (z + 2 ^ 31) mod 2 ^ 32 - 2 ^ 31.

(** Conversion to [size_t] (64 bits). *)
Definition usize (z : Z) : Z := z mod 2 ^ 64.

(** Conversion to [rdr::U8]. *)
Definition u8 (z : Z) : Z := z mod 256.

End Ints.
Export Ints.

(** ** Encoders and connection parameters *)

Module Encoders.

Inductive EncoderClass : Type :=
| encoderRaw
| encoderRRE
| encoderHextile
| encoderTight
| encoderTightJPEG
| encoderZRLE.

Inductive EncoderType : Type :=
| encoderSolid
| encoderBitmap
| encoderBitmapRLE
| encoderIndexed
| encoderIndexedRLE
| encoderFullColour.

#[global] Instance EncoderClass_eq_dec : EqDecision EncoderClass.
Proof. solve_decision. Defined.

#[global] Instance EncoderType_eq_dec : EqDecision EncoderType.
Proof. solve_decision. Defined.

(** Modelled from the spec: [rfb/Encoder.h] is not part of the sources at
    hand.  An encoder exposes its wire id, the two flags [UseNativePF] and
    [Ordered] (the tests [flags & EncoderUseNativePF] and
    [flags & EncoderOrdered]) and [maxPaletteSize]. *)
Record Encoder : Type := mkEncoder {
  encoding : Z;
  useNativePF : bool;
  ordered : bool;
  maxPaletteSize : Z
}.

(** Modelled from the spec: [rfb/ConnParams.h] is not part of the sources
    at hand.  The fields read by the code modelled here. *)
Record ConnParams : Type := mkConnParams {
  supportsLastRect : bool;
  supportsFence : bool;
  supportsExtendedClipboard : bool;
  clipboardFlags : Z;
  compressLevel : Z
}.

End Encoders.
Export Encoders.

(** ** The rectangle analyser and the update writer *)

Module EncodeManager.

Import Split.

(** What the writer of the connection is asked to do, in order. *)
Inductive WriterEvent : Type :=
| FramebufferUpdateStart (nRects : Z)
| CopyRect (r : Rect) (srcX srcY : Z)
| StartRect (r : Rect) (enc : Z)
| Payload (bytes : list Z)
| EndRect
| FramebufferUpdateEnd.

(** [UpdateInfo]; a [Region] is represented by the list of its rectangles. *)
Record UpdateInfo : Type := mkUpdateInfo {
  changed : list Rect;
  copied : list Rect;
  copy_delta : Point
}.

(** The collaborators whose code is outside [EncodeManager.cxx]: pixel
    buffers, the per-BPP analysis of [EncodeManagerBPP.cxx], the encoders'
    [writeRect], the solid-area search (which needs [Region] subtraction
    and the per-BPP [checkSolidTile]) and the enumeration order of
    [Region::get_rects]. *)
Class Collaborators (PB : Type) : Type := {
  (** [preparePixelBuffer(rect, pb, cp, convert)] *)
  preparePixelBuffer : Rect -> PB -> ConnParams -> bool -> PB;
  (** [PixelBuffer::getRect] *)
  getRect : PB -> Rect;
  (** [analyseRect(pb, &rleRuns, palette, maxColours)]: the returned
      flag, the run count and the palette's colours. *)
  analyseRect : PB -> Z -> bool * Z * list Z;
  (** [encoder->writeRect(pb, palette, cp, out)]: the bytes produced. *)
  writeRect : EncoderClass -> PB -> list Z -> ConnParams -> list Z;
  (** [writeSolidRects(&changed, pb)]: the solid rectangles found, each
      with the bytes the encoder's [writeSolidRect] produces for it, and
      what is left of [changed]. *)
  writeSolidRects : list Rect -> PB -> list (Rect * list Z) * list Rect;
  (** [Region::get_rects(&rects, left2right, topdown)] *)
  get_rects : list Rect -> bool -> bool -> list Rect;
  (** [get_rects] enumerates the rectangles of the region, in an order
      that depends on the two directions. *)
  get_rects_perm : forall rs l2r td, Permutation (get_rects rs l2r td) rs
}.

(** [PreparedEntry] and [OutputEntry] *)
Record PreparedEntry (PB : Type) : Type := mkPrepared {
  prep_pb : PB;
  prep_type : EncoderType;
  prep_palette : list Z
}.
Arguments mkPrepared {PB}.
Arguments prep_pb {PB}.
Arguments prep_type {PB}.
Arguments prep_palette {PB}.

Record OutputEntry : Type := mkOutput {
  out_rect : Rect;
  out_type : EncoderType;
  out_buffer : list Z
}.

(** The peer's preferred encoding, as far as [prepareEncoders] tells the
    values apart. *)
Inductive Preferred : Type :=
| preferRRE
| preferHextile
| preferTight
| preferZRLE
| preferOther.

(** [EncodeManager::prepareEncoders]: the table [activeEncoders], from
    the preferred encoding, the classes whose [isSupported(conn->cp)]
    holds, [cp.pf().bpp] and whether [cp.subsampling] is
    [subsampleGray].  (The calls that pass the compression and quality
    levels on to the encoders are left out.) *)
Definition prepareEncoders (preferred : Preferred)
    (isSupported : EncoderClass -> bool) (bpp : Z) (gray : bool)
  : EncoderType -> EncoderClass :=
  let jpeg := isSupported encoderTightJPEG && (bpp >=? 16) in
  (* Try to respect the client's wishes *)
  let '(solid, bitmap, bitmapRLE, indexed, indexedRLE, fullColour) :=
    match preferred with
    | preferRRE =>
        (encoderRaw, encoderRaw, encoderRRE, encoderRaw, encoderRRE,
         encoderRaw)
    | preferHextile =>
        (encoderRaw, encoderRaw, encoderHextile, encoderRaw, encoderHextile,
         encoderHextile)
    | preferTight =>
        (encoderRaw, encoderTight, encoderTight, encoderTight, encoderTight,
         if jpeg then encoderTightJPEG else encoderTight)
    | preferZRLE =>
        (encoderRaw, encoderZRLE, encoderZRLE, encoderZRLE, encoderZRLE,
         encoderZRLE)
    | preferOther =>
        (encoderRaw, encoderRaw, encoderRaw, encoderRaw, encoderRaw,
         encoderRaw)
    end in
  (* Any encoders still unassigned? *)
  let fullColour :=
    if decide (fullColour = encoderRaw) then
      if jpeg then encoderTightJPEG
      else if isSupported encoderZRLE then encoderZRLE
      else if isSupported encoderTight then encoderTight
      else if isSupported encoderHextile then encoderHextile
      else fullColour
    else fullColour in
  let indexed :=
    if decide (indexed = encoderRaw) then
      if isSupported encoderZRLE then encoderZRLE
      else if isSupported encoderTight then encoderTight
      else if isSupported encoderHextile then encoderHextile
      else indexed
    else indexed in
  let indexedRLE :=
    if decide (indexedRLE = encoderRaw) then indexed else indexedRLE in
  let bitmap := if decide (bitmap = encoderRaw) then indexed else bitmap in
  let bitmapRLE :=
    if decide (bitmapRLE = encoderRaw) then bitmap else bitmapRLE in
  let solid :=
    if decide (solid = encoderRaw) then
      if isSupported encoderTight then encoderTight
      else if isSupported encoderRRE then encoderRRE
      else if isSupported encoderZRLE then encoderZRLE
      else if isSupported encoderHextile then encoderHextile
      else solid
    else solid in
  (* JPEG is the only encoder that can reduce things to grayscale *)
  let all := gray && isSupported encoderTightJPEG in
  fun type =>
    if all then encoderTightJPEG
    else
      match type with
      | encoderSolid => solid
      | encoderBitmap => bitmap
      | encoderBitmapRLE => bitmapRLE
      | encoderIndexed => indexed
      | encoderIndexedRLE => indexedRLE
      | encoderFullColour => fullColour
      end.

Section Manager.

Context {PB : Type} `{Co : Collaborators PB}.

(** The state of the manager that the modelled code reads: the encoder
    objects and the [activeEncoders] table left by [prepareEncoders]. *)
Variable encoders : EncoderClass -> Encoder.
Variable activeEncoders : EncoderType -> EncoderClass.
Variable cp : ConnParams.

(** [EncodeManager::getEncoder] *)
Definition getEncoder (type : EncoderType) : Encoder :=
  encoders (activeEncoders type).

(** The palette budget computed at the start of [prepareRect];
    [divisor] and [maxColours] are [unsigned int]. *)
Definition paletteDivisor : Z :=
  let divisor :=
    if compressLevel cp =? -1 then 2 * 8 else u32 (compressLevel cp * 8) in
  if divisor <? 4 then 4 else divisor.

Definition paletteBudget (rect : Rect) : Z :=
  let maxColours := u32 (area rect) / paletteDivisor in
  let maxColours :=
    if decide (activeEncoders encoderFullColour = encoderTightJPEG) then
      if negb (compressLevel cp =? -1) && (compressLevel cp <? 2)
      then 24 else 96
    else maxColours in
  let maxColours := if maxColours <? 2 then 2 else maxColours in
  let maxColours :=
    if maxColours >? maxPaletteSize (getEncoder encoderIndexedRLE)
    then maxPaletteSize (getEncoder encoderIndexedRLE) else maxColours in
  if maxColours >? maxPaletteSize (getEncoder encoderIndexed)
  then maxPaletteSize (getEncoder encoderIndexed) else maxColours.

(** [useRLE = rleRuns <= (rect.area() * 2);] *)
Definition useRLE (rleRuns : Z) (rect : Rect) : bool :=
  rleRuns <=? area rect * 2.

(** The [switch (palette->size())] of [prepareRect]. *)
Definition chooseType (paletteSize : nat) (rle : bool) : EncoderType :=
  match paletteSize with
  | 0%nat => encoderFullColour
  | 1%nat => encoderSolid
  | 2%nat => if rle then encoderBitmapRLE else encoderBitmap
  | _ => if rle then encoderIndexedRLE else encoderIndexed
  end.

(** [EncodeManager::EncodeThread::prepareRect] *)
Definition prepareRect (rect : Rect) (pb : PB) : PreparedEntry PB :=
  let maxColours := paletteBudget rect in
  let ppb := preparePixelBuffer rect pb cp true in
  let '(ok, rleRuns, colours) := analyseRect ppb (s32 maxColours) in
  let palette := if ok then colours else [] in
  let type := chooseType (length palette) (useRLE rleRuns rect) in
  let ppb :=
    if useNativePF (getEncoder type)
    then preparePixelBuffer rect pb cp false else ppb in
  mkPrepared ppb type palette.

(** [EncodeManager::EncodeThread::encodeRect] *)
Definition encodeRect (prep : PreparedEntry PB) : OutputEntry :=
  mkOutput (getRect (prep_pb prep)) (prep_type prep)
    (writeRect (activeEncoders (prep_type prep)) (prep_pb prep)
       (prep_palette prep) cp).

(** [startRect(rect, type)] up to [endRect()], as [flush] and the solid
    search use them.  (The statistics they update are left out.) *)
Definition writeOutput (o : OutputEntry) : list WriterEvent :=
  [StartRect (out_rect o) (encoding (getEncoder (out_type o)));
   Payload (out_buffer o); EndRect].

(** [queueSubRect] followed by [flush], for the entries pushed on the work
    queue since the last [flush].  Every entry is turned into exactly one
    output entry by a worker ([prepareRect], then [encodeRect]), and
    [flush] writes output entries until it has written as many as were
    pushed.  The events are listed for the schedule in which the outputs
    arrive in push order; the worker pool itself is modelled in [Sched]. *)
Definition flush (workQueue : list (Rect * PB)) : list WriterEvent :=
  flat_map (fun e => writeOutput (encodeRect (prepareRect (fst e) (snd e))))
    workQueue.

(** [EncodeManager::writeCopyRects] *)
Definition writeCopyRects (ui : UpdateInfo) : list WriterEvent :=
  map (fun r => CopyRect r (px (tl r) - px (copy_delta ui))
                           (py (tl r) - py (copy_delta ui)))
    (get_rects (copied ui) (px (copy_delta ui) <=? 0)
       (py (copy_delta ui) <=? 0)).

(** The solid rectangles as [findSolidRect] writes them: a
    [startRect(erp, encoderSolid)] / [endRect()] pair around the
    encoder's [writeSolidRect]. *)
Definition writeSolid (solid : Rect * list Z) : list WriterEvent :=
  [StartRect (fst solid) (encoding (getEncoder encoderSolid));
   Payload (snd solid); EndRect].

(** [EncodeManager::writeRects] *)
Definition writeRects (rects : list Rect) (pb : PB)
  : option (list WriterEvent) :=
  match queuedRects (get_rects rects true true) with
  | Some q => Some (flush (map (fun r => (r, pb)) q))
  | None => None
  end.

(** [EncodeManager::writeUpdate]; [renderedCursor] is the cursor's pixel
    buffer together with its effective rectangle, when there is one. *)
Definition writeUpdate (ui : UpdateInfo) (pb : PB)
    (renderedCursor : option (Rect * PB)) : option (list WriterEvent) :=
  let nRects :=
    if supportsLastRect cp then 65535
    else
      let nRects := Z.of_nat (length (copied ui)) in
      let nRects :=
        nRects + computeNumRects (get_rects (changed ui) true true) in
      match renderedCursor with
      | Some _ => nRects + 1
      | None => nRects
      end in
  let '(solid, changed') :=
    if supportsLastRect cp then writeSolidRects (changed ui) pb
    else ([], changed ui) in
  match writeRects changed' pb with
  | Some rectEvents =>
      Some ([FramebufferUpdateStart nRects]
              ++ writeCopyRects ui
              ++ flat_map writeSolid solid
              ++ rectEvents
              ++ match renderedCursor with
                 | Some (r, cpb) => flush [(r, cpb)]
                 | None => []
                 end
              ++ [FramebufferUpdateEnd])
  | None => None
  end.

(** The counts compared by the header invariant. *)
Definition isCopyRect (e : WriterEvent) : bool :=
  match e with CopyRect _ _ _ => true | _ => false end.
Definition isStartRect (e : WriterEvent) : bool :=
  match e with StartRect _ _ => true | _ => false end.
Definition isEndRect (e : WriterEvent) : bool :=
  match e with EndRect => true | _ => false end.

Definition countEvents (p : WriterEvent -> bool) (evs : list WriterEvent)
  : Z :=
  Z.of_nat (length (List.filter p evs)).

End Manager.

End EncodeManager.

(** ** The wire codec: [MsgReader] and [MsgWriter] *)

Module Wire.

(** The constants of [rfb/msgTypes.h], [rfb/fenceTypes.h] and
    [rfb/clipboardTypes.h], which are not part of the sources at hand. *)
Class ProtocolConsts : Type := {
  msgTypeClientFence : Z;
  msgTypeServerFence : Z;
  msgTypeClientCutText : Z;
  msgTypeServerCutText : Z;
  fenceFlagsSupported : Z;
  clipboardActionMask : Z;
  clipboardCaps : Z;
  clipboardRequest : Z;
  clipboardPeek : Z;
  clipboardNotify : Z;
  clipboardProvide : Z
}.

(** [rdr::ZlibOutStream] and [rdr::ZlibInStream], as functions on whole
    byte strings. *)
Class Zlib : Type := {
  deflate : list Z -> list Z;
  inflate : list Z -> list Z
}.

(** The clipboard actions a peer advertises, to name the one an exception
    is about. *)
Inductive Action : Type :=
| ActRequest
| ActPeek
| ActNotify
| ActProvide.

(** The messages of the exceptions thrown by the codec. *)
Inductive What : Type :=
| InvalidExtendedClipboardMessage
| InvalidExtendedClipboardAction
| PeerDoesNotSupportFences
| TooLargeFencePayload
| UnknownFenceFlags
| PeerDoesNotSupportExtendedClipboard
| PeerDoesNotSupportClipboardAction (a : Action).

Inductive Exn : Type :=
| EndOfStream
| Exception (what : What).

(** The calls made on the [MsgHandler].  A C array of 16 slots is a list
    of 16 optional values, [None] for a slot that was never written. *)
Inductive HandlerCall : Type :=
| Fence (flags len : Z) (data : list Z)
| CutText (str : list Z) (len : Z)
| ClipboardCaps (flags : Z) (lengths : list (option Z))
| ClipboardRequest (flags : Z)
| ClipboardPeek (flags : Z)
| ClipboardNotify (flags : Z)
| ClipboardProvide (flags : Z) (lengths : list (option Z))
    (buffers : list (option (list Z))).

(** [flags & (1 << i)] as a condition. *)
Definition bitSet (flags i : Z) : bool :=
  negb (Z.land flags (Z.shiftl 1 i) =? 0).

(** [flags &= ~(1 << i)] on an [rdr::U32]. *)
Definition clearBit (flags i : Z) : Z :=
  Z.land flags (u32 (Z.lnot (Z.shiftl 1 i))).

(** The values of [i] in [for (i = 0; i < 16; i++)]. *)
Definition formatBits : list Z :=
  [0; 1; 2; 3; 4; 5; 6; 7; 8; 9; 10; 11; 12; 13; 14; 15].

(** The counting loops of [readExtendedClipboard] and
    [writeClipboardCaps]. *)
Definition countFormats (flags : Z) : Z :=
  fold_left (fun num i => if bitSet flags i then num + 1 else num)
    formatBits 0.

(** Big-endian encoding of an [rdr::U32]. *)
Definition encodeU32 (v : Z) : list Z :=
  [Z.shiftr v 24 mod 256; Z.shiftr v 16 mod 256; Z.shiftr v 8 mod 256;
   v mod 256].

(** *** Reading *)

Module Reader.

(** The reader's state: what is left of the input stream, and the handler
    calls made so far. *)
Record RState : Type := mkRState {
  input : list Z;
  calls : list HandlerCall
}.

(** A computation that may throw; the state it reached is kept. *)
Definition M (A : Type) : Type := RState -> (Exn + A) * RState.

Definition ret {A} (a : A) : M A := fun s => (inr a, s).

Definition bind {A B} (m : M A) (k : A -> M B) : M B := fun s =>
  match m s with
  | (inr a, s') => k a s'
  | (inl e, s') => (inl e, s')
  end.

Definition throw {A} (e : Exn) : M A := fun s => (inl e, s).

Notation "x <- m ;; k" := (bind m (fun x => k))
  (at level 100, m at next level, right associativity).
Notation "m ;;; k" := (bind m (fun _ => k))
  (at level 100, right associativity).

(** [InStream::skip], [readU8], [readU32] and [readBytes] on a stream
    that ends: running out of input is [rdr::EndOfStream]. *)
Definition skip (n : Z) : M unit := fun s =>
  if n <=? Z.of_nat (length (input s))
  then (inr tt, mkRState (drop (Z.to_nat n) (input s)) (calls s))
  else (inl EndOfStream, s).

Definition readBytes (n : Z) : M (list Z) := fun s =>
  if n <=? Z.of_nat (length (input s))
  then (inr (take (Z.to_nat n) (input s)),
        mkRState (drop (Z.to_nat n) (input s)) (calls s))
  else (inl EndOfStream, s).

Definition readU8 : M Z := fun s =>
  match input s with
  | b :: rest => (inr b, mkRState rest (calls s))
  | [] => (inl EndOfStream, s)
  end.

Definition readU32 : M Z :=
  b0 <- readU8 ;;
  b1 <- readU8 ;;
  b2 <- readU8 ;;
  b3 <- readU8 ;;
  ret (Z.lor (Z.lor (Z.lor (Z.shiftl b0 24) (Z.shiftl b1 16))
         (Z.shiftl b2 8)) b3).

(** A call on the handler. *)
Definition call (c : HandlerCall) : M unit := fun s =>
  (inr tt, mkRState (input s) (calls s ++ [c])).

(** A loop over the values of [i], threading the loop's variables. *)
Fixpoint forEach {St} (idxs : list Z) (body : Z -> St -> M St) (st : St)
  : M St :=
  match idxs with
  | [] => ret st
  | i :: rest => st' <- body i st ;; forEach rest body st'
  end.

Section Read.

Context `{K : ProtocolConsts} `{Zl : Zlib}.

(** The setting [MaxCutText], an [IntParameter]. *)
Variable maxCutText : Z.

(** [zis.setUnderlying(is, n)] ... [zis.removeUnderlying()]: the body
    reads from the inflated image of the next [n] bytes, which are
    consumed from the underlying stream. *)
Definition withZlib {A} (n : Z) (body : M A) : M A := fun s =>
  if n <=? Z.of_nat (length (input s)) then
    let compressed := take (Z.to_nat n) (input s) in
    let rest := drop (Z.to_nat n) (input s) in
    match body (mkRState (inflate compressed) (calls s)) with
    | (r, s') => (r, mkRState rest (calls s'))
    end
  else (inl EndOfStream, s).

(** The loop of the [clipboardCaps] branch that fills [lengths]. *)
Definition capsBody (flags : Z) (i : Z) (st : nat * list (option Z))
  : M (nat * list (option Z)) :=
  let '(num, lengths) := st in
  if bitSet flags i then
    v <- readU32 ;;
    ret (S num, <[num := Some v]> lengths)
  else ret (num, lengths).

(** The loop variables of the [clipboardProvide] branch. *)
Record ProvideState : Type := mkProvide {
  p_flags : Z;
  p_num : nat;
  p_lengths : list (option Z);
  p_buffers : list (option (list Z))
}.

Definition provideBody (i : Z) (st : ProvideState) : M ProvideState :=
  if negb (bitSet (p_flags st) i) then ret st
  else
    v <- readU32 ;;
    let lengths := <[p_num st := Some v]> (p_lengths st) in
    if v >? usize maxCutText then
      skip v ;;;
      ret (mkProvide (clearBit (p_flags st) i) (p_num st) lengths
             (p_buffers st))
    else
      b <- readBytes v ;;
      ret (mkProvide (p_flags st) (S (p_num st)) lengths
             (<[p_num st := Some b]> (p_buffers st))).

(** [MsgReader::readExtendedClipboard] *)
Definition readExtendedClipboard (len : Z) : M unit :=
  if len <? 4 then throw (Exception InvalidExtendedClipboardMessage)
  else if len >? maxCutText then skip len
  else
    flags <- readU32 ;;
    let action := Z.land flags clipboardActionMask in
    if negb (Z.land action clipboardCaps =? 0) then
      let num := countFormats flags in
      if len <? s32 (4 + 4 * num) then
        throw (Exception InvalidExtendedClipboardMessage)
      else
        st <- forEach formatBits (capsBody flags) (0%nat, replicate 16 None) ;;
        call (ClipboardCaps flags (snd st))
    else if action =? clipboardProvide then
      st <- withZlib (len - 4)
              (forEach formatBits provideBody
                 (mkProvide flags 0 (replicate 16 None) (replicate 16 None))) ;;
      call (ClipboardProvide (p_flags st) (p_lengths st) (p_buffers st))
    else if action =? clipboardRequest then call (ClipboardRequest flags)
    else if action =? clipboardPeek then call (ClipboardPeek flags)
    else if action =? clipboardNotify then call (ClipboardNotify flags)
    else throw (Exception InvalidExtendedClipboardAction).

(** [MsgReader::readCutText].  The text handed to the handler is followed
    by a NUL in the source's buffer. *)
Definition readCutText : M unit :=
  skip 3 ;;;
  len <- readU32 ;;
  if negb (Z.land len 2147483648 =? 0) then
    let slen := s32 len in
    let slen := s32 (- slen) in
    readExtendedClipboard slen
  else if len >? usize maxCutText then skip len
  else
    str <- readBytes len ;;
    call (CutText str len).

(** [MsgReader::readFence] *)
Definition readFence : M unit :=
  skip 3 ;;;
  flags <- readU32 ;;
  len <- readU8 ;;
  if len >? 64 then skip len
  else
    data <- readBytes len ;;
    call (Fence flags len data).

End Read.

End Reader.

(** *** Writing *)

Module Writer.

(** The writer's state is the bytes written to the [OutStream] so far. *)
Definition W (A : Type) : Type := list Z -> (Exn + A) * list Z.

Definition ret {A} (a : A) : W A := fun os => (inr a, os).

Definition bind {A B} (m : W A) (k : A -> W B) : W B := fun os =>
  match m os with
  | (inr a, os') => k a os'
  | (inl e, os') => (inl e, os')
  end.

Definition throw {A} (e : Exn) : W A := fun os => (inl e, os).

Notation "m ;;; k" := (bind m (fun _ => k))
  (at level 100, right associativity).

Definition writeU8 (v : Z) : W unit := fun os => (inr tt, os ++ [u8 v]).
Definition writeU32 (v : Z) : W unit := fun os =>
  (inr tt, os ++ encodeU32 (u32 v)).
Definition writeS32 (v : Z) : W unit := writeU32 (u32 v).
Definition pad (n : nat) : W unit := fun os => (inr tt, os ++ replicate n 0).
(** [writeBytes(data, length)] copies the first [length] bytes. *)
Definition writeBytes (data : list Z) (len : Z) : W unit := fun os =>
  (inr tt, os ++ take (Z.to_nat len) data).
(** [OutStream::flush] leaves the bytes written as they are. *)
Definition flushStream : W unit := ret tt.

Fixpoint forEach {St} (idxs : list Z) (body : Z -> St -> W St) (st : St)
  : W St :=
  match idxs with
  | [] => ret st
  | i :: rest => bind (body i st) (forEach rest body)
  end.

Section Write.

Context `{K : ProtocolConsts} `{Zl : Zlib}.

(** The members of [MsgWriter]. *)
Variable client : bool.
Variable cp : ConnParams.

Definition startMsg (type : Z) : W unit := writeU8 type.
Definition endMsg : W unit := flushStream.

Definition cutTextType : Z :=
  if client then msgTypeClientCutText else msgTypeServerCutText.

(** [MsgWriter::writeFence] *)
Definition writeFence (flags len : Z) (data : list Z) : W unit :=
  if negb (supportsFence cp) then throw (Exception PeerDoesNotSupportFences)
  else if len >? 64 then throw (Exception TooLargeFencePayload)
  else if negb (Z.land flags (u32 (Z.lnot fenceFlagsSupported)) =? 0) then
    throw (Exception UnknownFenceFlags)
  else
    startMsg (if client then msgTypeClientFence else msgTypeServerFence) ;;;
    pad 3 ;;;
    writeU32 flags ;;;
    writeU8 len ;;;
    writeBytes data len ;;;
    endMsg.

(** [MsgWriter::writeCutText] *)
Definition writeCutText (str : list Z) (len : Z) : W unit :=
  startMsg cutTextType ;;;
  pad 3 ;;;
  writeU32 len ;;;
  writeBytes str len ;;;
  endMsg.

(** [MsgWriter::writeClipboardCaps]; [lengths[count]] beyond the end of
    the array handed in is read as [0]. *)
Definition writeClipboardCaps (caps : Z) (lengths : list Z) : W unit :=
  if negb (supportsExtendedClipboard cp) then
    throw (Exception PeerDoesNotSupportExtendedClipboard)
  else
    let count := countFormats caps in
    startMsg cutTextType ;;;
    pad 3 ;;;
    writeS32 (- (4 + 4 * count)) ;;;
    writeU32 (Z.lor caps clipboardCaps) ;;;
    bind (forEach formatBits
            (fun i count =>
               if bitSet caps i then
                 bind (writeU32 (default 0 (lengths !! count)))
                   (fun _ => ret (S count))
               else ret count) 0%nat)
      (fun _ => endMsg).

(** The common shape of [writeClipboardRequest], [writeClipboardPeek] and
    [writeClipboardNotify]. *)
Definition writeClipboardAction (a : Action) (bit flags : Z) : W unit :=
  if negb (supportsExtendedClipboard cp) then
    throw (Exception PeerDoesNotSupportExtendedClipboard)
  else if Z.land (clipboardFlags cp) bit =? 0 then
    throw (Exception (PeerDoesNotSupportClipboardAction a))
  else
    startMsg cutTextType ;;;
    pad 3 ;;;
    writeS32 (-4) ;;;
    writeU32 (Z.lor flags bit) ;;;
    endMsg.

(** [MsgWriter::writeClipboardRequest] *)
Definition writeClipboardRequest (flags : Z) : W unit :=
  writeClipboardAction ActRequest clipboardRequest flags.

(** [MsgWriter::writeClipboardPeek] *)
Definition writeClipboardPeek (flags : Z) : W unit :=
  writeClipboardAction ActPeek clipboardPeek flags.

(** [MsgWriter::writeClipboardNotify] *)
Definition writeClipboardNotify (flags : Z) : W unit :=
  writeClipboardAction ActNotify clipboardNotify flags.

(** The records written to the zlib stream by [writeClipboardProvide]. *)
Definition provideRecords (flags : Z) (lengths : list Z)
    (data : list (list Z)) : W nat :=
  forEach formatBits
    (fun i count =>
       if negb (bitSet flags i) then ret count
       else
         writeU32 (default 0 (lengths !! count)) ;;;
         writeBytes (default [] (data !! count))
           (default 0 (lengths !! count)) ;;;
         ret (S count)) 0%nat.

(** [MsgWriter::writeClipboardProvide] *)
Definition writeClipboardProvide (flags : Z) (lengths : list Z)
    (data : list (list Z)) : W unit :=
  if negb (supportsExtendedClipboard cp) then
    throw (Exception PeerDoesNotSupportExtendedClipboard)
  else if Z.land (clipboardFlags cp) clipboardProvide =? 0 then
    throw (Exception (PeerDoesNotSupportClipboardAction ActProvide))
  else
    let mos := deflate (snd (provideRecords flags lengths data [])) in
    startMsg cutTextType ;;;
    pad 3 ;;;
    writeS32 (- (4 + Z.of_nat (length mos))) ;;;
    writeU32 (Z.lor flags clipboardProvide) ;;;
    writeBytes mos (Z.of_nat (length mos)) ;;;
    endMsg.

End Write.

End Writer.

(** The values the RFB protocol gives to the constants. *)
Definition rfbConsts : ProtocolConsts := {|
  msgTypeClientFence := 248;
  msgTypeServerFence := 248;
  msgTypeClientCutText := 6;
  msgTypeServerCutText := 3;
  fenceFlagsSupported := 2147483655;
  clipboardActionMask := 4278190080;
  clipboardCaps := 16777216;
  clipboardRequest := 33554432;
  clipboardPeek := 67108864;
  clipboardNotify := 134217728;
  clipboardProvide := 268435456
|}.

(** A stand-in for zlib that stores the bytes uncompressed. *)
Definition storedZlib : Zlib := {| deflate := id; inflate := id |}.



End Wire.

(** ** The worker pool: [EncodeThread::worker], [queueSubRect], [flush] *)

Module Sched.

Import EncodeManager.

Section Pool.

Context {PB : Type} `{Co : Collaborators PB}.

Variable encoders : EncoderClass -> Encoder.
Variable activeEncoders : EncoderType -> EncoderClass.
Variable cp : ConnParams.

Definition RectEntry : Type := (Rect * PB)%type.

(** What [prepareRect] makes of a work entry, and the class it is queued
    for ([manager->activeEncoders[prep->type]]). *)
Definition prepare (e : RectEntry) : PreparedEntry PB :=
  prepareRect encoders activeEncoders cp (fst e) (snd e).

Definition klassOf (prep : PreparedEntry PB) : EncoderClass :=
  activeEncoders (prep_type prep).

Definition encode (prep : PreparedEntry PB) : OutputEntry :=
  encodeRect activeEncoders cp prep.

(** Where a worker thread is between two of its critical sections.  All
    queues are touched under [queueMutex] only, so a run of the pool is an
    interleaving of the critical sections of the threads; [prepareRect]
    and [encodeRect] run with the mutex released. *)
Inductive Thread : Type :=
| Waiting
| Preparing (e : RectEntry)
| EncodingOrdered (klass : EncoderClass) (prep : PreparedEntry PB)
| EncodingPlain (prep : PreparedEntry PB)
| Stopped.

(** The shared state guarded by [queueMutex], the threads, and histories
    that the code does not keep: the outputs [flush] has written, the
    entries pushed on the work queue, and per class the prepared entries
    pushed on its encoder queue and those handed to [encodeRect] by the
    queue's owner. *)
Record State : Type := mkState {
  workQueue : list RectEntry;
  rectCount : nat;
  encoderQueue : EncoderClass -> list (PreparedEntry PB);
  outputQueue : list OutputEntry;
  threads : list Thread;
  written : list OutputEntry;
  pushedLog : list RectEntry;
  queuedLog : EncoderClass -> list (PreparedEntry PB);
  encodedLog : EncoderClass -> list (PreparedEntry PB)
}.

(** The manager as its constructor leaves it, with [n] worker threads. *)
Definition init (n : nat) : State :=
  mkState [] 0 (fun _ => []) [] (replicate n Waiting) []
    [] (fun _ => []) (fun _ => []).

(** [queueSubRect] *)
Definition doQueue (e : RectEntry) (s : State) : State :=
  mkState (workQueue s ++ [e]) (S (rectCount s)) (encoderQueue s)
    (outputQueue s) (threads s) (written s)
    (pushedLog s ++ [e]) (queuedLog s) (encodedLog s).

(** The worker pops the front of the work queue. *)
Definition doPop (i : nat) (s : State) : option State :=
  match threads s !! i, workQueue s with
  | Some Waiting, e :: rest =>
      Some (mkState rest (rectCount s) (encoderQueue s) (outputQueue s)
              (<[i := Preparing e]> (threads s)) (written s)
              (pushedLog s) (queuedLog s) (encodedLog s))
  | _, _ => None
  end.

(** The worker has analysed its entry.  For an ordered encoder it pushes
    the result on the encoder's queue and, when the queue holds nothing
    else, becomes its owner and starts on the front; otherwise it goes
    back to the work queue.  For a plain encoder it encodes right away. *)
Definition doPrepared (i : nat) (s : State) : option State :=
  match threads s !! i with
  | Some (Preparing e) =>
      let prep := prepare e in
      let klass := klassOf prep in
      if ordered (encoders klass) then
        let q := encoderQueue s klass ++ [prep] in
        if decide (length q = 1%nat) then
          match q with
          | front :: _ =>
              Some (mkState (workQueue s) (rectCount s)
                      (<[klass := q]> (encoderQueue s)) (outputQueue s)
                      (<[i := EncodingOrdered klass front]> (threads s))
                      (written s) (pushedLog s)
                      (<[klass := queuedLog s klass ++ [prep]]> (queuedLog s))
                      (<[klass := encodedLog s klass ++ [front]]>
                         (encodedLog s)))
          | [] => None
          end
        else
          Some (mkState (workQueue s) (rectCount s)
                  (<[klass := q]> (encoderQueue s)) (outputQueue s)
                  (<[i := Waiting]> (threads s)) (written s) (pushedLog s)
                  (<[klass := queuedLog s klass ++ [prep]]> (queuedLog s))
                  (encodedLog s))
      else
        Some (mkState (workQueue s) (rectCount s) (encoderQueue s)
                (outputQueue s) (<[i := EncodingPlain prep]> (threads s))
                (written s) (pushedLog s) (queuedLog s) (encodedLog s))
  | _ => None
  end.

(** The owner of an encoder queue has encoded the front: it pops it,
    pushes the output and, while the queue is not empty, goes on with the
    new front.  A plain encoder's output is pushed likewise. *)
Definition doEncoded (i : nat) (s : State) : option State :=
  match threads s !! i with
  | Some (EncodingOrdered klass prep) =>
      let q := tail (encoderQueue s klass) in
      let out := outputQueue s ++ [encode prep] in
      match q with
      | front :: _ =>
          Some (mkState (workQueue s) (rectCount s)
                  (<[klass := q]> (encoderQueue s)) out
                  (<[i := EncodingOrdered klass front]> (threads s))
                  (written s) (pushedLog s) (queuedLog s)
                  (<[klass := encodedLog s klass ++ [front]]> (encodedLog s)))
      | [] =>
          Some (mkState (workQueue s) (rectCount s)
                  (<[klass := q]> (encoderQueue s)) out
                  (<[i := Waiting]> (threads s))
                  (written s) (pushedLog s) (queuedLog s) (encodedLog s))
      end
  | Some (EncodingPlain prep) =>
      Some (mkState (workQueue s) (rectCount s) (encoderQueue s)
              (outputQueue s ++ [encode prep])
              (<[i := Waiting]> (threads s))
              (written s) (pushedLog s) (queuedLog s) (encodedLog s))
  | _ => None
  end.

(** One round of the loop of [flush]: the driver takes the front of the
    output queue and writes it. *)
Definition doFlush (s : State) : option State :=
  match rectCount s, outputQueue s with
  | S n, o :: rest =>
      Some (mkState (workQueue s) n (encoderQueue s) rest (threads s)
              (written s ++ [o]) (pushedLog s) (queuedLog s) (encodedLog s))
  | _, _ => None
  end.

(** A waiting worker sees [stopRequested] and leaves its loop. *)
Definition doStop (i : nat) (s : State) : option State :=
  match threads s !! i with
  | Some Waiting =>
      Some (mkState (workQueue s) (rectCount s) (encoderQueue s)
              (outputQueue s) (<[i := Stopped]> (threads s)) (written s)
              (pushedLog s) (queuedLog s) (encodedLog s))
  | _ => None
  end.

(** The moves of the pool. *)
Inductive Move : Type :=
| MQueue (e : RectEntry)
| MPop (i : nat)
| MPrepared (i : nat)
| MEncoded (i : nat)
| MFlush
| MStop (i : nat).

Definition move (m : Move) (s : State) : option State :=
  match m with
  | MQueue e => Some (doQueue e s)
  | MPop i => doPop i s
  | MPrepared i => doPrepared i s
  | MEncoded i => doEncoded i s
  | MFlush => doFlush s
  | MStop i => doStop i s
  end.

Inductive step : State -> State -> Prop :=
| step_move m s s' : move m s = Some s' -> step s s'.

(** The states the pool can be in, started with [n] threads. *)
Inductive reachable (n : nat) : State -> Prop :=
| reach_init : reachable n (init n)
| reach_step s s' : reachable n s -> step s s' -> reachable n s'.

(** A run of moves, for building concrete states. *)
Fixpoint run (ms : list Move) (s : State) : option State :=
  match ms with
  | [] => Some s
  | m :: rest =>
      match move m s with
      | Some s' => run rest s'
      | None => None
      end
  end.

(** The entries of class [k] in the order [queueSubRect] pushed them. *)
Definition workOrder (s : State) (k : EncoderClass) : list (PreparedEntry PB) :=
  filter (fun prep => klassOf prep = k) (map prepare (pushedLog s)).

(** No two threads are inside [encodeRect] for the class [k]. *)
Definition oneAtATime (s : State) (k : EncoderClass) : Prop :=
  forall i j p q,
    threads s !! i = Some (EncodingOrdered k p) ->
    threads s !! j = Some (EncodingOrdered k q) ->
    i = j.

(** The invariant of the pool, for the class [k]: a thread that is
    encoding for [k] has the front of [k]'s queue in hand; there is at
    most one such thread, and there is one whenever the queue is not
    empty; the entries ever queued for [k] are those already popped, then
    the queue; the entries handed to [encodeRect] are those already
    popped, then the front of the queue. *)
Definition classInv (s : State) (k : EncoderClass) : Prop :=
  (forall i p, threads s !! i = Some (EncodingOrdered k p) ->
               head (encoderQueue s k) = Some p) /\
  oneAtATime s k /\
  (encoderQueue s k <> [] ->
   exists i p, threads s !! i = Some (EncodingOrdered k p)) /\
  (exists popped,
     queuedLog s k = popped ++ encoderQueue s k /\
     encodedLog s k = popped ++ take 1 (encoderQueue s k)) /\
  Forall (fun p => klassOf p = k /\ ordered (encoders k) = true)
    (queuedLog s k).

End Pool.

Arguments Thread PB : clear implicits.
Arguments State PB : clear implicits.
Arguments RectEntry PB : clear implicits.
Arguments Move PB : clear implicits.

End Sched.


(** ** Writing a message and reading it back *)

Module Codec.

Import Wire.


(** The format bits set in [flags], in ascending order. *)
Definition setFormats (flags : Z) : list Z :=
  List.filter (bitSet flags) formatBits.

(** A record of the inflated body of a Provide message: the [U32] length
    of a format's data, then the data. *)
Definition provideRecord (r : Z * list Z) : list Z :=
  encodeU32 (fst r) ++ snd r.

(** A record whose length does not exceed [maxCutText]. *)
Definition fits (maxCutText : Z) (r : Z * list Z) : bool :=
  fst r <=? maxCutText.

(** The formats [bits] paired with their records, in order; those that
    fit, and the formats of those that do not. *)
Definition keptOf (maxCutText : Z) (bits : list Z)
    (recs : list (Z * list Z)) : list (Z * (Z * list Z)) :=
  List.filter (fun fr => fits maxCutText (snd fr)) (combine bits recs).

Definition droppedOf (maxCutText : Z) (bits : list Z)
    (recs : list (Z * list Z)) : list Z :=
  map fst (List.filter (fun fr => negb (fits maxCutText (snd fr)))
             (combine bits recs)).

End Codec.

(** ** A concrete pipeline

    Pixel buffers as rows of pixel values, with the collaborators filled
    in, to run the definitions above on concrete frames. *)

Module Concrete.

Import EncodeManager.

(** A pixel buffer: its rows, top to bottom. *)
Definition Pixels : Type := list (list Z).

(** The part of a buffer inside [rect]. *)
Definition crop (rect : Rect) (pb : Pixels) : Pixels :=
  map (fun row => take (Z.to_nat (width rect))
                    (drop (Z.to_nat (px (tl rect))) row))
    (take (Z.to_nat (height rect)) (drop (Z.to_nat (py (tl rect))) pb)).

Definition bufferRect (pb : Pixels) : Rect :=
  rectXY 0 0 (Z.of_nat (length (hd [] pb))) (Z.of_nat (length pb)).

(** Modelled from the spec: [EncodeManagerBPP.cxx], which holds the
    per-BPP [analyseRect], is not part of the sources at hand.  The run
    count is the number of horizontal runs of like-coloured pixels. *)
Fixpoint rowRuns (prev : option Z) (row : list Z) : Z :=
  match row with
  | [] => 0
  | p :: rest =>
      (if decide (prev = Some p) then 0 else 1) + rowRuns (Some p) rest
  end.

Definition countRuns (pb : Pixels) : Z :=
  fold_right (fun row n => rowRuns None row + n) 0 pb.

(** Modelled from the spec: the palette records each distinct colour in
    the order it is first met. *)
Fixpoint distinctColours (seen : list Z) (pixels : list Z) : list Z :=
  match pixels with
  | [] => seen
  | p :: rest =>
      if in_dec Z.eq_dec p seen then distinctColours seen rest
      else distinctColours (seen ++ [p]) rest
  end.

(** Modelled from the spec: the analysis gives up ("no palette") when
    there are more than [maxColours] colours. *)
Definition analysePixels (pb : Pixels) (maxColours : Z) : bool * Z * list Z :=
  let palette := distinctColours [] (concat pb) in
  if Z.of_nat (length palette) >? maxColours
  then (false, countRuns pb, palette)
  else (true, countRuns pb, palette).

#[global] Instance pixelCollaborators : Collaborators Pixels := {|
  preparePixelBuffer := fun rect pb _ _ => crop rect pb;
  getRect := bufferRect;
  analyseRect := analysePixels;
  writeRect := fun _ pb _ _ => concat pb;
  writeSolidRects := fun rects _ => ([], rects);
  get_rects := fun rects _ _ => rects;
  get_rects_perm := fun rects _ _ => Permutation_refl rects
|}.

(** A table of encoders: the two that compress into a long-lived zlib
    stream (Tight, ZRLE) are ordered, the others are not. *)
Definition stockEncoders (k : EncoderClass) : Encoder :=
  match k with
  | encoderRaw => mkEncoder 0 false false 4294967295
  | encoderRRE => mkEncoder 2 false false 2
  | encoderHextile => mkEncoder 5 false false 2
  | encoderTight => mkEncoder 7 false true 256
  | encoderTightJPEG => mkEncoder 7 true false 0
  | encoderZRLE => mkEncoder 16 false true 127
  end.

(** What [prepareEncoders] leaves for a peer that prefers ZRLE, has an
    8-bit pixel format and supports every encoding. *)
Definition zrleActive : EncoderType -> EncoderClass :=
  prepareEncoders preferZRLE (fun _ => true) 8 false.

(** A peer without LastRect, with fences and the extended clipboard. *)
Definition plainPeer : ConnParams :=
  mkConnParams false true true 520093697 (-1).

(** A peer with LastRect. *)
Definition lastRectPeer : ConnParams :=
  mkConnParams true true true 520093697 (-1).

(** A 2 x 1 frame of two different pixels. *)
Definition twoPixels : Pixels := [[0; 1]].

(** A 2 x 2 frame, and its two rows as work entries. *)
Definition checker : Pixels := [[0; 1]; [1; 0]].
Definition topRow : Sched.RectEntry Pixels := (rectXY 0 0 2 1, checker).
Definition bottomRow : Sched.RectEntry Pixels := (rectXY 0 1 2 2, checker).

(** A run of two workers: the driver queues the top row, then the bottom
    row; worker 0 takes the top row and worker 1 the bottom row; worker 1
    is done analysing first, so it owns the ZRLE queue and encodes the
    bottom row; worker 0 queues the top row behind it, and worker 1
    encodes that next. *)
Definition racingRun : list (Sched.Move Pixels) :=
  [Sched.MQueue topRow; Sched.MQueue bottomRow;
   Sched.MPop 0; Sched.MPop 1;
   Sched.MPrepared 1; Sched.MPrepared 0; Sched.MEncoded 1].

Definition racingState : Sched.State Pixels :=
  default (Sched.init 2)
    (Sched.run stockEncoders zrleActive plainPeer racingRun (Sched.init 2)).

End Concrete.

(** ** The reader before the extended clipboard *)

Module Legacy.

Import Wire Wire.Reader.

(** [MsgReader::readCutText] as it was before [readExtendedClipboard]
    was added: every length is a plain length. *)
Definition readCutText (maxCutText : Z) : M unit :=
  skip 3 ;;;
  len <- readU32 ;;
  if len >? usize maxCutText then skip len
  else
    str <- readBytes len ;;
    call (CutText str len).

End Legacy.

(** ** What the codec needs of the protocol's constants *)

Module Protocol.

Import Wire.

Section Consts.

Context `{K : ProtocolConsts}.

(** The actions that are dispatched on the value of the action field. *)
Definition actionBits : list Z :=
  [clipboardRequest; clipboardPeek; clipboardNotify; clipboardProvide].

(** The shape [clipboardTypes.h] gives the constants: the action mask
    keeps clear of the 16 format bits; [clipboardCaps] and the four
    actions are [U32] values inside the mask; the four actions differ
    from each other and share no bit with [clipboardCaps]. *)
Record wellFormed : Prop := mkWellFormed {
  mask_formats : Z.land clipboardActionMask 65535 = 0;
  caps_range : 0 < clipboardCaps < 2 ^ 32;
  caps_in_mask : Z.land clipboardCaps clipboardActionMask = clipboardCaps;
  actions_in_mask :
    Forall (fun b => 0 <= b < 2 ^ 32 /\
                     Z.land b clipboardActionMask = b /\
                     Z.land b clipboardCaps = 0) actionBits;
  actions_distinct : List.NoDup actionBits
}.

End Consts.

Arguments wellFormed K : clear implicits.

End Protocol.

(** ** Message framing: what a reader or writer does to its stream *)

Module Framing.

Import Wire.

(** A reader step that makes no handler call. *)
Definition silent {A} (m : Reader.M A) : Prop :=
  forall s, Reader.calls (snd (m s)) = Reader.calls s.

(** A reader that only takes bytes off the front of its input. *)
Definition consumes {A} (m : Reader.M A) : Prop :=
  forall s, exists taken,
    Reader.input s = taken ++ Reader.input (snd (m s)).

(** A reader that makes no handler call, or returns normally after
    exactly one. *)
Definition atMostOneCall (m : Reader.M unit) : Prop :=
  forall s,
    Reader.calls (snd (m s)) = Reader.calls s \/
    exists c, fst (m s) = inr tt /\
              Reader.calls (snd (m s)) = Reader.calls s ++ [c].

(** A writer that returns after appending bytes that do not depend on
    what is on the stream already. *)
Definition appends {A} (m : Writer.W A) : Prop :=
  exists a bytes, forall os, m os = (inr a, os ++ bytes).

(** A writer that throws with the stream as it found it. *)
Definition refuses {A} (m : Writer.W A) : Prop :=
  exists e, forall os, m os = (inl e, os).

Definition atomic {A} (m : Writer.W A) : Prop := refuses m \/ appends m.

End Framing.

(** ** Pixels of a rectangle *)

Module Cover.

(** Modelled from the spec: [Rect::contains(Point)] of [rfb/Rect.h], which
    is not part of the sources at hand.  The pixel [(x, y)] lies in the
    half-open rectangle [r]. *)
Definition inside (r : Rect) (x y : Z) : bool :=
  (px (tl r) <=? x) && (x <? px (br r)) &&
  (py (tl r) <=? y) && (y <? py (br r)).

(** How many rectangles of a list cover the pixel [(x, y)]. *)
Definition covers (rects : list Rect) (x y : Z) : nat :=
  length (List.filter (fun r => inside r x y) rects).

End Cover.

(** ** The solid-area search: [extendSolidAreaByBlock] and
       [extendSolidAreaByPixel] *)

Module Solid.

Definition SolidSearchBlock : Z := 16.
Definition SolidBlockMinArea : Z := 2048.

Section Search.

(** [checkSolidTile(r, colourValue, pb)] for the colour and the pixel
    buffer of one search; its code is in [EncodeManagerBPP.cxx], which is
    not part of the sources at hand. *)
Variable checkSolidTile : Rect -> bool.

(** The inner loop of [extendSolidAreaByBlock],
    [for (dx = r.tl.x + dw; dx < r.tl.x + w_prev;)]; it yields the value
    of [dx] when the loop is left. *)
Fixpoint blockXLoop (fuel : nat) (r : Rect) (w_prev dy dh dx : Z)
  : option Z :=
  if dx <? px (tl r) + w_prev then
    match fuel with
    | O => None
    | S f =>
        let dw := SolidSearchBlock in
        let dw :=
          if dx + dw >? px (tl r) + w_prev then px (tl r) + w_prev - dx
          else dw in
        if negb (checkSolidTile (setXYWH dx dy dw dh)) then Some dx
        else blockXLoop f r w_prev dy dh (dx + dw)
    end
  else Some dx.

(** The outer loop of [extendSolidAreaByBlock],
    [for (dy = r.tl.y; dy < r.br.y; dy += SolidSearchBlock)]; it yields
    [(w_best, h_best)]. *)
Fixpoint blockYLoop (fuel : nat) (r : Rect) (w_prev w_best h_best dy : Z)
  : option (Z * Z) :=
  if dy <? py (br r) then
    match fuel with
    | O => None
    | S f =>
        let dh := SolidSearchBlock in
        let dh := if dy + dh >? py (br r) then py (br r) - dy else dh in
        let dw := SolidSearchBlock in
        let dw := if dw >? w_prev then w_prev else dw in
        if negb (checkSolidTile (setXYWH (px (tl r)) dy dw dh))
        then Some (w_best, h_best)
        else
          match blockXLoop (Z.to_nat w_prev) r w_prev dy dh (px (tl r) + dw)
          with
          | Some dx =>
              let w_prev := dx - px (tl r) in
              let '(w_best, h_best) :=
                if w_prev * (dy + dh - py (tl r)) >? w_best * h_best
                then (w_prev, dy + dh - py (tl r))
                else (w_best, h_best) in
              blockYLoop f r w_prev w_best h_best (dy + SolidSearchBlock)
          | None => None
          end
    end
  else Some (w_best, h_best).

(** [EncodeManager::extendSolidAreaByBlock]: the rectangle stored in
    [*er]. *)
Definition extendSolidAreaByBlock (r : Rect) : option Rect :=
  match blockYLoop (Z.to_nat (height r)) r (width r) 0 0 (py (tl r)) with
  | Some (w_best, h_best) =>
      Some (rectXY (px (tl r)) (py (tl r)) (px (tl r) + w_best)
              (py (tl r) + h_best))
  | None => None
  end.

(** The loops of [extendSolidAreaByPixel] that count down,
    [for (c = start; c >= lo; c--)] with a [break] when the row or column
    [probe c] is not solid; the value of [c] when the loop is left. *)
Fixpoint scanDown (fuel : nat) (lo : Z) (probe : Z -> Rect) (c : Z)
  : option Z :=
  if c >=? lo then
    match fuel with
    | O => None
    | S f =>
        if negb (checkSolidTile (probe c)) then Some c
        else scanDown f lo probe (c - 1)
    end
  else Some c.

(** The loops that count up, [for (c = start; c < hi; c++)]. *)
Fixpoint scanUp (fuel : nat) (hi : Z) (probe : Z -> Rect) (c : Z)
  : option Z :=
  if c <? hi then
    match fuel with
    | O => None
    | S f =>
        if negb (checkSolidTile (probe c)) then Some c
        else scanUp f hi probe (c + 1)
    end
  else Some c.

(** [EncodeManager::extendSolidAreaByPixel]: the rectangle stored in
    [*er]. *)
Definition extendSolidAreaByPixel (r sr : Rect) : option Rect :=
  (* Try to extend the area upwards. *)
  match scanDown (Z.to_nat (py (tl sr) - py (tl r))) (py (tl r))
          (fun cy => setXYWH (px (tl sr)) cy (width sr) 1) (py (tl sr) - 1)
  with
  | None => None
  | Some cy =>
      let ety := cy + 1 in
      (* ... downwards. *)
      match scanUp (Z.to_nat (py (br r) - py (br sr))) (py (br r))
              (fun cy => setXYWH (px (tl sr)) cy (width sr) 1) (py (br sr))
      with
      | None => None
      | Some cy =>
          let eby := cy in
          (* ... to the left. *)
          match scanDown (Z.to_nat (px (tl sr) - px (tl r))) (px (tl r))
                  (fun cx => setXYWH cx ety 1 (eby - ety)) (px (tl sr) - 1)
          with
          | None => None
          | Some cx =>
              let etx := cx + 1 in
              (* ... to the right. *)
              match scanUp (Z.to_nat (px (br r) - px (br sr))) (px (br r))
                      (fun cx => setXYWH cx ety 1 (eby - ety)) (px (br sr))
              with
              | None => None
              | Some cx => Some (rectXY etx ety cx eby)
              end
          end
      end
  end.

End Search.

(** Every pixel of [r] has the colour searched for. *)
Definition allSolid (solid : Z -> Z -> bool) (r : Rect) : Prop :=
  forall x y, Cover.inside r x y = true -> solid x y = true.

(** [inner] lies within [outer]. *)
Definition within (inner outer : Rect) : Prop :=
  px (tl outer) <= px (tl inner) /\ py (tl outer) <= py (tl inner) /\
  px (br inner) <= px (br outer) /\ py (br inner) <= py (br outer).

End Solid.

(** ** A tile check that looks at every pixel *)

Module SolidCheck.

(** The pixels of a rectangle, row by row. *)
Definition tilePixels (r : Rect) : list (Z * Z) :=
  flat_map
    (fun j => map (fun i => (px (tl r) + Z.of_nat i, py (tl r) + Z.of_nat j))
                (seq 0 (Z.to_nat (width r))))
    (seq 0 (Z.to_nat (height r))).

(** Modelled from the spec: the per-BPP [checkSolidTile] of
    [EncodeManagerBPP.cxx] compares every pixel of the tile with the
    colour; [solid x y] says that the pixel at [(x, y)] has it. *)
Definition checkPixels (solid : Z -> Z -> bool) (r : Rect) : bool :=
  forallb (fun p => solid (fst p) (snd p)) (tilePixels r).

(** A frame whose pixels left of column 3 and above row 2 have the
    colour. *)
Definition corner (x y : Z) : bool := (x <? 3) && (y <? 2).

End SolidCheck.

(** ** Accounting for the entries in the worker pool *)

Module Progress.

Import EncodeManager Sched.

Section Measure.

Context {PB : Type}.

Definition allClasses : list EncoderClass :=
  [encoderRaw; encoderRRE; encoderHextile; encoderTight; encoderTightJPEG;
   encoderZRLE].

(** The entries on the encoder queues, the one being encoded by a
    queue's owner included: it stays at the front until it is done. *)
Definition queuedCount (queues : EncoderClass -> list (PreparedEntry PB))
  : nat :=
  list_sum (map (fun k => length (queues k)) allClasses).

Definition preparing (t : Thread PB) : bool :=
  match t with Preparing _ => true | _ => false end.

Definition encodingPlain (t : Thread PB) : bool :=
  match t with EncodingPlain _ => true | _ => false end.

(** A thread that has an entry in hand. *)
Definition busy (t : Thread PB) : bool :=
  match t with Waiting | Stopped => false | _ => true end.

(** The entries that have been queued and not yet written, wherever they
    are: on the work queue, in the hands of a thread, on an encoder
    queue or on the output queue. *)
Definition inFlight (s : State PB) : nat :=
  length (workQueue s) + length (List.filter preparing (threads s))
  + length (List.filter encodingPlain (threads s))
  + queuedCount (encoderQueue s) + length (outputQueue s).

(** The critical sections still to come for the entries in flight: four
    for an entry on the work queue (popped, analysed, encoded, written),
    down to one for an entry on the output queue. *)
Definition stepsLeft (s : State PB) : nat :=
  4 * length (workQueue s)
  + 3 * length (List.filter preparing (threads s))
  + 2 * (length (List.filter encodingPlain (threads s))
         + queuedCount (encoderQueue s))
  + length (outputQueue s).

(** The moves of the workers and of [flush], as opposed to queueing a
    new entry and stopping a thread. *)
Definition workerMove (m : Move PB) : bool :=
  match m with MQueue _ | MStop _ => false | _ => true end.

(** Some worker thread has not been stopped. *)
Definition live (s : State PB) : Prop :=
  exists i t, threads s !! i = Some t /\ t <> Stopped.

End Measure.

End Progress.

(** ** A run of a single worker *)

Module Solo.

Import Concrete.

(** The driver queues both rows of the frame; the only worker takes the
    top row through analysis and encoding, and then pops the bottom
    row. *)
Definition soloRun : list (Sched.Move Pixels) :=
  [Sched.MQueue topRow; Sched.MQueue bottomRow;
   Sched.MPop 0; Sched.MPrepared 0; Sched.MEncoded 0; Sched.MPop 0].

Definition soloState : Sched.State Pixels :=
  default (Sched.init 1)
    (Sched.run stockEncoders zrleActive plainPeer soloRun (Sched.init 1)).

(** What is left to do in [racingState]: worker 1 encodes the top row,
    and [flush] writes both outputs. *)
Definition finishRun : list (Sched.Move Pixels) :=
  [Sched.MEncoded 1; Sched.MFlush; Sched.MFlush].

End Solo.

(** ** One candidate of the solid-area search: [findSolidRect] *)

Module SolidRect.

Import Solid.

(** Modelled from the spec: [Rect::equals] of [rfb/Rect.h], which is not
    part of the sources at hand, compares the corners. *)
Definition equals (a b : Rect) : bool :=
  (px (tl a) =? px (tl b)) && (py (tl a) =? py (tl b)) &&
  (px (br a) =? px (br b)) && (py (br a) =? py (br b)).

Section Candidate.

Variable checkSolidTile : Rect -> bool.

(** The body of the two loops of [findSolidRect] for the block at
    [(dx, dy)], up to the rectangle [erp] that is sent as solid: the
    inner [None] stands for a block that is passed over (it is not
    solid, or the area found is too small, [continue]). *)
Definition solidAreaAt (rect : Rect) (dx dy : Z) : option (option Rect) :=
  let dh := SolidSearchBlock in
  let dh := if dy + dh >? py (br rect) then py (br rect) - dy else dh in
  let dw := SolidSearchBlock in
  let dw := if dx + dw >? px (br rect) then px (br rect) - dx else dw in
  if checkSolidTile (setXYWH dx dy dw dh) then
    (* We then try extending the area by adding more blocks *)
    match extendSolidAreaByBlock checkSolidTile
            (setXYWH dx dy (px (br rect) - dx) (py (br rect) - dy)) with
    | None => None
    | Some erb =>
        (* Did we end up getting the entire rectangle? *)
        if equals erb rect then Some (Some erb)
        (* Don't bother with sending tiny rectangles *)
        else if area erb <? SolidBlockMinArea then Some None
        else
          match extendSolidAreaByPixel checkSolidTile rect erb with
          | Some erp => Some (Some erp)
          | None => None
          end
    end
  else Some None.

End Candidate.

End SolidRect.

(** ** The splitting rule as the specification words it *)

Module SplitSpec.

Import Split.

(** A rectangle of width [w] and height [h] is kept as it is when
    [w * h < 65536] and [w < 2048]; otherwise it is tiled row by row
    into [ceil(w/sw) * ceil(h/sh)] sub-rectangles with
    [sw = min(w, 2048)] and [sh = 65536 / sw]. *)
Definition subRects (r : Rect) : list Rect :=
  let w := width r in
  let h := height r in
  if (w * h <? 65536) && (w <? 2048) then [r]
  else
    let sw := Z.min w 2048 in
    let sh := 65536 / sw in
    tiling r sw sh (Z.to_nat (ceilDiv w sw)) (Z.to_nat (ceilDiv h sh)).

End SplitSpec.

(** * Properties *)

(** ** Sub-rectangle splitting *)

Section SplitFacts.

Import Split.

Lemma ceilDiv_nonpos a b : 0 < b -> a <= 0 -> Z.to_nat (ceilDiv a b) = 0%nat.
Proof.
  intros Hb Ha. unfold ceilDiv.
  assert ((a + b - 1) / b <= 0); [|lia].
  assert ((a + b - 1) / b < 1); [|lia].
  apply Z.div_lt_upper_bound; lia.
Qed.

Lemma ceilDiv_step a b :
  0 < b -> 0 < a ->
  Z.to_nat (ceilDiv a b) = S (Z.to_nat (ceilDiv (a - b) b)).
Proof.
  intros Hb Ha. unfold ceilDiv.
  replace (a + b - 1) with ((a - b + b - 1) + 1 * b) by lia.
  rewrite Z.div_add by lia.
  destruct (Z_le_gt_dec a b) as [Hle|Hgt].
  - assert (Hz : (a - b + b - 1) / b = 0) by (apply Z.div_small; lia).
    rewrite Hz. reflexivity.
  - assert (0 <= (a - b + b - 1) / b) by (apply Z.div_pos; lia).
    lia.
Qed.

Lemma ceilDiv_pred a b :
  0 < b -> 0 < a -> ceilDiv a b = Z.quot (a - 1) b + 1.
Proof.
  intros Hb Ha. unfold ceilDiv.
  rewrite Z.quot_div_nonneg by lia.
  replace (a + b - 1) with ((a - 1) + 1 * b) by lia.
  rewrite Z.div_add by lia. reflexivity.
Qed.

Lemma ceilDiv_nonneg a b : 0 < b -> 0 <= a -> 0 <= ceilDiv a b.
Proof. intros. unfold ceilDiv. apply Z.div_pos; lia. Qed.

(** The inner loop yields one clipped tile per step of [sw]. *)
Lemma xLoop_tiles sw yt yb rbrx :
  0 < sw ->
  forall fuel x,
    rbrx - x <= Z.of_nat fuel ->
    xLoop fuel rbrx sw yt yb x =
    Some (map (fun j => rectXY (x + Z.of_nat j * sw) yt
                          (Z.min (x + Z.of_nat j * sw + sw) rbrx) yb)
            (seq 0 (Z.to_nat (ceilDiv (rbrx - x) sw)))).
Proof.
  intros Hsw. induction fuel as [|f IH]; intros x Hfuel; simpl.
  - destruct (Z.ltb_spec x rbrx); [lia|].
    rewrite ceilDiv_nonpos by lia. reflexivity.
  - destruct (Z.ltb_spec x rbrx) as [Hlt|Hge].
    + rewrite IH by lia.
      rewrite (ceilDiv_step (rbrx - x) sw) by lia.
      replace (rbrx - x - sw) with (rbrx - (x + sw)) by lia.
      simpl seq. rewrite <- seq_shift. simpl map. rewrite map_map.
      f_equal. f_equal.
      * change (Z.of_nat 0) with 0. rewrite Z.mul_0_l, Z.add_0_r.
        destruct (Z.gtb_spec (x + sw) rbrx);
          [rewrite Z.min_r by lia | rewrite Z.min_l by lia]; reflexivity.
      * apply map_ext. intros j.
        replace (x + sw + Z.of_nat j * sw) with (x + Z.of_nat (S j) * sw)
          by lia.
        reflexivity.
    + rewrite ceilDiv_nonpos by lia. reflexivity.
Qed.

(** The outer loop yields the rows, top to bottom. *)
Lemma yLoop_tiles r sw sh :
  0 < sw -> 0 < sh -> 0 <= width r ->
  forall fuel y,
    py (br r) - y <= Z.of_nat fuel ->
    yLoop fuel r sw sh y =
    Some (flat_map
            (fun i =>
               map (fun j => rectXY (px (tl r) + Z.of_nat j * sw)
                               (y + Z.of_nat i * sh)
                               (Z.min (px (tl r) + Z.of_nat j * sw + sw)
                                  (px (br r)))
                               (Z.min (y + Z.of_nat i * sh + sh) (py (br r))))
                 (seq 0 (Z.to_nat (ceilDiv (width r) sw))))
            (seq 0 (Z.to_nat (ceilDiv (py (br r) - y) sh)))).
Proof.
  intros Hsw Hsh Hw. induction fuel as [|f IH]; intros y Hfuel; simpl.
  - destruct (Z.ltb_spec y (py (br r))); [lia|].
    rewrite (ceilDiv_nonpos (py (br r) - y) sh) by lia. reflexivity.
  - destruct (Z.ltb_spec y (py (br r))) as [Hlt|Hge].
    + rewrite (xLoop_tiles sw) by (unfold width; lia).
      rewrite IH by lia.
      rewrite (ceilDiv_step (py (br r) - y) sh) by lia.
      replace (py (br r) - y - sh) with (py (br r) - (y + sh)) by lia.
      simpl seq. rewrite <- seq_shift. simpl flat_map.
      f_equal. f_equal.
      * fold (width r). apply map_ext. intros j.
        change (Z.of_nat 0) with 0. rewrite Z.mul_0_l, Z.add_0_r.
        destruct (Z.gtb_spec (y + sh) (py (br r)));
          [rewrite (Z.min_r (y + sh)) by lia
          |rewrite (Z.min_l (y + sh)) by lia]; reflexivity.
      * rewrite !flat_map_concat_map, map_map. f_equal.
        apply map_ext. intros i. apply map_ext. intros j.
        replace (y + sh + Z.of_nat i * sh) with (y + Z.of_nat (S i) * sh)
          by lia.
        reflexivity.
    + rewrite (ceilDiv_nonpos (py (br r) - y) sh) by lia. reflexivity.
Qed.

Lemma subWidth_min w : subWidth w = Z.min w SubRectMaxWidth.
Proof.
  unfold subWidth. destruct (Z.leb_spec w SubRectMaxWidth); lia.
Qed.

Lemma subHeight_div sw : 0 < sw -> subHeight sw = SubRectMaxArea / sw.
Proof.
  intros. unfold subHeight, SubRectMaxArea. apply Z.quot_div_nonneg; lia.
Qed.

Lemma subHeight_pos sw : 0 < sw <= SubRectMaxWidth -> 0 < subHeight sw.
Proof.
  intros [H1 H2]. rewrite subHeight_div by lia.
  unfold SubRectMaxArea, SubRectMaxWidth in *.
  apply Z.div_str_pos. lia.
Qed.

Lemma subHeight_area sw : 0 < sw -> sw * subHeight sw <= SubRectMaxArea.
Proof.
  intros. rewrite subHeight_div by lia.
  apply Z.mul_div_le. lia.
Qed.

Lemma noSplit_spec w h :
  noSplit w h = true <-> w * h < SubRectMaxArea /\ w < SubRectMaxWidth.
Proof.
  unfold noSplit. rewrite andb_true_iff, !Z.ltb_lt. reflexivity.
Qed.

(** A rectangle that is split and has a positive width is tiled. *)
Lemma splitRect_tiles r :
  noSplit (width r) (height r) = false -> 0 < width r ->
  splitRect r =
  Some (tiling r (subWidth (width r)) (subHeight (subWidth (width r)))
          (Z.to_nat (ceilDiv (width r) (subWidth (width r))))
          (Z.to_nat (ceilDiv (height r) (subHeight (subWidth (width r)))))).
Proof.
  intros Hns Hw. unfold splitRect. rewrite Hns.
  assert (Hsw : 0 < subWidth (width r) <= SubRectMaxWidth)
    by (rewrite subWidth_min; unfold SubRectMaxWidth; lia).
  pose proof (subHeight_pos _ Hsw) as Hsh.
  rewrite yLoop_tiles by (unfold height; lia).
  unfold tiling, tile, height. reflexivity.
Qed.

(** [writeRects] always gets through its loops. *)
Lemma splitRect_total r : exists q, splitRect r = Some q.
Proof.
  destruct (noSplit (width r) (height r)) eqn:Hns.
  - exists [r]. unfold splitRect. rewrite Hns. reflexivity.
  - destruct (Z_lt_le_dec 0 (width r)) as [Hw|Hw].
    + eexists. apply splitRect_tiles; assumption.
    + exists []. unfold splitRect. rewrite Hns.
      assert (Hh : height r <= 0).
      { destruct (Z_le_gt_dec (height r) 0) as [|Hh]; [assumption|].
        exfalso. assert (noSplit (width r) (height r) = true); [|congruence].
        apply noSplit_spec. unfold SubRectMaxArea, SubRectMaxWidth. nia. }
      unfold height in Hh.
      destruct (Z.to_nat _); simpl;
        (destruct (Z.ltb_spec (py (tl r)) (py (br r))); [lia|reflexivity]).
Qed.

Lemma queuedRects_total rects : exists q, queuedRects rects = Some q.
Proof.
  induction rects as [|r rs [qs IH]]; simpl.
  - eauto.
  - destruct (splitRect_total r) as [q ->]. rewrite IH. eauto.
Qed.

Lemma in_tiling sr r sw sh nx ny :
  In sr (tiling r sw sh nx ny) ->
  exists i j, (i < ny)%nat /\ (j < nx)%nat /\ sr = tile r sw sh i j.
Proof.
  unfold tiling. rewrite in_flat_map. intros (i & Hi & Hsr).
  apply in_map_iff in Hsr. destruct Hsr as (j & <- & Hj).
  apply in_seq in Hi. apply in_seq in Hj.
  exists i, j. repeat split; lia.
Qed.

Lemma length_tiling r sw sh nx ny :
  length (tiling r sw sh nx ny) = (ny * nx)%nat.
Proof.
  unfold tiling. generalize 0%nat at 2. induction ny as [|n IH]; intros s.
  - reflexivity.
  - simpl. rewrite length_app, length_map, length_seq, IH. reflexivity.
Qed.

(** A tile inside the grid is at most [sw] wide and [sh] high, and not
    empty. *)
Lemma tile_bounds r sw sh i j :
  0 < sw -> 0 < sh ->
  (j < Z.to_nat (ceilDiv (width r) sw))%nat ->
  (i < Z.to_nat (ceilDiv (height r) sh))%nat ->
  0 < width (tile r sw sh i j) <= sw /\
  0 < height (tile r sw sh i j) <= sh.
Proof.
  intros Hsw Hsh Hj Hi.
  assert (Hx : Z.of_nat j * sw < width r).
  { unfold ceilDiv in Hj.
    assert (Z.of_nat j < (width r + sw - 1) / sw) by lia.
    assert (Z.of_nat j + 1 <= (width r + sw - 1) / sw) by lia.
    assert (sw * (Z.of_nat j + 1) <= width r + sw - 1).
    { etransitivity; [|apply (Z.mul_div_le (width r + sw - 1) sw); lia].
      apply Z.mul_le_mono_nonneg_l; lia. }
    lia. }
  assert (Hy : Z.of_nat i * sh < height r).
  { unfold ceilDiv in Hi.
    assert (Z.of_nat i + 1 <= (height r + sh - 1) / sh) by lia.
    assert (sh * (Z.of_nat i + 1) <= height r + sh - 1).
    { etransitivity; [|apply (Z.mul_div_le (height r + sh - 1) sh); lia].
      apply Z.mul_le_mono_nonneg_l; lia. }
    lia. }
  unfold tile, width, height in *. simpl. lia.
Qed.

Lemma splitRect_bounds r q :
  splitRect r = Some q ->
  Forall (fun sr => area sr <= SubRectMaxArea /\ width sr <= SubRectMaxWidth) q.
Proof.
  intros Hq.
  destruct (noSplit (width r) (height r)) eqn:Hns.
  - unfold splitRect in Hq. rewrite Hns in Hq. injection Hq as <-.
    apply noSplit_spec in Hns. repeat constructor; unfold area; lia.
  - destruct (Z_lt_le_dec 0 (width r)) as [Hw|Hw].
    + rewrite splitRect_tiles in Hq by assumption. injection Hq as <-.
      assert (Hsw : 0 < subWidth (width r) <= SubRectMaxWidth)
        by (rewrite subWidth_min; unfold SubRectMaxWidth; lia).
      pose proof (subHeight_pos _ Hsw) as Hsh.
      pose proof (subHeight_area (subWidth (width r)) (proj1 Hsw)) as Ha.
      apply List.Forall_forall. intros sr Hin.
      apply in_tiling in Hin. destruct Hin as (i & j & Hi & Hj & ->).
      destruct (tile_bounds r _ _ i j (proj1 Hsw) Hsh Hj Hi) as [Hwb Hhb].
      unfold area. split; [nia|lia].
    + unfold splitRect in Hq. rewrite Hns in Hq.
      assert (Hh : height r <= 0).
      { destruct (Z_le_gt_dec (height r) 0) as [|Hh]; [assumption|].
        exfalso. assert (noSplit (width r) (height r) = true); [|congruence].
        apply noSplit_spec. unfold SubRectMaxArea, SubRectMaxWidth. nia. }
      unfold height in Hh.
      destruct (Z.to_nat _); simpl in Hq;
        (destruct (Z.ltb_spec (py (tl r)) (py (br r))); [lia|]);
        injection Hq as <-; constructor.
Qed.

(** C2, as the code has it: every sub-rectangle that [writeRects] queues
    has an area of at most [SubRectMaxArea] (65536) and a width of at most
    [SubRectMaxWidth] (2048); and [writeRects] queues its sub-rectangles
    whatever the region is. *)
Theorem queuedRects_within_limits (rects : list Rect) :
  exists q,
    Split.queuedRects rects = Some q /\
    Forall (fun sr => area sr <= Split.SubRectMaxArea /\
                      width sr <= Split.SubRectMaxWidth) q.
Proof.
  induction rects as [|r rs (qs & Hqs & IH)]; simpl.
  - exists []. split; [reflexivity|constructor].
  - destruct (splitRect_total r) as [q Hq]. rewrite Hq, Hqs.
    exists (q ++ qs). split; [reflexivity|].
    apply Forall_app. split; [|assumption].
    eapply splitRect_bounds; eassumption.
Qed.

(** C2, as stated, fails: a 2048 x 32 rectangle is queued as one
    sub-rectangle of width 2048 and area 65536. *)
Lemma queuedRects_limits_reached :
  Split.queuedRects [rectXY 0 0 2048 32] = Some [rectXY 0 0 2048 32] /\
  ~ (area (rectXY 0 0 2048 32) < Split.SubRectMaxArea) /\
  ~ (width (rectXY 0 0 2048 32) < Split.SubRectMaxWidth).
Proof.
  split; [vm_compute; reflexivity|].
  split; vm_compute; intros H; discriminate H.
Qed.

End SplitFacts.

(** ** The shape of what [writeRects] queues *)

Section WriteRectsShape.

Import Split SplitSpec EncodeManager.

Context {PB : Type} `{Co : Collaborators PB}.

Variable encoders : EncoderClass -> Encoder.
Variable activeEncoders : EncoderType -> EncoderClass.
Variable cp : ConnParams.

(** The loops of [writeRects] follow the rule of the specification. *)
Lemma splitRect_subRects r : valid r -> splitRect r = Some (subRects r).
Proof.
  intros [Hw Hh]. unfold subRects.
  change ((width r * height r <? 65536) && (width r <? 2048))
    with (noSplit (width r) (height r)).
  destruct (noSplit (width r) (height r)) eqn:Hns.
  - unfold splitRect. rewrite Hns. reflexivity.
  - assert (Hpos : 0 < width r).
    { destruct (Z_lt_le_dec 0 (width r)); [assumption|].
      exfalso. assert (noSplit (width r) (height r) = true); [|congruence].
      apply noSplit_spec. unfold SubRectMaxArea, SubRectMaxWidth.
      assert (width r = 0) as -> by lia. lia. }
    rewrite splitRect_tiles by assumption.
    rewrite subWidth_min, subHeight_div
      by (unfold SubRectMaxWidth; lia).
    reflexivity.
Qed.

Lemma queuedRects_subRects rects :
  Forall valid rects -> queuedRects rects = Some (flat_map subRects rects).
Proof.
  induction 1 as [|r rs Hr Hrs IH]; simpl; [reflexivity|].
  rewrite (splitRect_subRects r Hr), IH. reflexivity.
Qed.

Lemma ceilDiv_one a b : 0 < a <= b -> ceilDiv a b = 1.
Proof.
  intros H. unfold ceilDiv. symmetry.
  apply Z.div_unique with (a - 1); lia.
Qed.

(** A rectangle with pixels in it is queued as it is, alone, exactly
    when it is within both limits: also when it reaches them. *)
Lemma splitRect_intact r :
  nonempty r ->
  splitRect r = Some [r] <-> width r * height r <= 65536 /\ width r <= 2048.
Proof.
  intros [Hw Hh].
  assert (Hsw : 0 < subWidth (width r) <= SubRectMaxWidth)
    by (rewrite subWidth_min; unfold SubRectMaxWidth; lia).
  pose proof (subHeight_pos _ Hsw) as Hsh.
  destruct (noSplit (width r) (height r)) eqn:Hns.
  - apply noSplit_spec in Hns as Hc. unfold SubRectMaxArea, SubRectMaxWidth in Hc.
    split; [intros _; lia|intros _].
    unfold splitRect. rewrite Hns. reflexivity.
  - rewrite splitRect_tiles by assumption. split.
    + intros Hq. injection Hq as Hq.
      assert (Hin : In r (tiling r (subWidth (width r))
                            (subHeight (subWidth (width r)))
                            (Z.to_nat (ceilDiv (width r) (subWidth (width r))))
                            (Z.to_nat (ceilDiv (height r)
                                         (subHeight (subWidth (width r)))))))
        by (rewrite Hq; left; reflexivity).
      apply in_tiling in Hin. destruct Hin as (i & j & Hi & Hj & Hr).
      destruct (tile_bounds r (subWidth (width r))
                  (subHeight (subWidth (width r))) i j) as [Hbw Hbh];
        try lia.
      rewrite <- Hr in Hbw, Hbh.
      rewrite subWidth_min in Hbw. unfold SubRectMaxWidth in Hbw.
      assert (Hw' : width r <= 2048) by lia.
      split; [|exact Hw'].
      rewrite subWidth_min in Hbh. unfold SubRectMaxWidth in Hbh.
      rewrite Z.min_l in Hbh by lia.
      pose proof (subHeight_area (width r) Hw) as Ha.
      unfold SubRectMaxArea in Ha. nia.
    + intros [Ha Hw'].
      assert (Hsub : subWidth (width r) = width r)
        by (rewrite subWidth_min; unfold SubRectMaxWidth; lia).
      rewrite Hsub in *.
      assert (Hh' : height r <= subHeight (width r)).
      { rewrite subHeight_div by lia. unfold SubRectMaxArea.
        apply Z.div_le_lower_bound; lia. }
      rewrite (ceilDiv_one (width r) (width r)) by lia.
      rewrite (ceilDiv_one (height r) (subHeight (width r))) by lia.
      unfold tiling, tile, width, height in *. simpl.
      destruct r as [[x1 y1] [x2 y2]]. simpl in *.
      unfold rectXY. repeat f_equal; lia.
Qed.

(** C3, as the code has it: a rectangle with [w * h < 65536] and
    [w < 2048] is queued as it is; any other rectangle is tiled row by
    row into [ceil(w/sw) * ceil(h/sh)] sub-rectangles with
    [sw = min(w, 2048)] and [sh = 65536 / sw], and [writeRects] queues
    the pieces of the rectangles of the region one rectangle after the
    other and has them written; a rectangle with pixels in it comes out
    as it is exactly when [w * h <= 65536] and [w <= 2048], the limits
    included; a 4096 x 1024 rectangle gives [sw = 2048], [sh = 32] and
    64 sub-rectangles. *)
Theorem writeRects_shape (rects : list Rect) (pb : PB) :
  Forall valid rects ->
  Split.queuedRects rects = Some (flat_map SplitSpec.subRects rects) /\
  EncodeManager.writeRects encoders activeEncoders cp rects pb
  = Some (EncodeManager.flush encoders activeEncoders cp
            (map (fun r => (r, pb))
               (flat_map SplitSpec.subRects (get_rects rects true true)))) /\
  (forall r,
     width r * height r < 65536 /\ width r < 2048 ->
     SplitSpec.subRects r = [r]) /\
  (forall r,
     valid r ->
     ~ (width r * height r < 65536 /\ width r < 2048) ->
     Z.of_nat (length (SplitSpec.subRects r))
     = Split.ceilDiv (width r) (Z.min (width r) 2048)
       * Split.ceilDiv (height r) (65536 / Z.min (width r) 2048)) /\
  (forall r,
     nonempty r ->
     Split.splitRect r = Some [r] <->
     width r * height r <= 65536 /\ width r <= 2048) /\
  (SplitSpec.subRects (rectXY 0 0 4096 1024)
   = Split.tiling (rectXY 0 0 4096 1024) 2048 32 2 32 /\
   length (SplitSpec.subRects (rectXY 0 0 4096 1024)) = 64%nat).
Proof.
  intros Hvalid. split; [apply queuedRects_subRects; exact Hvalid|].
  split.
  { unfold writeRects. rewrite queuedRects_subRects; [reflexivity|].
    rewrite List.Forall_forall in *. intros r Hr. apply Hvalid.
    eapply Permutation_in; [apply get_rects_perm|exact Hr]. }
  split.
  { intros r Hc. unfold subRects.
    assert (Hns : noSplit (width r) (height r) = true)
      by (apply noSplit_spec; exact Hc).
    unfold noSplit, SubRectMaxArea, SubRectMaxWidth in Hns.
    rewrite Hns. reflexivity. }
  split.
  { intros r [Hw Hh] Hc. unfold subRects.
    assert (Hns : noSplit (width r) (height r) = false).
    { destruct (noSplit (width r) (height r)) eqn:E; [|reflexivity].
      apply noSplit_spec in E. contradiction. }
    unfold noSplit, SubRectMaxArea, SubRectMaxWidth in Hns.
    rewrite Hns, length_tiling.
    assert (Hpos : 0 < width r).
    { destruct (Z_lt_le_dec 0 (width r)); [assumption|].
      exfalso. apply Hc. assert (width r = 0) as -> by lia. lia. }
    assert (Hsh : 0 < 65536 / Z.min (width r) 2048)
      by (apply Z.div_str_pos; lia).
    pose proof (ceilDiv_nonneg (width r) (Z.min (width r) 2048)
                  ltac:(lia) ltac:(lia)).
    pose proof (ceilDiv_nonneg (height r) (65536 / Z.min (width r) 2048)
                  ltac:(lia) ltac:(lia)).
    lia. }
  split; [exact splitRect_intact|].
  split; vm_compute; reflexivity.
Qed.

End WriteRectsShape.

(** [writeRects_shape] at the 4096 x 1024 rectangle, for a frame of
    pixel rows. *)
Lemma writeRects_shape_witness :
  Split.queuedRects [rectXY 0 0 4096 1024]
  = Some (Split.tiling (rectXY 0 0 4096 1024) 2048 32 2 32).
Proof.
  destruct (writeRects_shape Concrete.stockEncoders Concrete.zrleActive
              Concrete.plainPeer [rectXY 0 0 4096 1024] Concrete.checker)
    as (Hq & _ & _ & _ & _ & Hshape & _).
  - repeat constructor; unfold width, height; simpl; lia.
  - rewrite Hq.
    change (flat_map SplitSpec.subRects [rectXY 0 0 4096 1024])
      with (SplitSpec.subRects (rectXY 0 0 4096 1024) ++ []).
    rewrite app_nil_r, Hshape. reflexivity.
Defined.

(** C3, as stated, fails in its "only if" half: a 256 x 256 rectangle
    and a 2048 x 32 rectangle are at the limits, so the test
    [w * h < 65536 && w < 2048] sends them to the tiling loops, and
    these queue the rectangle itself, once: it is kept intact. *)
Lemma writeRects_intact_at_the_limits :
  ~ (width (rectXY 0 0 256 256) * height (rectXY 0 0 256 256) < 65536 /\
     width (rectXY 0 0 256 256) < 2048) /\
  Split.queuedRects [rectXY 0 0 256 256] = Some [rectXY 0 0 256 256] /\
  ~ (width (rectXY 0 0 2048 32) * height (rectXY 0 0 2048 32) < 65536 /\
     width (rectXY 0 0 2048 32) < 2048) /\
  Split.queuedRects [rectXY 0 0 2048 32] = Some [rectXY 0 0 2048 32].
Proof.
  split; [unfold width, height; simpl; lia|].
  split; [vm_compute; reflexivity|].
  split; [unfold width, height; simpl; lia|].
  vm_compute. reflexivity.
Qed.


(** ** The rectangle analyser *)

Section AnalyserFacts.

Import EncodeManager Concrete.

Context {PB : Type} `{Co : Collaborators PB}.

Variable encoders : EncoderClass -> Encoder.
Variable activeEncoders : EncoderType -> EncoderClass.
Variable cp : ConnParams.

(** The type [prepareRect] picks, from what the analysis returned. *)
Lemma prepareRect_type rect pb ok rleRuns colours :
  analyseRect (preparePixelBuffer rect pb cp true)
    (s32 (paletteBudget encoders activeEncoders cp rect))
  = (ok, rleRuns, colours) ->
  prep_type (prepareRect encoders activeEncoders cp rect pb) =
  chooseType (length (if ok then colours else []))
    (useRLE rleRuns rect).
Proof.
  intros Ha. unfold prepareRect. rewrite Ha. reflexivity.
Qed.

(** With two or more colours in the palette, the RLE variant is picked
    exactly when [rleRuns <= 2 * area]: the factor is on the area. *)
Lemma chooseType_rle n rleRuns rect :
  (2 <= n)%nat ->
  (chooseType n (useRLE rleRuns rect) = encoderBitmapRLE \/
   chooseType n (useRLE rleRuns rect) = encoderIndexedRLE)
  <-> rleRuns <= area rect * 2.
Proof.
  intros Hn. unfold useRLE.
  destruct (Z.leb_spec rleRuns (area rect * 2)) as [Hle|Hgt];
    (do 3 (destruct n as [|n]; [try lia|])); simpl;
    split; intros Hx; try lia; try tauto;
    destruct Hx; discriminate.
Qed.

(** A run count that does not exceed the number of pixels always gets the
    RLE variant. *)
Lemma useRLE_when_runs_le_area rleRuns rect :
  0 <= rleRuns <= area rect -> useRLE rleRuns rect = true.
Proof. intros. unfold useRLE. apply Z.leb_le. lia. Qed.

End AnalyserFacts.

(** C1 fails on the code: for a 2 x 1 rectangle of two different pixels
    the analysis finds a palette of 2 colours and 2 runs, so
    [rleRuns * 2 <= area] does not hold, and [prepareRect] still picks
    the RLE variant, because it tests [rleRuns <= area * 2]. *)
Theorem prepareRect_two_pixels_picks_rle :
  let rect := rectXY 0 0 2 1 in
  EncodeManager.analyseRect
    (EncodeManager.preparePixelBuffer rect Concrete.twoPixels
       Concrete.plainPeer true)
    (s32 (EncodeManager.paletteBudget Concrete.stockEncoders
            Concrete.zrleActive Concrete.plainPeer rect))
  = (true, 2, [0; 1]) /\
  ~ (2 * 2 <= area rect) /\
  EncodeManager.prep_type
    (EncodeManager.prepareRect Concrete.stockEncoders Concrete.zrleActive
       Concrete.plainPeer rect Concrete.twoPixels)
  = encoderBitmapRLE.
Proof.
  split; [vm_compute; reflexivity|].
  split; [vm_compute; intros H; apply H; reflexivity|].
  vm_compute. reflexivity.
Qed.

(** ** The update writer *)

Section UpdateFacts.

Import Split EncodeManager.

Context {PB : Type} `{Co : Collaborators PB}.

Variable encoders : EncoderClass -> Encoder.
Variable activeEncoders : EncoderType -> EncoderClass.
Variable cp : ConnParams.

(** For a rectangle with pixels in it, [computeNumRects] counts what
    [writeRects] queues. *)
Lemma numRects1_queued r q :
  nonempty r -> splitRect r = Some q -> numRects1 r = Z.of_nat (length q).
Proof.
  intros [Hw Hh] Hq. unfold numRects1.
  destruct (noSplit (width r) (height r)) eqn:Hns.
  - unfold splitRect in Hq. rewrite Hns in Hq. injection Hq as <-.
    reflexivity.
  - rewrite splitRect_tiles in Hq by assumption. injection Hq as <-.
    assert (Hsw : 0 < subWidth (width r) <= SubRectMaxWidth)
      by (rewrite subWidth_min; unfold SubRectMaxWidth; lia).
    pose proof (subHeight_pos _ Hsw) as Hsh.
    rewrite length_tiling.
    rewrite <- !ceilDiv_pred by lia.
    pose proof (ceilDiv_nonneg (width r) (subWidth (width r))
                  (proj1 Hsw) ltac:(lia)).
    pose proof (ceilDiv_nonneg (height r) (subHeight (subWidth (width r)))
                  Hsh ltac:(lia)).
    lia.
Qed.

Lemma computeNumRects_from acc rects :
  fold_left (fun numRects r => numRects + numRects1 r) rects acc =
  acc + computeNumRects rects.
Proof.
  unfold computeNumRects. revert acc.
  induction rects as [|r rs IH]; intros acc; simpl.
  - lia.
  - rewrite IH, (IH (0 + numRects1 r)). lia.
Qed.

Lemma computeNumRects_queued rects q :
  Forall nonempty rects -> queuedRects rects = Some q ->
  computeNumRects rects = Z.of_nat (length q).
Proof.
  intros Hne. revert q. induction Hne as [|r rs Hr Hrs IH]; intros q Hq.
  - injection Hq as <-. reflexivity.
  - simpl in Hq.
    destruct (splitRect r) as [q1|] eqn:H1; [|discriminate].
    destruct (queuedRects rs) as [q2|] eqn:H2; [|discriminate].
    injection Hq as <-.
    unfold computeNumRects. simpl. rewrite computeNumRects_from.
    rewrite (numRects1_queued r q1), (IH q2), length_app by auto.
    lia.
Qed.

Lemma countEvents_app p (a b : list WriterEvent) :
  countEvents p (a ++ b) = countEvents p a + countEvents p b.
Proof.
  unfold countEvents. rewrite filter_app, length_app. lia.
Qed.

Lemma flush_cons e (wq : list (Rect * PB)) :
  flush encoders activeEncoders cp (e :: wq) =
  writeOutput encoders activeEncoders
    (encodeRect activeEncoders cp
       (prepareRect encoders activeEncoders cp (fst e) (snd e)))
  ++ flush encoders activeEncoders cp wq.
Proof. reflexivity. Qed.

Lemma countEvents_flush_start (wq : list (Rect * PB)) :
  countEvents isStartRect (flush encoders activeEncoders cp wq)
  = Z.of_nat (length wq).
Proof.
  induction wq as [|e wq IH]; [reflexivity|].
  rewrite flush_cons, countEvents_app, IH.
  unfold countEvents. simpl. lia.
Qed.

Lemma countEvents_flush_end (wq : list (Rect * PB)) :
  countEvents isEndRect (flush encoders activeEncoders cp wq)
  = Z.of_nat (length wq).
Proof.
  induction wq as [|e wq IH]; [reflexivity|].
  rewrite flush_cons, countEvents_app, IH.
  unfold countEvents. simpl. lia.
Qed.

Lemma countEvents_flush_copy (wq : list (Rect * PB)) :
  countEvents isCopyRect (flush encoders activeEncoders cp wq) = 0.
Proof.
  induction wq as [|e wq IH]; [reflexivity|].
  rewrite flush_cons, countEvents_app, IH.
  reflexivity.
Qed.

Lemma countEvents_copyRects ui :
  countEvents isCopyRect (writeCopyRects ui) = Z.of_nat (length (copied ui)) /\
  countEvents isStartRect (writeCopyRects ui) = 0 /\
  countEvents isEndRect (writeCopyRects ui) = 0.
Proof.
  unfold writeCopyRects.
  rewrite <- (Permutation_length
                (get_rects_perm (copied ui) (px (copy_delta ui) <=? 0)
                   (py (copy_delta ui) <=? 0))).
  induction (get_rects _ _ _) as [|r rs (IH1 & IH2 & IH3)];
    [repeat split|].
  unfold countEvents in *. simpl. repeat split; lia.
Qed.

(** C4: [writeUpdate] always writes a header and a frame.  For a peer
    without LastRect the count in the header is the number of CopyRect
    rectangles of [ui.copied], plus [computeNumRects(ui.changed)], plus
    one for a cursor, and it is the number of rectangles in the frame:
    the CopyRect records plus the [startRect]/[endRect] pairs.  For a
    peer with LastRect the header carries 0xFFFF.  The rectangles of a
    region have pixels in them. *)
Theorem writeUpdate_header_count (ui : EncodeManager.UpdateInfo) (pb : PB)
    (renderedCursor : option (Rect * PB)) :
  Forall nonempty (EncodeManager.changed ui) ->
  exists nRects frame,
    EncodeManager.writeUpdate encoders activeEncoders cp ui pb renderedCursor
      = Some (EncodeManager.FramebufferUpdateStart nRects :: frame) /\
    (supportsLastRect cp = false ->
       nRects = Z.of_nat (length (EncodeManager.copied ui))
                + Split.computeNumRects
                    (EncodeManager.get_rects (EncodeManager.changed ui)
                       true true)
                + match renderedCursor with Some _ => 1 | None => 0 end /\
       EncodeManager.countEvents EncodeManager.isCopyRect frame
         = Z.of_nat (length (EncodeManager.copied ui)) /\
       EncodeManager.countEvents EncodeManager.isStartRect frame
         = EncodeManager.countEvents EncodeManager.isEndRect frame /\
       nRects = EncodeManager.countEvents EncodeManager.isCopyRect frame
                + EncodeManager.countEvents EncodeManager.isStartRect frame) /\
    (supportsLastRect cp = true -> nRects = 65535).
Proof.
  intros Hne. unfold writeUpdate.
  destruct (supportsLastRect cp) eqn:Hlast.
  - destruct (writeSolidRects (changed ui) pb) as [solid changed'].
    unfold writeRects.
    destruct (queuedRects_total (get_rects changed' true true)) as [q ->].
    eexists _, _. split; [reflexivity|].
    split; [discriminate|reflexivity].
  - unfold writeRects.
    destruct (queuedRects_total (get_rects (changed ui) true true))
      as [q Hq].
    rewrite Hq.
    eexists _, _. split; [reflexivity|].
    split; [|discriminate]. intros _.
    assert (Hn : computeNumRects (get_rects (changed ui) true true)
                 = Z.of_nat (length q)).
    { apply computeNumRects_queued; [|assumption].
      eapply Permutation_Forall; [|exact Hne].
      symmetry. apply get_rects_perm. }
    destruct (countEvents_copyRects ui) as (Hc1 & Hc2 & Hc3).
    pose proof (countEvents_flush_start (map (fun r => (r, pb)) q)) as Hs.
    pose proof (countEvents_flush_end (map (fun r => (r, pb)) q)) as He.
    pose proof (countEvents_flush_copy (map (fun r => (r, pb)) q)) as Hf.
    rewrite length_map in Hs, He.
    simpl flat_map. rewrite !countEvents_app.
    rewrite Hc1, Hc2, Hc3, Hs, He, Hf, Hn.
    destruct renderedCursor as [[r cpb]|].
    + pose proof (countEvents_flush_start [(r, cpb)]) as Hs1.
      pose proof (countEvents_flush_end [(r, cpb)]) as He1.
      pose proof (countEvents_flush_copy [(r, cpb)]) as Hf1.
      rewrite Hs1, He1, Hf1. unfold countEvents. simpl. lia.
    + unfold countEvents. simpl. lia.
Qed.

End UpdateFacts.

(** [writeUpdate_header_count] on a frame with one copied rectangle, a
    4096 x 1024 changed rectangle and a cursor: 1 + 64 + 1 rectangles. *)
Lemma writeUpdate_header_count_witness :
  exists frame,
    EncodeManager.writeUpdate Concrete.stockEncoders Concrete.zrleActive
      Concrete.plainPeer
      (EncodeManager.mkUpdateInfo [rectXY 0 0 4096 1024]
         [rectXY 10 10 60 60] (mkPoint 10 0))
      [] (Some (rectXY 0 0 2 1, Concrete.twoPixels))
    = Some (EncodeManager.FramebufferUpdateStart 66 :: frame).
Proof.
  destruct (writeUpdate_header_count Concrete.stockEncoders
              Concrete.zrleActive Concrete.plainPeer
              (EncodeManager.mkUpdateInfo [rectXY 0 0 4096 1024]
                 [rectXY 10 10 60 60] (mkPoint 10 0))
              [] (Some (rectXY 0 0 2 1, Concrete.twoPixels)))
    as (n & frame & Hrun & Hplain & _).
  - repeat constructor.
  - destruct (Hplain eq_refl) as (Hn & _).
    exists frame. rewrite Hrun. rewrite Hn. reflexivity.
Defined.

(** ** The wire codec *)

Section BitFacts.

Import Wire.

Lemma testbit_byte v k n :
  0 <= k -> 0 <= n ->
  Z.testbit (Z.shiftr v k mod 256) n = (n <? 8) && Z.testbit v (n + k).
Proof.
  intros Hk Hn. change 256 with (2 ^ 8).
  rewrite Z.testbit_mod_pow2 by lia.
  rewrite Z.shiftr_spec by lia. reflexivity.
Qed.

(** Reading back the four bytes of a [U32]. *)
Lemma decode_encodeU32 v :
  0 <= v < 2 ^ 32 ->
  Z.lor (Z.lor (Z.lor (Z.shiftl (Z.shiftr v 24 mod 256) 24)
                  (Z.shiftl (Z.shiftr v 16 mod 256) 16))
           (Z.shiftl (Z.shiftr v 8 mod 256) 8)) (v mod 256) = v.
Proof.
  intros Hv. apply Z.bits_inj'. intros n Hn.
  rewrite !Z.lor_spec, !Z.shiftl_spec by lia.
  replace (v mod 256) with (Z.shiftr v 0 mod 256)
    by (rewrite Z.shiftr_0_r; reflexivity).
  destruct (Z_lt_le_dec n 8) as [H8|H8].
  { rewrite (Z.testbit_neg_r _ (n - 24)), (Z.testbit_neg_r _ (n - 16)),
      (Z.testbit_neg_r _ (n - 8)) by lia.
    rewrite testbit_byte by lia.
    destruct (Z.ltb_spec n 8); [|lia]. simpl. f_equal. lia. }
  destruct (Z_lt_le_dec n 16) as [H16|H16].
  { rewrite (Z.testbit_neg_r _ (n - 24)), (Z.testbit_neg_r _ (n - 16)) by lia.
    rewrite !testbit_byte by lia.
    destruct (Z.ltb_spec (n - 8) 8); [|lia].
    destruct (Z.ltb_spec n 8); [lia|]. simpl.
    rewrite orb_false_r. f_equal. lia. }
  destruct (Z_lt_le_dec n 24) as [H24|H24].
  { rewrite (Z.testbit_neg_r _ (n - 24)) by lia.
    rewrite !testbit_byte by lia.
    destruct (Z.ltb_spec (n - 16) 8); [|lia].
    destruct (Z.ltb_spec (n - 8) 8); [lia|].
    destruct (Z.ltb_spec n 8); [lia|]. simpl.
    rewrite !orb_false_r. f_equal. lia. }
  rewrite !testbit_byte by lia.
  destruct (Z.ltb_spec (n - 16) 8); [lia|].
  destruct (Z.ltb_spec (n - 8) 8); [lia|].
  destruct (Z.ltb_spec n 8); [lia|]. simpl.
  rewrite !orb_false_r.
  destruct (Z.ltb_spec (n - 24) 8) as [Hlt|Hge]; simpl.
  - f_equal. lia.
  - symmetry. apply Z.bits_above_log2; [lia|].
    destruct (Z.eq_dec v 0) as [->|Hnz]; [simpl; lia|].
    assert (Z.log2 v < 32) by (apply Z.log2_lt_pow2; lia). lia.
Qed.

Lemma u32_small v : 0 <= v < 2 ^ 32 -> u32 v = v.
Proof. intros. unfold u32. apply Z.mod_small. assumption. Qed.


Lemma length_encodeU32 v : length (encodeU32 v) = 4%nat.
Proof. reflexivity. Qed.

(** [flags & (1 << i)] tests bit [i]. *)
Lemma bitSet_testbit flags i : 0 <= i -> bitSet flags i = Z.testbit flags i.
Proof.
  intros Hi. unfold bitSet.
  rewrite Z.shiftl_1_l.
  destruct (Z.testbit flags i) eqn:Hb.
  - destruct (Z.eqb_spec (Z.land flags (2 ^ i)) 0) as [Hz|]; [|reflexivity].
    exfalso.
    assert (Ht : Z.testbit (Z.land flags (2 ^ i)) i = false)
      by (rewrite Hz; apply Z.bits_0).
    rewrite Z.land_spec, Hb, Z.pow2_bits_true in Ht by lia. discriminate.
  - destruct (Z.eqb_spec (Z.land flags (2 ^ i)) 0) as [|Hnz]; [reflexivity|].
    exfalso. apply Hnz. apply Z.bits_inj'. intros n Hn.
    rewrite Z.land_spec, Z.bits_0.
    destruct (Z.eq_dec n i) as [->|Hne].
    + rewrite Hb. reflexivity.
    + rewrite Z.pow2_bits_false by lia. apply andb_false_r.
Qed.

(** [flags &= ~(1 << j)] clears bit [j] of a [U32] and nothing else. *)
Lemma clearBit_testbit flags j i :
  0 <= j -> 0 <= i < 32 ->
  Z.testbit (clearBit flags j) i = Z.testbit flags i && negb (i =? j).
Proof.
  intros Hj Hi. unfold clearBit, u32.
  rewrite Z.land_spec, Z.testbit_mod_pow2 by lia.
  destruct (Z.ltb_spec i 32); [|lia]. simpl.
  rewrite Z.lnot_spec, Z.shiftl_1_l by lia.
  destruct (Z.eqb_spec i j) as [->|Hne].
  - rewrite Z.pow2_bits_true by lia. reflexivity.
  - rewrite Z.pow2_bits_false by lia. reflexivity.
Qed.

Lemma clearBit_range flags j : 0 <= clearBit flags j < 2 ^ 32.
Proof.
  unfold clearBit, u32.
  assert (H : 0 <= Z.lnot (Z.shiftl 1 j) mod 2 ^ 32 < 2 ^ 32)
    by (apply Z.mod_pos_bound; lia).
  split.
  - apply Z.land_nonneg. right. lia.
  - destruct (Z.eq_dec (Z.lnot (Z.shiftl 1 j) mod 2 ^ 32) 0) as [E|E].
    + rewrite E, Z.land_0_r. lia.
    + assert (Hl : Z.land flags (Z.lnot (Z.shiftl 1 j) mod 2 ^ 32)
                   = Z.land (Z.land flags (Z.lnot (Z.shiftl 1 j) mod 2 ^ 32))
                       (Z.ones 32)).
      { rewrite <- Z.land_assoc. f_equal.
        rewrite Z.land_ones by lia. symmetry. apply Z.mod_small. lia. }
      rewrite Hl, Z.land_ones by lia. apply Z.mod_pos_bound. lia.
Qed.

End BitFacts.

Section ReaderFacts.

Import Wire Wire.Reader.

Context `{K : ProtocolConsts} `{Zl : Zlib}.

Lemma skip_app a rest cs :
  skip (Z.of_nat (length a)) (mkRState (a ++ rest) cs)
  = (inr tt, mkRState rest cs).
Proof.
  unfold skip. simpl. rewrite length_app.
  destruct (Z.leb_spec (Z.of_nat (length a))
              (Z.of_nat (length a + length rest))); [|lia].
  rewrite Nat2Z.id, drop_app_length. reflexivity.
Qed.

Lemma readBytes_app a rest cs :
  readBytes (Z.of_nat (length a)) (mkRState (a ++ rest) cs)
  = (inr a, mkRState rest cs).
Proof.
  unfold readBytes. simpl. rewrite length_app.
  destruct (Z.leb_spec (Z.of_nat (length a))
              (Z.of_nat (length a + length rest))); [|lia].
  rewrite Nat2Z.id, drop_app_length, take_app_length. reflexivity.
Qed.

Lemma readU8_cons b rest cs :
  readU8 (mkRState (b :: rest) cs) = (inr b, mkRState rest cs).
Proof. reflexivity. Qed.

Lemma readU32_encodeU32 v rest cs :
  0 <= v < 2 ^ 32 ->
  readU32 (mkRState (encodeU32 v ++ rest) cs) = (inr v, mkRState rest cs).
Proof.
  intros Hv. unfold readU32, bind, readU8, ret, encodeU32. simpl.
  rewrite decode_encodeU32 by assumption. reflexivity.
Qed.

(** The test [len & 0x80000000] on a [U32]. *)
Lemma high_bit_test len :
  0 <= len < 2 ^ 32 ->
  (Z.land len 2147483648 =? 0) = (len <? 2 ^ 31).
Proof.
  intros Hl.
  pose proof (bitSet_testbit len 31 ltac:(lia)) as Hb.
  unfold bitSet in Hb. change (Z.shiftl 1 31) with 2147483648 in Hb.
  assert (Hb' : (Z.land len 2147483648 =? 0) = negb (Z.testbit len 31))
    by (rewrite <- Hb, negb_involutive; reflexivity).
  rewrite Hb'.
  destruct (Z.ltb_spec len (2 ^ 31)) as [Hlt|Hge].
  - rewrite Z.bits_above_log2; [reflexivity|lia|].
    destruct (Z.eq_dec len 0) as [->|]; [simpl; lia|].
    apply Z.log2_lt_pow2; lia.
  - assert (Ht : Z.testbit len 31 = true).
    { apply Z.testbit_true; [lia|].
      assert (E : len / 2 ^ 31 = 1).
      { assert (1 <= len / 2 ^ 31) by (apply Z.div_le_lower_bound; lia).
        assert (len / 2 ^ 31 < 2) by (apply Z.div_lt_upper_bound; lia).
        lia. }
      rewrite E. reflexivity. }
    rewrite Ht. reflexivity.
Qed.

(** The length handed to [readExtendedClipboard]: negating the signed
    reading gives [2^32 - len], except at [0x80000000], where the
    negation does not fit an [S32]. *)
Lemma negated_length len :
  2 ^ 31 < len < 2 ^ 32 -> s32 (- s32 len) = 2 ^ 32 - len.
Proof.
  intros Hl. unfold s32.
  replace ((len + 2 ^ 31) mod 2 ^ 32) with (len - 2 ^ 31).
  2:{ apply Z.mod_unique with 1; lia. }
  replace (- (len - 2 ^ 31 - 2 ^ 31) + 2 ^ 31) with (2 ^ 32 - len + 2 ^ 31)
    by lia.
  rewrite Z.mod_small by lia. lia.
Qed.

Section CutText.

Variable maxCutText : Z.

(** With the high bit of the length set, the message goes to
    [readExtendedClipboard] with the negated signed length. *)
Lemma readCutText_high len rest cs :
  2 ^ 31 <= len < 2 ^ 32 ->
  readCutText maxCutText (mkRState ([0; 0; 0] ++ encodeU32 len ++ rest) cs)
  = readExtendedClipboard maxCutText (s32 (- s32 len)) (mkRState rest cs).
Proof.
  intros Hl.
  unfold readCutText. unfold bind at 1.
  change 3 with (Z.of_nat (length [0; 0; 0])).
  rewrite skip_app. unfold bind at 1.
  rewrite readU32_encodeU32 by lia.
  rewrite high_bit_test by lia.
  destruct (Z.ltb_spec len (2 ^ 31)); [lia|]. reflexivity.
Qed.

(** What [readCutText] does on a message body with a length field of
    [len], a [U32]: three cases.  [0 <= maxCutText] is the setting's
    sense, a maximal length. *)
Lemma readCutText_cases len body rest cs :
  0 <= len < 2 ^ 32 -> 0 <= maxCutText < 2 ^ 31 ->
  (2 ^ 31 < len ->
   0 < 2 ^ 32 - len /\
   readCutText maxCutText (mkRState ([0; 0; 0] ++ encodeU32 len ++ rest) cs)
   = readExtendedClipboard maxCutText (2 ^ 32 - len) (mkRState rest cs)) /\
  (len < 2 ^ 31 -> maxCutText < len -> Z.of_nat (length body) = len ->
   readCutText maxCutText
     (mkRState ([0; 0; 0] ++ encodeU32 len ++ body ++ rest) cs)
   = (inr tt, mkRState rest cs)) /\
  (len <= maxCutText -> Z.of_nat (length body) = len ->
   readCutText maxCutText
     (mkRState ([0; 0; 0] ++ encodeU32 len ++ body ++ rest) cs)
   = (inr tt, mkRState rest (cs ++ [CutText body len]))).
Proof.
  intros Hl Hm.
  assert (Hmax : usize maxCutText = maxCutText)
    by (unfold usize; apply Z.mod_small; lia).
  split; [|split].
  - intros Hhigh. split; [lia|].
    unfold readCutText. unfold bind at 1.
    change 3 with (Z.of_nat (length [0; 0; 0])).
    rewrite skip_app. unfold bind at 1.
    rewrite readU32_encodeU32 by assumption.
    rewrite high_bit_test by assumption.
    destruct (Z.ltb_spec len (2 ^ 31)); [lia|]. simpl negb. cbv iota.
    rewrite negated_length by lia. reflexivity.
  - intros Hlow Hbig Hbody.
    unfold readCutText. unfold bind at 1.
    change 3 with (Z.of_nat (length [0; 0; 0])).
    rewrite skip_app. unfold bind at 1.
    rewrite readU32_encodeU32 by assumption.
    rewrite high_bit_test by assumption.
    destruct (Z.ltb_spec len (2 ^ 31)); [|lia]. simpl negb. cbv iota.
    rewrite Hmax. destruct (Z.gtb_spec len maxCutText); [|lia].
    subst len. apply skip_app.
  - intros Hsmall Hbody.
    unfold readCutText. unfold bind at 1.
    change 3 with (Z.of_nat (length [0; 0; 0])).
    rewrite skip_app. unfold bind at 1.
    rewrite readU32_encodeU32 by assumption.
    rewrite high_bit_test by assumption.
    destruct (Z.ltb_spec len (2 ^ 31)); [|lia]. simpl negb. cbv iota.
    rewrite Hmax. destruct (Z.gtb_spec len maxCutText); [lia|].
    subst len. cbn [negb]. unfold bind. rewrite readBytes_app. reflexivity.
Qed.

End CutText.

End ReaderFacts.

(** C6 fails on the code at the length [0x80000000]: the high bit is set,
    the signed reading is [-2^31], its negation does not fit an [S32]
    (it comes back as [-2^31]), and [readExtendedClipboard] is called
    with that negative length, which it rejects. *)
Theorem readCutText_length_min_int (maxCutText : Z) (rest : list Z)
    (cs : list Wire.HandlerCall) :
  s32 (- s32 2147483648) = -2147483648 /\
  Wire.Reader.readCutText (K := Wire.rfbConsts) (Zl := Wire.storedZlib)
    maxCutText
    (Wire.Reader.mkRState ([0; 0; 0; 128; 0; 0; 0] ++ rest) cs)
  = Wire.Reader.readExtendedClipboard (K := Wire.rfbConsts)
      (Zl := Wire.storedZlib) maxCutText (-2147483648)
      (Wire.Reader.mkRState rest cs) /\
  Wire.Reader.readCutText (K := Wire.rfbConsts) (Zl := Wire.storedZlib)
    maxCutText
    (Wire.Reader.mkRState ([0; 0; 0; 128; 0; 0; 0] ++ rest) cs)
  = (inl (Wire.Exception Wire.InvalidExtendedClipboardMessage),
     Wire.Reader.mkRState rest cs).
Proof.
  split; [reflexivity|].
  pose proof (readCutText_high (K := Wire.rfbConsts) (Zl := Wire.storedZlib)
                maxCutText 2147483648 rest cs ltac:(lia)) as Hhigh.
  change (s32 (- s32 2147483648)) with (-2147483648) in Hhigh.
  split; [exact Hhigh|].
  etransitivity; [exact Hhigh|reflexivity].
Qed.

Section WriterFacts.

Import Wire Wire.Writer.

Context `{K : ProtocolConsts} `{Zl : Zlib}.

Variable client : bool.

(** With the capability there, the action messages are written: the
    type byte, the padding, the length -4 and the flags with the action's
    bit. *)
Lemma writeClipboardAction_capable (cp : ConnParams) a bit flags os :
  supportsExtendedClipboard cp = true ->
  Z.land (clipboardFlags cp) bit <> 0 ->
  writeClipboardAction client cp a bit flags os
  = (inr tt,
     (((os ++ [u8 (cutTextType client)]) ++ [0; 0; 0])
        ++ encodeU32 (u32 (u32 (-4))))
       ++ encodeU32 (u32 (Z.lor flags bit))).
Proof.
  intros He Hb. unfold writeClipboardAction. rewrite He.
  destruct (Z.eqb_spec (Z.land (clipboardFlags cp) bit) 0);
    [contradiction|reflexivity].
Qed.

(** The loop of [writeClipboardCaps] cannot fail: it appends the limits
    of the formats in [caps]. *)
Lemma capsWriter_appends (caps : Z) (lengths : list Z) idxs :
  forall count os,
    exists n bytes,
      forEach idxs
        (fun i count =>
           if bitSet caps i then
             bind (writeU32 (default 0 (lengths !! count)))
               (fun _ => ret (S count))
           else ret count) count os
      = (inr n, os ++ bytes).
Proof.
  induction idxs as [|i idxs IH]; intros count os; simpl.
  - exists count, []. unfold ret. rewrite app_nil_r. reflexivity.
  - unfold bind at 1. destruct (bitSet caps i).
    + assert (Hstep :
        bind (writeU32 (default 0 (lengths !! count)))
          (fun _ => ret (S count)) os
        = (inr (S count),
           os ++ encodeU32 (u32 (default 0 (lengths !! count)))))
        by reflexivity.
      rewrite Hstep.
      destruct (IH (S count)
                  (os ++ encodeU32 (u32 (default 0 (lengths !! count)))))
        as (n & bytes & ->).
      exists n, (encodeU32 (u32 (default 0 (lengths !! count))) ++ bytes).
      rewrite app_assoc. reflexivity.
    + unfold ret at 1. apply IH.
Qed.

(** C5, as the code has it: each of [writeFence], [writeClipboardCaps],
    [writeClipboardRequest], [writeClipboardPeek], [writeClipboardNotify]
    and [writeClipboardProvide] throws, with the stream as it was, when
    the peer lacks the capability the message needs: fences for
    [writeFence], the extended clipboard for the five clipboard messages,
    and for request, peek, notify and provide the action's bit in
    [cp.clipboardFlags()].  [writeClipboardCaps] tests no bit of
    [cp.clipboardFlags()]: for a peer with the extended clipboard it
    writes its message whatever the flags are. *)
Theorem write_without_capability (cp : ConnParams) (os : list Z) :
  (supportsFence cp = false ->
   forall flags len data,
     writeFence client cp flags len data os
     = (inl (Exception PeerDoesNotSupportFences), os)) /\
  (supportsExtendedClipboard cp = false ->
   (forall caps lengths,
      writeClipboardCaps client cp caps lengths os
      = (inl (Exception PeerDoesNotSupportExtendedClipboard), os)) /\
   (forall flags,
      writeClipboardRequest client cp flags os
      = (inl (Exception PeerDoesNotSupportExtendedClipboard), os)) /\
   (forall flags,
      writeClipboardPeek client cp flags os
      = (inl (Exception PeerDoesNotSupportExtendedClipboard), os)) /\
   (forall flags,
      writeClipboardNotify client cp flags os
      = (inl (Exception PeerDoesNotSupportExtendedClipboard), os)) /\
   (forall flags lengths data,
      writeClipboardProvide client cp flags lengths data os
      = (inl (Exception PeerDoesNotSupportExtendedClipboard), os))) /\
  (Z.land (clipboardFlags cp) clipboardRequest = 0 ->
   forall flags, exists what,
     writeClipboardRequest client cp flags os = (inl (Exception what), os)) /\
  (Z.land (clipboardFlags cp) clipboardPeek = 0 ->
   forall flags, exists what,
     writeClipboardPeek client cp flags os = (inl (Exception what), os)) /\
  (Z.land (clipboardFlags cp) clipboardNotify = 0 ->
   forall flags, exists what,
     writeClipboardNotify client cp flags os = (inl (Exception what), os)) /\
  (Z.land (clipboardFlags cp) clipboardProvide = 0 ->
   forall flags lengths data, exists what,
     writeClipboardProvide client cp flags lengths data os
     = (inl (Exception what), os)) /\
  (supportsExtendedClipboard cp = true ->
   forall caps lengths, exists bytes,
     bytes <> [] /\
     writeClipboardCaps client cp caps lengths os = (inr tt, os ++ bytes)).
Proof.
  split; [|split; [|repeat split]].
  - intros Hf flags len data. unfold writeFence. rewrite Hf. reflexivity.
  - intros He.
    unfold writeClipboardCaps, writeClipboardRequest, writeClipboardPeek,
      writeClipboardNotify, writeClipboardAction, writeClipboardProvide.
    rewrite He. repeat split; reflexivity.
  - intros Hb flags.
    unfold writeClipboardRequest, writeClipboardAction. rewrite Hb.
    destruct (supportsExtendedClipboard cp); eexists; reflexivity.
  - intros Hb flags.
    unfold writeClipboardPeek, writeClipboardAction. rewrite Hb.
    destruct (supportsExtendedClipboard cp); eexists; reflexivity.
  - intros Hb flags.
    unfold writeClipboardNotify, writeClipboardAction. rewrite Hb.
    destruct (supportsExtendedClipboard cp); eexists; reflexivity.
  - intros Hb flags lengths data.
    unfold writeClipboardProvide. rewrite Hb.
    destruct (supportsExtendedClipboard cp); eexists; reflexivity.
  - intros He caps lengths. unfold writeClipboardCaps. rewrite He.
    cbn [negb].
    unfold bind at 1, startMsg, writeU8.
    unfold bind at 1, pad.
    unfold bind at 1, writeS32, writeU32.
    unfold bind at 1. unfold bind at 1.
    match goal with
    | |- context [forEach formatBits ?body 0%nat ?out] =>
        destruct (capsWriter_appends caps lengths formatBits 0%nat out)
          as (n & bytes & Hloop)
    end.
    unfold writeU32 in Hloop. rewrite Hloop.
    unfold endMsg, flushStream, ret.
    exists ([u8 (cutTextType client)] ++ replicate 3 0
              ++ encodeU32 (u32 (u32 (- (4 + 4 * countFormats caps))))
              ++ encodeU32 (u32 (Z.lor caps clipboardCaps)) ++ bytes).
    split; [simpl; discriminate|].
    rewrite <- !app_assoc. reflexivity.
Qed.

End WriterFacts.

(** [write_without_capability] for a peer that supports nothing, with the
    constants of the protocol and three bytes already on the stream. *)
Lemma write_without_capability_witness :
  Wire.Writer.writeFence (K := Wire.rfbConsts) false
    (mkConnParams false false false 0 (-1)) 2147483648 4 [112; 105; 110; 103]
    [1; 2; 3]
  = (inl (Wire.Exception Wire.PeerDoesNotSupportFences), [1; 2; 3]) /\
  Wire.Writer.writeClipboardRequest (K := Wire.rfbConsts) false
    (mkConnParams false false false 0 (-1)) 1 [1; 2; 3]
  = (inl (Wire.Exception Wire.PeerDoesNotSupportExtendedClipboard),
     [1; 2; 3]) /\
  exists what,
    Wire.Writer.writeClipboardProvide (K := Wire.rfbConsts)
      (Zl := Wire.storedZlib) false
      (mkConnParams false false true 0 (-1)) 1 [2] [[104; 105]] [1; 2; 3]
    = (inl (Wire.Exception what), [1; 2; 3]).
Proof.
  destruct (write_without_capability (K := Wire.rfbConsts)
              (Zl := Wire.storedZlib) false
              (mkConnParams false false false 0 (-1)) [1; 2; 3])
    as (Hfence & Hext & _).
  destruct (write_without_capability (K := Wire.rfbConsts)
              (Zl := Wire.storedZlib) false
              (mkConnParams false false true 0 (-1)) [1; 2; 3])
    as (_ & _ & _ & _ & _ & Hprov & _).
  split; [apply Hfence; reflexivity|].
  split; [apply Hext; reflexivity|].
  apply Hprov. reflexivity.
Defined.

(** C5, as stated, fails for [writeClipboardCaps]: for a peer with the
    extended clipboard whose [clipboardFlags()] has no bit set, not even
    [clipboardCaps], it does not throw; it writes the whole message
    (type, padding, length -8, flags, one limit) behind what is on the
    stream. *)
Lemma writeClipboardCaps_checks_no_action_bit :
  Z.land (clipboardFlags (mkConnParams false false true 0 (-1)))
    (Wire.clipboardCaps (ProtocolConsts := Wire.rfbConsts)) = 0 /\
  Wire.Writer.writeClipboardCaps (K := Wire.rfbConsts) false
    (mkConnParams false false true 0 (-1)) 1 [20] [1; 2; 3]
  = (inr tt,
     [1; 2; 3] ++ [3; 0; 0; 0; 255; 255; 255; 248; 1; 0; 0; 1; 0; 0; 0; 20]).
Proof.
  split; [reflexivity|].
  vm_compute. reflexivity.
Qed.

Section FenceFacts.

Import Wire Codec.

Context `{K : ProtocolConsts}.


End FenceFacts.



Section CapsFacts.

Import Wire Wire.Reader Codec.

Context `{K : ProtocolConsts} `{Zl : Zlib}.

Lemma countFormats_from flags bits acc :
  fold_left (fun num i => if bitSet flags i then num + 1 else num) bits acc
  = acc + Z.of_nat (length (List.filter (bitSet flags) bits)).
Proof.
  revert acc. induction bits as [|i bits IH]; intros acc; simpl.
  - lia.
  - rewrite IH. destruct (bitSet flags i); simpl; lia.
Qed.

Lemma countFormats_setFormats flags :
  countFormats flags = Z.of_nat (length (setFormats flags)).
Proof. unfold countFormats. rewrite countFormats_from. reflexivity. Qed.

Lemma setFormats_le_16 flags : (length (setFormats flags) <= 16)%nat.
Proof. apply (List.filter_length_le (bitSet flags) formatBits). Qed.

(** The loop that fills [lengths]: one [U32] is read per set bit, into
    the next free slot. *)
Lemma capsLoop flags bits :
  forall done lens k rest cs,
    length lens = length (List.filter (bitSet flags) bits) ->
    Forall (fun l => 0 <= l < 2 ^ 32) lens ->
    forEach bits (capsBody flags)
      (length done, map Some done ++ replicate (length lens + k) None)
      (mkRState (concat (map encodeU32 lens) ++ rest) cs)
    = (inr ((length done + length lens)%nat,
            map Some (done ++ lens) ++ replicate k None),
       mkRState rest cs).
Proof.
  induction bits as [|i bits IH]; intros done lens k rest cs Hlen Hr.
  - simpl in Hlen. destruct lens; [|discriminate].
    simpl. unfold ret. rewrite Nat.add_0_r, app_nil_r. reflexivity.
  - simpl in Hlen. simpl forEach. unfold bind at 1, capsBody.
    destruct (bitSet flags i).
    + destruct lens as [|l lens]; [discriminate|].
      simpl in Hlen. injection Hlen as Hlen.
      apply Forall_cons_1 in Hr. destruct Hr as [Hl Hr].
      change (concat (map encodeU32 (l :: lens)))
        with (encodeU32 l ++ concat (map encodeU32 lens)).
      rewrite <- app_assoc.
      unfold bind at 1. rewrite readU32_encodeU32 by assumption.
      unfold ret at 1.
      rewrite insert_app_r_alt by (rewrite length_map; lia).
      rewrite length_map, Nat.sub_diag. simpl length. simpl replicate.
      simpl insert.
      replace (map Some done ++ Some l :: replicate (length lens + k) None)
        with (map Some (done ++ [l]) ++ replicate (length lens + k) None)
        by (rewrite map_app, <- app_assoc; reflexivity).
      replace (S (length done)) with (length (done ++ [l]))
        by (rewrite length_app; simpl; lia).
      rewrite IH by assumption.
      rewrite length_app, <- app_assoc. simpl.
      replace (length done + 1 + length lens)%nat
        with (length done + S (length lens))%nat by lia.
      reflexivity.
    + unfold ret at 1. apply IH; assumption.
Qed.

Section Caps.

Variable maxCutText : Z.

(** C10, as the code has it: a message whose action field has the Caps
    bit, with [n] format bits set.  The length is tested three times,
    in this order.  With [len < 4] the call throws, whatever
    [maxCutText] is.  With [4 <= len] and [len > maxCutText] the whole
    message is skipped before its flags are looked at: nothing is
    thrown and nothing delivered.  With [len <= maxCutText] and
    [len < 4 + 4 * n] the call throws and the handler is not called;
    otherwise one [U32] per set format bit is read and [clipboardCaps]
    gets them. *)
Theorem caps_length_check (len flags : Z) (lens body rest : list Z)
    (cs : list HandlerCall) :
  0 <= flags < 2 ^ 32 ->
  Z.land (Z.land flags clipboardActionMask) clipboardCaps <> 0 ->
  (len < 4 ->
   readExtendedClipboard maxCutText len
     (mkRState (encodeU32 flags ++ rest) cs)
   = (inl (Exception InvalidExtendedClipboardMessage),
      mkRState (encodeU32 flags ++ rest) cs)) /\
  (4 <= len -> maxCutText < len ->
   Z.of_nat (length body) = len - 4 ->
   readExtendedClipboard maxCutText len
     (mkRState (encodeU32 flags ++ body ++ rest) cs)
   = (inr tt, mkRState rest cs)) /\
  (len <= maxCutText ->
   len < 4 + 4 * countFormats flags ->
   exists s',
     readExtendedClipboard maxCutText len
       (mkRState (encodeU32 flags ++ rest) cs)
     = (inl (Exception InvalidExtendedClipboardMessage), s') /\
     calls s' = cs) /\
  (len <= maxCutText ->
   4 + 4 * countFormats flags <= len ->
   Z.of_nat (length lens) = countFormats flags ->
   Forall (fun l => 0 <= l < 2 ^ 32) lens ->
   readExtendedClipboard maxCutText len
     (mkRState (encodeU32 flags ++ concat (map encodeU32 lens) ++ rest) cs)
   = (inr tt,
      mkRState rest
        (cs ++ [ClipboardCaps flags
                  (map Some lens ++ replicate (16 - length lens) None)]))).
Proof.
  intros Hf Hcaps.
  pose proof (setFormats_le_16 flags) as H16.
  pose proof (countFormats_setFormats flags) as Hn.
  assert (Hs32 : s32 (4 + 4 * countFormats flags) = 4 + 4 * countFormats flags).
  { unfold s32. rewrite Z.mod_small by lia. lia. }
  assert (Hact : negb (Z.land (Z.land flags clipboardActionMask)
                         clipboardCaps =? 0) = true).
  { destruct (Z.eqb_spec (Z.land (Z.land flags clipboardActionMask)
                            clipboardCaps) 0); [contradiction|reflexivity]. }
  split; [|split; [|split]].
  - intros Hshort. unfold readExtendedClipboard.
    destruct (Z.ltb_spec len 4); [reflexivity|lia].
  - intros Hlen Hover Hbody. unfold readExtendedClipboard.
    destruct (Z.ltb_spec len 4); [lia|].
    destruct (Z.gtb_spec len maxCutText); [|lia].
    rewrite app_assoc.
    replace len with (Z.of_nat (length (encodeU32 flags ++ body)))
      by (rewrite length_app, length_encodeU32; lia).
    apply skip_app.
  - intros Hmax Hshort. unfold readExtendedClipboard.
    destruct (Z.ltb_spec len 4).
    { eexists. split; reflexivity. }
    destruct (Z.gtb_spec len maxCutText); [lia|].
    unfold bind at 1. rewrite readU32_encodeU32 by assumption.
    rewrite Hact, Hs32.
    destruct (Z.ltb_spec len (4 + 4 * countFormats flags)); [|lia].
    eexists. split; reflexivity.
  - intros Hmax Hlong Hlens Hrange. unfold readExtendedClipboard.
    destruct (Z.ltb_spec len 4); [lia|].
    destruct (Z.gtb_spec len maxCutText); [lia|].
    unfold bind at 1. rewrite readU32_encodeU32 by assumption.
    rewrite Hact, Hs32.
    destruct (Z.ltb_spec len (4 + 4 * countFormats flags)); [lia|].
    unfold bind at 1.
    assert (Hl : length lens = length (List.filter (bitSet flags) formatBits))
      by (unfold setFormats in Hn; lia).
    pose proof (capsLoop flags formatBits [] lens (16 - length lens) rest cs
                  Hl Hrange) as Hloop.
    simpl map in Hloop at 1. simpl app in Hloop at 1.
    replace (length lens + (16 - length lens))%nat with 16%nat in Hloop
      by (unfold setFormats in H16; lia).
    simpl length in Hloop at 1.
    rewrite Hloop. reflexivity.
Qed.

End Caps.

End CapsFacts.

(** [caps_length_check] on a Caps message for the formats 0 and 1 with
    the limits 20 and 0, under the default [MaxCutText]. *)
Lemma caps_length_check_witness :
  Wire.Reader.readExtendedClipboard (K := Wire.rfbConsts)
    (Zl := Wire.storedZlib) 262144 12
    (Wire.Reader.mkRState
       ([1; 0; 0; 3] ++ [0; 0; 0; 20; 0; 0; 0; 0] ++ [7]) [])
  = (inr tt,
     Wire.Reader.mkRState [7]
       [Wire.ClipboardCaps 16777219
          ([Some 20; Some 0] ++ replicate 14 None)]).
Proof.
  destruct (caps_length_check (K := Wire.rfbConsts) (Zl := Wire.storedZlib)
              262144 12 16777219 [20; 0] [] [7] [])
    as (_ & _ & _ & Hdeliver).
  - lia.
  - vm_compute. discriminate.
  - apply Hdeliver.
    + lia.
    + vm_compute. discriminate.
    + reflexivity.
    + repeat constructor; lia.
Defined.

(** C10, as stated, fails: with the default [MaxCutText] of 262144, a
    Caps message of length 262145 for one format is long enough for its
    one [U32], but it is skipped and [clipboardCaps] is not called. *)
Lemma caps_message_over_maxCutText :
  Z.land
    (Z.land 16777217
       (Wire.clipboardActionMask (ProtocolConsts := Wire.rfbConsts)))
    (Wire.clipboardCaps (ProtocolConsts := Wire.rfbConsts)) <> 0 /\
  ~ (262145 < 4 + 4 * Wire.countFormats 16777217) /\
  Wire.Reader.readExtendedClipboard (K := Wire.rfbConsts)
    (Zl := Wire.storedZlib) 262144 262145
    (Wire.Reader.mkRState
       (Wire.encodeU32 16777217 ++ replicate (Z.to_nat 262141) 0) [])
  = (inr tt, Wire.Reader.mkRState [] []).
Proof.
  split; [vm_compute; discriminate|].
  split; [vm_compute; discriminate|].
  vm_compute. reflexivity.
Qed.

Section ProvideFacts.

Import Wire Wire.Reader Codec.

Context `{K : ProtocolConsts} `{Zl : Zlib}.

Variable maxCutText : Z.
Hypothesis maxCutText_range : 0 <= maxCutText < 2 ^ 31.

(** Clearing a bit leaves the tests of the other bits as they were. *)
Lemma filter_bitSet_clearBit flags i bits :
  0 <= i -> ~ In i bits -> Forall (fun j => 0 <= j < 32) bits ->
  List.filter (bitSet (clearBit flags i)) bits
  = List.filter (bitSet flags) bits.
Proof.
  intros Hi Hnotin Hr. apply List.filter_ext_in. intros j Hj.
  rewrite List.Forall_forall in Hr. specialize (Hr j Hj).
  rewrite !bitSet_testbit by lia.
  rewrite clearBit_testbit by lia.
  destruct (Z.eqb_spec j i) as [->|]; [contradiction|].
  apply andb_true_r.
Qed.

(** The loop of the Provide branch over the formats [bits], on records
    that are whole. *)
Lemma provideLoop bits :
  List.NoDup bits -> Forall (fun i => 0 <= i < 32) bits ->
  forall recs st tail cs,
    length recs = length (List.filter (bitSet (p_flags st)) bits) ->
    Forall (fun r => 0 <= fst r < 2 ^ 32 /\
                     Z.of_nat (length (snd r)) = fst r) recs ->
    (p_num st + length recs <= length (p_lengths st))%nat ->
    (p_num st + length recs <= length (p_buffers st))%nat ->
    exists st',
      forEach bits (provideBody maxCutText) st
        (mkRState (concat (map provideRecord recs) ++ tail) cs)
      = (inr st', mkRState tail cs) /\
      let set := List.filter (bitSet (p_flags st)) bits in
      let kept := keptOf maxCutText set recs in
      p_flags st' = fold_left clearBit (droppedOf maxCutText set recs)
                      (p_flags st) /\
      p_num st' = (p_num st + length kept)%nat /\
      take (p_num st') (p_lengths st')
      = take (p_num st) (p_lengths st)
        ++ map (fun fr => Some (fst (snd fr))) kept /\
      take (p_num st') (p_buffers st')
      = take (p_num st) (p_buffers st)
        ++ map (fun fr => Some (snd (snd fr))) kept /\
      length (p_lengths st') = length (p_lengths st) /\
      length (p_buffers st') = length (p_buffers st).
Proof.
  assert (Hmax : usize maxCutText = maxCutText)
    by (unfold usize; apply Z.mod_small; lia).
  induction bits as [|i bits IH]; intros Hnd Hrange recs st tail cs
    Hlen Hwf Hbl Hbb.
  - simpl in Hlen. destruct recs; [|discriminate].
    exists st. split; [reflexivity|].
    unfold keptOf, droppedOf. simpl.
    rewrite Nat.add_0_r, !app_nil_r. repeat split.
  - apply List.NoDup_cons_iff in Hnd. destruct Hnd as [Hnotin Hnd].
    apply Forall_cons_1 in Hrange. destruct Hrange as [Hi Hrange].
    simpl forEach. unfold bind at 1, provideBody at 1.
    simpl List.filter in *.
    destruct (bitSet (p_flags st) i) eqn:Hbit; cbn [negb].
    + destruct recs as [|[l d] recs]; [discriminate|].
      simpl in Hlen. injection Hlen as Hlen.
      apply Forall_cons_1 in Hwf. destruct Hwf as [[Hl Hd] Hwf].
      simpl in Hl, Hd, Hbl, Hbb.
      change (concat (map provideRecord ((l, d) :: recs)))
        with ((encodeU32 l ++ d) ++ concat (map provideRecord recs)).
      rewrite <- !app_assoc.
      unfold bind at 1. rewrite readU32_encodeU32 by assumption.
      rewrite Hmax.
      unfold keptOf, droppedOf, fits. simpl combine. simpl List.filter.
      simpl fst. simpl snd.
      destruct (Z.gtb_spec l maxCutText) as [Hover|Hfits].
      * (* too long: skipped, the bit is cleared *)
        destruct (Z.leb_spec l maxCutText); [lia|]. cbn [negb].
        unfold bind at 1. subst l. rewrite skip_app. unfold ret at 1.
        destruct (IH Hnd Hrange recs
                    (mkProvide (clearBit (p_flags st) i) (p_num st)
                       (<[p_num st := Some (Z.of_nat (length d))]>
                          (p_lengths st))
                       (p_buffers st)) tail cs)
          as (st' & Hrun & Hflags & Hnum & Hls & Hbs & Hll & Hlb).
        { simpl. rewrite filter_bitSet_clearBit by (assumption || lia).
          exact Hlen. }
        { exact Hwf. }
        { simpl. rewrite length_insert. lia. }
        { simpl. lia. }
        exists st'. split; [exact Hrun|].
        simpl in Hflags, Hnum, Hls, Hbs, Hll, Hlb.
        rewrite filter_bitSet_clearBit in Hflags, Hnum, Hls, Hbs
          by (assumption || lia).
        rewrite take_insert_ge in Hls by lia.
        rewrite length_insert in Hll.
        simpl map. simpl fold_left.
        repeat split; assumption.
      * (* fits: read into the next slot *)
        destruct (Z.leb_spec l maxCutText); [|lia]. cbn [negb].
        unfold bind at 1. subst l. rewrite readBytes_app. unfold ret at 1.
        destruct (IH Hnd Hrange recs
                    (mkProvide (p_flags st) (S (p_num st))
                       (<[p_num st := Some (Z.of_nat (length d))]>
                          (p_lengths st))
                       (<[p_num st := Some d]> (p_buffers st))) tail cs)
          as (st' & Hrun & Hflags & Hnum & Hls & Hbs & Hll & Hlb).
        { simpl. exact Hlen. }
        { exact Hwf. }
        { simpl. rewrite length_insert. lia. }
        { simpl. rewrite length_insert. lia. }
        exists st'. split; [exact Hrun|].
        simpl in Hflags, Hnum, Hls, Hbs, Hll, Hlb.
        rewrite (take_S_r _ _ (Some (Z.of_nat (length d)))) in Hls
          by (apply list_lookup_insert_eq; lia).
        rewrite (take_S_r _ _ (Some d)) in Hbs
          by (apply list_lookup_insert_eq; lia).
        rewrite take_insert_ge in Hls by lia.
        rewrite take_insert_ge in Hbs by lia.
        rewrite <- app_assoc in Hls. rewrite <- app_assoc in Hbs.
        rewrite length_insert in Hll. rewrite length_insert in Hlb.
        simpl map. simpl length.
        repeat split; try assumption.
        rewrite Hnum. unfold keptOf, fits. lia.
    + unfold ret at 1.
      destruct (IH Hnd Hrange recs st tail cs Hlen Hwf Hbl Hbb)
        as (st' & Hrun & Hprops).
      exists st'. split; [exact Hrun|exact Hprops].
Qed.


End ProvideFacts.

Section ProvideDelivery.

Import Wire Wire.Reader Codec.

Context `{K : ProtocolConsts} `{Zl : Zlib}.




Lemma formatBits_NoDup : List.NoDup formatBits.
Proof. repeat constructor; simpl; intuition discriminate. Qed.

Lemma formatBits_range : Forall (fun i => 0 <= i < 32) formatBits.
Proof. repeat constructor; lia. Qed.


Section Provide.

Variable maxCutText : Z.


End Provide.

End ProvideDelivery.


(** ** The worker pool *)

Section SchedFacts.

Import EncodeManager Sched.

Context {PB : Type} `{Co : Collaborators PB}.

Variable encoders : EncoderClass -> Encoder.
Variable activeEncoders : EncoderType -> EncoderClass.
Variable cp : ConnParams.

Local Abbreviation classInv := (Sched.classInv encoders activeEncoders).
Local Abbreviation move := (Sched.move encoders activeEncoders cp).
Local Abbreviation reachable := (Sched.reachable encoders activeEncoders cp).
Local Abbreviation prepare := (Sched.prepare encoders activeEncoders cp).

Lemma classInv_init n k : classInv (init n : State PB) k.
Proof.
  unfold classInv, oneAtATime, init. simpl.
  repeat split.
  - intros i p Hi. apply lookup_replicate in Hi. destruct Hi as [Hi _].
    discriminate.
  - intros i j p q Hi. apply lookup_replicate in Hi. destruct Hi as [Hi _].
    discriminate.
  - intros Hne. contradiction.
  - exists []. split; reflexivity.
  - constructor.
Qed.

(** A move that leaves the encoder queues and their histories alone, and
    changes at most one thread, neither from nor to encoding for an
    ordered class. *)
Lemma classInv_other_thread (s s' : State PB) i t t' k :
  classInv s k ->
  threads s !! i = Some t ->
  (forall k' p, t <> EncodingOrdered k' p) ->
  (forall k' p, t' <> EncodingOrdered k' p) ->
  threads s' = <[i := t']> (threads s) ->
  encoderQueue s' = encoderQueue s ->
  queuedLog s' = queuedLog s ->
  encodedLog s' = encodedLog s ->
  classInv s' k.
Proof.
  intros (Hfront & Hone & Hown & Hlog & Hk) Hi Ht Ht' Hth Hq Hql Hel.
  unfold classInv, oneAtATime. rewrite Hth, Hq, Hql, Hel.
  assert (Hold : forall j k' p,
            <[i := t']> (threads s) !! j = Some (EncodingOrdered k' p) ->
            threads s !! j = Some (EncodingOrdered k' p)).
  { intros j k' p Hj. apply list_lookup_insert_Some in Hj.
    destruct Hj as [(_ & Heq & _)|(_ & Hj)]; [|exact Hj].
    exfalso. eapply Ht'. exact Heq. }
  repeat split.
  - intros j p Hj. apply Hfront with j. apply Hold. exact Hj.
  - intros j1 j2 p q H1 H2. apply (Hone j1 j2 p q); apply Hold; assumption.
  - intros Hne. destruct (Hown Hne) as (j & p & Hj).
    exists j, p. rewrite list_lookup_insert_ne; [exact Hj|].
    intros ->. rewrite Hi in Hj. injection Hj as Hj. eapply Ht. exact Hj.
  - exact Hlog.
  - exact Hk.
Qed.

Lemma classInv_same_threads (s s' : State PB) k :
  classInv s k ->
  threads s' = threads s ->
  encoderQueue s' = encoderQueue s ->
  queuedLog s' = queuedLog s ->
  encodedLog s' = encodedLog s ->
  classInv s' k.
Proof.
  intros Hinv Hth Hq Hql Hel. unfold Sched.classInv, oneAtATime in *.
  rewrite Hth, Hq, Hql, Hel. exact Hinv.
Qed.

(** The invariant of another class than the one a move works on. *)
Lemma classInv_other_class (s s' : State PB) i t t' k0 k q ql el :
  classInv s k ->
  k0 <> k ->
  threads s !! i = Some t ->
  (forall p, t <> EncodingOrdered k p) ->
  (forall p, t' <> EncodingOrdered k p) ->
  threads s' = <[i := t']> (threads s) ->
  encoderQueue s' = <[k0 := q]> (encoderQueue s) ->
  queuedLog s' = queuedLog s \/ queuedLog s' = <[k0 := ql]> (queuedLog s) ->
  encodedLog s' = encodedLog s \/ encodedLog s' = <[k0 := el]> (encodedLog s) ->
  classInv s' k.
Proof.
  intros (Hfront & Hone & Hown & Hlog & Hk) Hne Hi Ht Ht' Hth Hq Hql Hel.
  assert (Hq' : encoderQueue s' k = encoderQueue s k)
    by (rewrite Hq; apply fn_lookup_insert_ne; exact Hne).
  assert (Hql' : queuedLog s' k = queuedLog s k)
    by (destruct Hql as [-> | ->];
        [reflexivity|apply fn_lookup_insert_ne; exact Hne]).
  assert (Hel' : encodedLog s' k = encodedLog s k)
    by (destruct Hel as [-> | ->];
        [reflexivity|apply fn_lookup_insert_ne; exact Hne]).
  unfold Sched.classInv, oneAtATime. rewrite Hth, Hq', Hql', Hel'.
  assert (Hold : forall j p,
            <[i := t']> (threads s) !! j = Some (EncodingOrdered k p) ->
            threads s !! j = Some (EncodingOrdered k p)).
  { intros j p Hj. apply list_lookup_insert_Some in Hj.
    destruct Hj as [(_ & Heq & _)|(_ & Hj)]; [|exact Hj].
    exfalso. eapply Ht'. exact Heq. }
  repeat split.
  - intros j p Hj. apply Hfront with j. apply Hold. exact Hj.
  - intros j1 j2 p q' H1 H2.
    apply (Hone j1 j2 p q'); apply Hold; assumption.
  - intros Hnonempty. destruct (Hown Hnonempty) as (j & p & Hj).
    exists j, p. rewrite list_lookup_insert_ne; [exact Hj|].
    intros ->. rewrite Hi in Hj. injection Hj as Hj. eapply Ht. exact Hj.
  - exact Hlog.
  - exact Hk.
Qed.

(** A worker queues its entry on an empty queue and becomes the owner. *)
Lemma classInv_prepared_first (s s' : State PB) i e prep k :
  classInv s k ->
  threads s !! i = Some (Preparing e) ->
  encoderQueue s k = [] ->
  klassOf activeEncoders prep = k -> ordered (encoders k) = true ->
  threads s' = <[i := EncodingOrdered k prep]> (threads s) ->
  encoderQueue s' k = [prep] ->
  queuedLog s' k = queuedLog s k ++ [prep] ->
  encodedLog s' k = encodedLog s k ++ [prep] ->
  classInv s' k.
Proof.
  intros (Hfront & Hone & Hown & (popped & Hql & Hel) & Hk)
    Hi Hempty Hklass Hord Hth Hq Hql' Hel'.
  assert (Hlt : (i < length (threads s))%nat)
    by (apply lookup_lt_is_Some; eauto).
  assert (Hnone : forall j p, j <> i ->
            <[i := EncodingOrdered k prep]> (threads s) !! j
            = Some (EncodingOrdered k p) -> False).
  { intros j p Hne Hj. rewrite list_lookup_insert_ne in Hj by congruence.
    apply Hfront in Hj. rewrite Hempty in Hj. discriminate. }
  unfold Sched.classInv, oneAtATime. rewrite Hth, Hq, Hql', Hel'.
  repeat split.
  - intros j p Hj. destruct (decide (j = i)) as [->|Hne].
    + rewrite list_lookup_insert_eq in Hj by exact Hlt.
      injection Hj as <-. reflexivity.
    + exfalso. eapply Hnone; eassumption.
  - intros j1 j2 p q H1 H2.
    destruct (decide (j1 = i)) as [->|Hn1];
      [|exfalso; eapply Hnone; eassumption].
    destruct (decide (j2 = i)) as [->|Hn2];
      [reflexivity|exfalso; eapply Hnone; eassumption].
  - intros _. exists i, prep. apply list_lookup_insert_eq. exact Hlt.
  - exists popped. rewrite Hql, Hel, Hempty. simpl.
    rewrite !app_nil_r. split; reflexivity.
  - apply Forall_app. split; [exact Hk|]. repeat constructor; assumption.
Qed.

(** A worker queues its entry behind the entry the owner is encoding. *)
Lemma classInv_prepared_behind (s s' : State PB) i e prep k :
  classInv s k ->
  threads s !! i = Some (Preparing e) ->
  encoderQueue s k <> [] ->
  klassOf activeEncoders prep = k -> ordered (encoders k) = true ->
  threads s' = <[i := Waiting]> (threads s) ->
  encoderQueue s' k = encoderQueue s k ++ [prep] ->
  queuedLog s' k = queuedLog s k ++ [prep] ->
  encodedLog s' k = encodedLog s k ->
  classInv s' k.
Proof.
  intros (Hfront & Hone & Hown & (popped & Hql & Hel) & Hk)
    Hi Hnonempty Hklass Hord Hth Hq Hql' Hel'.
  assert (Hold : forall j p,
            <[i := Waiting]> (threads s) !! j = Some (EncodingOrdered k p) ->
            threads s !! j = Some (EncodingOrdered k p)).
  { intros j p Hj. apply list_lookup_insert_Some in Hj.
    destruct Hj as [(_ & Heq & _)|(_ & Hj)]; [discriminate|exact Hj]. }
  unfold Sched.classInv, oneAtATime. rewrite Hth, Hq, Hql', Hel'.
  destruct (encoderQueue s k) as [|front rest] eqn:Hqueue; [contradiction|].
  repeat split.
  - intros j p Hj. apply Hold, Hfront in Hj. exact Hj.
  - intros j1 j2 p q H1 H2.
    apply (Hone j1 j2 p q); apply Hold; assumption.
  - intros _. destruct (Hown ltac:(discriminate)) as (j & p & Hj).
    exists j, p. rewrite list_lookup_insert_ne; [exact Hj|].
    intros ->. rewrite Hi in Hj. discriminate.
  - exists popped. rewrite Hql, Hel. simpl.
    rewrite <- app_assoc. split; reflexivity.
  - apply Forall_app. split; [exact Hk|]. repeat constructor; assumption.
Qed.

(** The owner is done with the front and goes on with the next entry. *)
Lemma classInv_encoded_next (s s' : State PB) i prep front rest k :
  classInv s k ->
  threads s !! i = Some (EncodingOrdered k prep) ->
  tail (encoderQueue s k) = front :: rest ->
  threads s' = <[i := EncodingOrdered k front]> (threads s) ->
  encoderQueue s' k = front :: rest ->
  queuedLog s' k = queuedLog s k ->
  encodedLog s' k = encodedLog s k ++ [front] ->
  classInv s' k.
Proof.
  intros (Hfront & Hone & Hown & (popped & Hql & Hel) & Hk)
    Hi Htail Hth Hq Hql' Hel'.
  assert (Hlt : (i < length (threads s))%nat)
    by (apply lookup_lt_is_Some; eauto).
  pose proof (Hfront i prep Hi) as Hhead.
  destruct (encoderQueue s k) as [|p0 q0] eqn:Hqueue; [discriminate|].
  simpl in Hhead, Htail. injection Hhead as ->. subst q0.
  assert (Hnone : forall j p, j <> i ->
            <[i := EncodingOrdered k front]> (threads s) !! j
            = Some (EncodingOrdered k p) -> False).
  { intros j p Hne Hj. rewrite list_lookup_insert_ne in Hj by congruence.
    apply Hne. apply (Hone j i p prep); assumption. }
  unfold Sched.classInv, oneAtATime. rewrite Hth, Hq, Hql', Hel'.
  repeat split.
  - intros j p Hj. destruct (decide (j = i)) as [->|Hne].
    + rewrite list_lookup_insert_eq in Hj by exact Hlt.
      injection Hj as <-. reflexivity.
    + exfalso. eapply Hnone; eassumption.
  - intros j1 j2 p q H1 H2.
    destruct (decide (j1 = i)) as [->|Hn1];
      [|exfalso; eapply Hnone; eassumption].
    destruct (decide (j2 = i)) as [->|Hn2];
      [reflexivity|exfalso; eapply Hnone; eassumption].
  - intros _. exists i, front. apply list_lookup_insert_eq. exact Hlt.
  - exists (popped ++ [prep]). rewrite Hql, Hel. simpl.
    rewrite <- !app_assoc. split; reflexivity.
  - exact Hk.
Qed.

(** The owner is done with the last entry of the queue and lets go. *)
Lemma classInv_encoded_last (s s' : State PB) i prep k :
  classInv s k ->
  threads s !! i = Some (EncodingOrdered k prep) ->
  tail (encoderQueue s k) = [] ->
  threads s' = <[i := Waiting]> (threads s) ->
  encoderQueue s' k = [] ->
  queuedLog s' k = queuedLog s k ->
  encodedLog s' k = encodedLog s k ->
  classInv s' k.
Proof.
  intros (Hfront & Hone & Hown & (popped & Hql & Hel) & Hk)
    Hi Htail Hth Hq Hql' Hel'.
  pose proof (Hfront i prep Hi) as Hhead.
  destruct (encoderQueue s k) as [|p0 q0] eqn:Hqueue; [discriminate|].
  simpl in Hhead, Htail. injection Hhead as ->. subst q0.
  assert (Hnone : forall j p,
            <[i := Waiting]> (threads s) !! j
            = Some (EncodingOrdered k p) -> False).
  { intros j p Hj. apply list_lookup_insert_Some in Hj.
    destruct Hj as [(_ & Heq & _)|(Hne & Hj)]; [discriminate|].
    apply Hne. symmetry. apply (Hone j i p prep); assumption. }
  unfold Sched.classInv, oneAtATime. rewrite Hth, Hq, Hql', Hel'.
  repeat split.
  - intros j p Hj. exfalso. eapply Hnone; eassumption.
  - intros j1 j2 p q H1 H2. exfalso. eapply Hnone; eassumption.
  - intros Hne. contradiction.
  - exists (popped ++ [prep]). rewrite Hql, Hel. simpl.
    rewrite app_nil_r. split; reflexivity.
  - exact Hk.
Qed.

(** Every move of the pool keeps the invariant. *)
Lemma classInv_move (s s' : State PB) m :
  (forall k, classInv s k) -> move m s = Some s' ->
  forall k, classInv s' k.
Proof.
  intros Hinv Hmove k. specialize (Hinv k) as Hk.
  destruct m as [e|i|i|i| |i]; simpl in Hmove.
  - (* queueSubRect *)
    injection Hmove as <-. eapply classInv_same_threads; eauto.
  - (* a worker pops the work queue *)
    unfold doPop in Hmove.
    destruct (threads s !! i) as [[| | | |]|] eqn:Hi; try discriminate.
    destruct (workQueue s) as [|e rest]; [discriminate|].
    injection Hmove as <-.
    eapply classInv_other_thread; eauto; discriminate.
  - (* a worker is done analysing *)
    unfold doPrepared in Hmove.
    destruct (threads s !! i) as [[|e| | |]|] eqn:Hi; try discriminate.
    set (prep := prepare e) in *.
    set (k0 := klassOf activeEncoders prep) in *.
    destruct (ordered (encoders k0)) eqn:Hord.
    + destruct (decide (length (encoderQueue s k0 ++ [prep]) = 1%nat))
        as [Hone|Hmore].
      * assert (Hempty : encoderQueue s k0 = []).
        { rewrite length_app in Hone. simpl in Hone.
          destruct (encoderQueue s k0); [reflexivity|simpl in Hone; lia]. }
        rewrite Hempty in Hmove. simpl in Hmove. injection Hmove as <-.
        destruct (decide (k0 = k)) as [<-|Hne].
        -- eapply classInv_prepared_first; eauto; simpl;
             rewrite ?fn_lookup_insert; reflexivity.
        -- eapply classInv_other_class with (k0 := k0) (t := Preparing e);
             eauto; simpl; try discriminate;
             try (left; reflexivity); try (right; reflexivity);
             try (intros p Heq; injection Heq as Heq _; contradiction).
      * assert (Hnonempty : encoderQueue s k0 <> []).
        { intros Hempty. apply Hmore. rewrite Hempty. reflexivity. }
        injection Hmove as <-.
        destruct (decide (k0 = k)) as [<-|Hne].
        -- eapply classInv_prepared_behind; eauto; simpl;
             rewrite ?fn_lookup_insert; reflexivity.
        -- eapply classInv_other_class with (k0 := k0) (t := Preparing e)
             (el := []);
             eauto; simpl; try discriminate;
             try (left; reflexivity); try (right; reflexivity);
             try (intros p Heq; injection Heq as Heq _; contradiction).
    + injection Hmove as <-.
      eapply classInv_other_thread; eauto; discriminate.
  - (* a worker is done encoding *)
    unfold doEncoded in Hmove.
    destruct (threads s !! i) as [[| |k0 prep|prep|]|] eqn:Hi;
      try discriminate.
    + destruct (tail (encoderQueue s k0)) as [|front rest] eqn:Htail;
        injection Hmove as <-.
      * destruct (decide (k0 = k)) as [<-|Hne].
        -- eapply classInv_encoded_last; eauto; simpl;
             rewrite ?fn_lookup_insert; reflexivity.
        -- eapply classInv_other_class with (k0 := k0)
             (t := EncodingOrdered k0 prep) (ql := []) (el := []);
             eauto; simpl; try discriminate;
             try (left; reflexivity); try (right; reflexivity);
             try (intros p Heq; injection Heq as Heq _; contradiction).
      * destruct (decide (k0 = k)) as [<-|Hne].
        -- eapply classInv_encoded_next; eauto; simpl;
             rewrite ?fn_lookup_insert; reflexivity.
        -- eapply classInv_other_class with (k0 := k0)
             (t := EncodingOrdered k0 prep) (ql := []);
             eauto; simpl; try discriminate;
             try (left; reflexivity); try (right; reflexivity);
             try (intros p Heq; injection Heq as Heq _; contradiction).
    + injection Hmove as <-.
      eapply classInv_other_thread; eauto; discriminate.
  - (* flush takes an output *)
    unfold doFlush in Hmove.
    destruct (rectCount s) as [|n]; [discriminate|].
    destruct (outputQueue s) as [|o rest]; [discriminate|].
    injection Hmove as <-. eapply classInv_same_threads; eauto.
  - (* a worker stops *)
    unfold doStop in Hmove.
    destruct (threads s !! i) as [[| | | |]|] eqn:Hi; try discriminate.
    injection Hmove as <-.
    eapply classInv_other_thread; eauto; discriminate.
Qed.

Lemma classInv_reachable n (s : State PB) :
  reachable n s -> forall k, classInv s k.
Proof.
  induction 1 as [|s s' Hreach IH Hstep].
  - intros k. apply classInv_init.
  - destruct Hstep as [m s s' Hmove]. eapply classInv_move; eassumption.
Qed.

Lemma run_reachable n ms : forall (s s' : State PB),
  reachable n s ->
  Sched.run encoders activeEncoders cp ms s = Some s' -> reachable n s'.
Proof.
  induction ms as [|m ms IH]; intros s s' Hreach Hrun; simpl in Hrun.
  - injection Hrun as <-. exact Hreach.
  - destruct (move m s) as [s1|] eqn:Hmove; [|discriminate].
    apply (IH s1 s'); [|exact Hrun].
    eapply reach_step; [exact Hreach|]. econstructor. exact Hmove.
Qed.

(** Whatever the schedule, [flush] has written one output per entry
    pushed once [rectCount] is back at zero. *)
Lemma pool_counts n (s : State PB) :
  reachable n s ->
  length (pushedLog s) = (length (written s) + rectCount s)%nat.
Proof.
  induction 1 as [|s s' Hreach IH Hstep]; [reflexivity|].
  destruct Hstep as [m s s' Hmove].
  destruct m as [e|i|i|i| |i]; simpl in Hmove.
  - injection Hmove as <-. simpl. rewrite length_app, IH. simpl. lia.
  - unfold doPop in Hmove.
    destruct (threads s !! i) as [[| | | |]|]; try discriminate.
    destruct (workQueue s); [discriminate|].
    injection Hmove as <-. exact IH.
  - unfold doPrepared in Hmove.
    destruct (threads s !! i) as [[|e| | |]|]; try discriminate.
    destruct (ordered _).
    + destruct (decide _).
      * destruct (_ ++ _); [discriminate|]. injection Hmove as <-. exact IH.
      * injection Hmove as <-. exact IH.
    + injection Hmove as <-. exact IH.
  - unfold doEncoded in Hmove.
    destruct (threads s !! i) as [[| |k0 prep|prep|]|]; try discriminate.
    + destruct (tail _); injection Hmove as <-; exact IH.
    + injection Hmove as <-. exact IH.
  - unfold doFlush in Hmove.
    destruct (rectCount s) as [|c] eqn:Hc; [discriminate|].
    destruct (outputQueue s); [discriminate|].
    injection Hmove as <-. simpl. rewrite length_app, IH. simpl. lia.
  - unfold doStop in Hmove.
    destruct (threads s !! i) as [[| | | |]|]; try discriminate.
    injection Hmove as <-. exact IH.
Qed.

(** C9, as the code has it: in every state the pool can reach, for every
    class, at most one thread is inside [encodeRect] for the class; the
    entries handed to [encodeRect] so far are, in order, the first of the
    entries pushed on the class's encoder queue, which are entries of
    that class and of an ordered encoder; and a thread encoding for the
    class works on the latest entry handed out. *)
Theorem ordered_class_in_queue_order (n : nat) (s : Sched.State PB)
    (k : EncoderClass) :
  Sched.reachable encoders activeEncoders cp n s ->
  Sched.oneAtATime s k /\
  Sched.encodedLog s k `prefix_of` Sched.queuedLog s k /\
  Forall (fun p => Sched.klassOf activeEncoders p = k /\
                   ordered (encoders k) = true) (Sched.queuedLog s k) /\
  (forall i p, Sched.threads s !! i = Some (Sched.EncodingOrdered k p) ->
               list.last (Sched.encodedLog s k) = Some p) /\
  (Sched.encoderQueue s k = [] ->
   Sched.encodedLog s k = Sched.queuedLog s k).
Proof.
  intros Hreach.
  destruct (classInv_reachable n s Hreach k)
    as (Hfront & Hone & Hown & (popped & Hql & Hel) & Hk).
  split; [exact Hone|]. split; [|split; [exact Hk|split]].
  - rewrite Hql, Hel. apply prefix_app.
    destruct (Sched.encoderQueue s k) as [|front rest]; simpl.
    + apply prefix_nil.
    + exists rest. reflexivity.
  - intros i p Hi. apply Hfront in Hi. rewrite Hel.
    destruct (Sched.encoderQueue s k) as [|front rest]; [discriminate|].
    injection Hi as ->. simpl. apply last_snoc.
  - intros Hempty. rewrite Hql, Hel, Hempty. reflexivity.
Qed.

End SchedFacts.

(** The state reached by the run [racingRun] of two workers. *)
Lemma racingState_reachable :
  Sched.reachable Concrete.stockEncoders Concrete.zrleActive
    Concrete.plainPeer 2 Concrete.racingState.
Proof.
  apply (run_reachable Concrete.stockEncoders Concrete.zrleActive
           Concrete.plainPeer 2 Concrete.racingRun (Sched.init 2)).
  - constructor.
  - unfold Concrete.racingState.
    destruct (Sched.run _ _ _ _ _) as [s|] eqn:Hrun; [reflexivity|].
    vm_compute in Hrun. discriminate Hrun.
Qed.

(** [ordered_class_in_queue_order] in that state, for ZRLE. *)
Lemma ordered_class_in_queue_order_witness :
  Sched.oneAtATime Concrete.racingState encoderZRLE /\
  Sched.encodedLog Concrete.racingState encoderZRLE
    `prefix_of` Sched.queuedLog Concrete.racingState encoderZRLE.
Proof.
  destruct (ordered_class_in_queue_order Concrete.stockEncoders
              Concrete.zrleActive Concrete.plainPeer 2 Concrete.racingState
              encoderZRLE racingState_reachable)
    as (Hone & Hprefix & _).
  split; [exact Hone|exact Hprefix].
Defined.

(** C9, as stated, fails: with two workers the pool reaches a state in
    which the rows of a frame, both for the ordered ZRLE encoder, were
    pushed on the work queue top row first and handed to [encodeRect]
    bottom row first. *)
Lemma encode_order_is_not_work_order :
  Sched.reachable Concrete.stockEncoders Concrete.zrleActive
    Concrete.plainPeer 2 Concrete.racingState /\
  ordered (Concrete.stockEncoders encoderZRLE) = true /\
  Sched.workOrder Concrete.stockEncoders Concrete.zrleActive
    Concrete.plainPeer Concrete.racingState encoderZRLE
  = [EncodeManager.mkPrepared [[0; 1]] encoderBitmapRLE [0; 1];
     EncodeManager.mkPrepared [[1; 0]] encoderBitmapRLE [1; 0]] /\
  Sched.encodedLog Concrete.racingState encoderZRLE
  = [EncodeManager.mkPrepared [[1; 0]] encoderBitmapRLE [1; 0];
     EncodeManager.mkPrepared [[0; 1]] encoderBitmapRLE [0; 1]] /\
  ~ Sched.encodedLog Concrete.racingState encoderZRLE
    `prefix_of` Sched.workOrder Concrete.stockEncoders Concrete.zrleActive
                  Concrete.plainPeer Concrete.racingState encoderZRLE.
Proof.
  assert (Hwork :
    Sched.workOrder Concrete.stockEncoders Concrete.zrleActive
      Concrete.plainPeer Concrete.racingState encoderZRLE
    = [EncodeManager.mkPrepared [[0; 1]] encoderBitmapRLE [0; 1];
       EncodeManager.mkPrepared [[1; 0]] encoderBitmapRLE [1; 0]])
    by (vm_compute; reflexivity).
  assert (Henc :
    Sched.encodedLog Concrete.racingState encoderZRLE
    = [EncodeManager.mkPrepared [[1; 0]] encoderBitmapRLE [1; 0];
       EncodeManager.mkPrepared [[0; 1]] encoderBitmapRLE [0; 1]])
    by (vm_compute; reflexivity).
  split; [exact racingState_reachable|].
  split; [reflexivity|]. split; [exact Hwork|]. split; [exact Henc|].
  rewrite Hwork, Henc. intros [rest Hrest]. discriminate Hrest.
Qed.

(** ** More on the wire codec *)

Section CutTextTrip.

Import Wire Wire.Reader.

Context `{K : ProtocolConsts} `{Zl : Zlib}.

Variable maxCutText : Z.
Variable client : bool.

(** What [writeCutText] appends to the stream. *)
Lemma writeCutText_bytes str len os :
  Writer.writeCutText client str len os
  = (inr tt,
     os ++ [u8 (Writer.cutTextType client)] ++ [0; 0; 0]
       ++ encodeU32 (u32 len) ++ take (Z.to_nat len) str).
Proof.
  unfold Writer.writeCutText, Writer.bind, Writer.startMsg, Writer.writeU8,
    Writer.pad, Writer.writeU32, Writer.writeBytes, Writer.endMsg,
    Writer.flushStream, Writer.ret.
  simpl replicate. rewrite <- !app_assoc. reflexivity.
Qed.

(** X1: a text of at most [maxCutText] bytes written by [writeCutText]
    is handed by [readCutText] to [cutText] unchanged, and the reader
    stops right behind the message. *)
Theorem cutText_round_trip (str : list Z) (len : Z) :
  0 <= maxCutText < 2 ^ 31 ->
  Z.of_nat (length str) = len ->
  len <= maxCutText ->
  exists type body,
    Writer.writeCutText client str len [] = (inr tt, type :: body) /\
    forall rest cs,
      readCutText maxCutText (mkRState (body ++ rest) cs)
      = (inr tt, mkRState rest (cs ++ [CutText str len])).
Proof.
  intros Hmax Hlen Hfit. rewrite writeCutText_bytes.
  exists (u8 (Writer.cutTextType client)),
    ([0; 0; 0] ++ encodeU32 (u32 len) ++ take (Z.to_nat len) str).
  split; [reflexivity|]. intros rest cs.
  subst len. rewrite Nat2Z.id, firstn_all, u32_small by lia.
  destruct (readCutText_cases maxCutText (Z.of_nat (length str)) str rest cs
              ltac:(lia) Hmax) as (_ & _ & Hdeliver).
  rewrite <- !app_assoc. apply Hdeliver; [exact Hfit|reflexivity].
Qed.

(** X2: a text longer than [maxCutText] written by [writeCutText] is
    dropped by [readCutText]: [cutText] is not called, nothing is
    thrown, and the reader stops right behind the message, so the
    stream stays framed. *)
Theorem cutText_oversized_dropped (str : list Z) (len : Z) :
  0 <= maxCutText < 2 ^ 31 ->
  Z.of_nat (length str) = len ->
  maxCutText < len < 2 ^ 31 ->
  exists type body,
    Writer.writeCutText client str len [] = (inr tt, type :: body) /\
    forall rest cs,
      readCutText maxCutText (mkRState (body ++ rest) cs)
      = (inr tt, mkRState rest cs).
Proof.
  intros Hmax Hlen Hbig. rewrite writeCutText_bytes.
  exists (u8 (Writer.cutTextType client)),
    ([0; 0; 0] ++ encodeU32 (u32 len) ++ take (Z.to_nat len) str).
  split; [reflexivity|]. intros rest cs.
  subst len. rewrite Nat2Z.id, firstn_all, u32_small by lia.
  destruct (readCutText_cases maxCutText (Z.of_nat (length str)) str rest cs
              ltac:(lia) Hmax) as (_ & Hdrop & _).
  rewrite <- !app_assoc. apply Hdrop; [lia|lia|reflexivity].
Qed.


End CutTextTrip.

(** [cutText_round_trip] on the text "hi" under the default limit. *)
Lemma cutText_round_trip_witness :
  exists type body,
    Wire.Writer.writeCutText (K := Wire.rfbConsts) false [104; 105] 2 []
    = (inr tt, type :: body) /\
    Wire.Reader.readCutText (K := Wire.rfbConsts) (Zl := Wire.storedZlib)
      262144 (Wire.Reader.mkRState (body ++ [7]) [])
    = (inr tt, Wire.Reader.mkRState [7] ([] ++ [Wire.CutText [104; 105] 2])).
Proof.
  destruct (cutText_round_trip (K := Wire.rfbConsts) (Zl := Wire.storedZlib)
              262144 false [104; 105] 2)
    as (type & body & Hw & Hr).
  - lia.
  - reflexivity.
  - lia.
  - exists type, body. split; [exact Hw|apply Hr].
Defined.

(** [cutText_oversized_dropped] on a text of three bytes with
    [MaxCutText] set to 2. *)
Lemma cutText_oversized_dropped_witness :
  exists type body,
    Wire.Writer.writeCutText (K := Wire.rfbConsts) false [104; 105; 33] 3 []
    = (inr tt, type :: body) /\
    Wire.Reader.readCutText (K := Wire.rfbConsts) (Zl := Wire.storedZlib)
      2 (Wire.Reader.mkRState (body ++ [7]) [])
    = (inr tt, Wire.Reader.mkRState [7] []).
Proof.
  destruct (cutText_oversized_dropped (K := Wire.rfbConsts)
              (Zl := Wire.storedZlib) 2 false [104; 105; 33] 3)
    as (type & body & Hw & Hr).
  - lia.
  - reflexivity.
  - lia.
  - exists type, body. split; [exact Hw|apply Hr].
Defined.


Section ConstFacts.

Import Wire Protocol.

Context `{K : ProtocolConsts}.

Hypothesis consts : wellFormed K.

Lemma lor_u32 a b :
  0 <= a < 2 ^ 32 -> 0 <= b < 2 ^ 32 -> 0 <= Z.lor a b < 2 ^ 32.
Proof.
  intros Ha Hb. split; [apply Z.lor_nonneg; lia|].
  destruct (Z.eq_dec (Z.lor a b) 0) as [->|Hnz]; [lia|].
  apply Z.log2_lt_pow2.
  - assert (0 <= Z.lor a b) by (apply Z.lor_nonneg; lia). lia.
  - rewrite Z.log2_lor by lia.
    apply Z.max_lub_lt.
    + destruct (Z.eq_dec a 0) as [->|]; [simpl; lia|].
      apply Z.log2_lt_pow2; lia.
    + destruct (Z.eq_dec b 0) as [->|]; [simpl; lia|].
      apply Z.log2_lt_pow2; lia.
Qed.

(** The action mask has none of the 16 format bits. *)
Lemma mask_low_bits i :
  0 <= i < 16 -> Z.testbit clipboardActionMask i = false.
Proof.
  intros Hi. pose proof (mask_formats consts) as Hm.
  assert (Ht : Z.testbit (Z.land clipboardActionMask 65535) i = false)
    by (rewrite Hm; apply Z.bits_0).
  rewrite Z.land_spec in Ht.
  change 65535 with (Z.ones 16) in Ht.
  rewrite Z.ones_spec_low, andb_true_r in Ht by lia. exact Ht.
Qed.

(** Flags made of format bits have an empty action field. *)
Lemma formats_no_action flags :
  0 <= flags < 2 ^ 16 -> Z.land flags clipboardActionMask = 0.
Proof.
  intros Hf. apply Z.bits_inj'. intros n Hn.
  rewrite Z.land_spec, Z.bits_0.
  destruct (Z_lt_le_dec n 16).
  - rewrite mask_low_bits by lia. apply andb_false_r.
  - rewrite (Z.bits_above_log2 flags n); [reflexivity|lia|].
    destruct (Z.eq_dec flags 0) as [->|]; [simpl; lia|].
    assert (Z.log2 flags < 16) by (apply Z.log2_lt_pow2; lia). lia.
Qed.

(** The action field of format flags with one action or with
    [clipboardCaps] added is that action. *)
Lemma action_of_lor flags b :
  0 <= flags < 2 ^ 16 ->
  Z.land b clipboardActionMask = b ->
  Z.land (Z.lor flags b) clipboardActionMask = b.
Proof.
  intros Hf Hb.
  rewrite Z.land_lor_distr_l, formats_no_action, Hb by assumption.
  apply Z.lor_0_l.
Qed.

(** A bit inside the mask does not change the format bits. *)
Lemma bitSet_lor_action flags b i :
  0 <= i < 16 ->
  Z.land b clipboardActionMask = b ->
  bitSet (Z.lor flags b) i = bitSet flags i.
Proof.
  intros Hi Hb. rewrite !bitSet_testbit by lia.
  rewrite Z.lor_spec, <- Hb, Z.land_spec, mask_low_bits by lia.
  rewrite andb_false_r. apply orb_false_r.
Qed.

Lemma formatBits_low : Forall (fun i => 0 <= i < 16) formatBits.
Proof. repeat constructor; lia. Qed.

Lemma setFormats_lor_action flags b :
  Z.land b clipboardActionMask = b ->
  Codec.setFormats (Z.lor flags b) = Codec.setFormats flags.
Proof.
  intros Hb. unfold Codec.setFormats. apply List.filter_ext_in.
  intros i Hi. pose proof formatBits_low as Hlow.
  rewrite List.Forall_forall in Hlow.
  apply bitSet_lor_action; auto.
Qed.

Lemma countFormats_lor_action flags b :
  Z.land b clipboardActionMask = b ->
  countFormats (Z.lor flags b) = countFormats flags.
Proof.
  intros Hb. rewrite !countFormats_setFormats, setFormats_lor_action
    by assumption.
  reflexivity.
Qed.

(** What is known of each of the four actions. *)
Lemma action_facts b :
  In b actionBits ->
  0 <= b < 2 ^ 32 /\ Z.land b clipboardActionMask = b /\
  Z.land b clipboardCaps = 0.
Proof.
  intros Hin. pose proof (actions_in_mask consts) as Ha.
  rewrite List.Forall_forall in Ha. apply Ha. exact Hin.
Qed.

End ConstFacts.

(** The constants of the protocol have the shape the codec needs. *)
Lemma rfbConsts_wellFormed : Protocol.wellFormed Wire.rfbConsts.
Proof.
  constructor.
  - reflexivity.
  - simpl. lia.
  - reflexivity.
  - repeat constructor; simpl; lia.
  - repeat constructor; simpl; intuition discriminate.
Qed.

Section ActionTrip.

Import Wire Wire.Reader Protocol.

Context `{K : ProtocolConsts} `{Zl : Zlib}.

Hypothesis consts : wellFormed K.

Variable maxCutText : Z.
Hypothesis maxCutText_range : 4 <= maxCutText < 2 ^ 31.

Lemma actions_differ :
  clipboardRequest <> clipboardPeek /\
  clipboardRequest <> clipboardNotify /\
  clipboardRequest <> clipboardProvide /\
  clipboardPeek <> clipboardNotify /\
  clipboardPeek <> clipboardProvide /\
  clipboardNotify <> clipboardProvide.
Proof.
  pose proof (actions_distinct consts) as Hnd. unfold actionBits in Hnd.
  inversion Hnd as [|? ? H1 Hnd1]; subst.
  inversion Hnd1 as [|? ? H2 Hnd2]; subst.
  inversion Hnd2 as [|? ? H3 Hnd3]; subst.
  simpl in H1, H2, H3. intuition congruence.
Qed.

(** The dispatch of [readExtendedClipboard] on a message of length 4
    whose action field is [b], one of request, peek and notify. *)
Lemma read_action_message flags b rest cs :
  0 <= flags < 2 ^ 32 ->
  Z.land flags clipboardActionMask = b ->
  In b [clipboardRequest; clipboardPeek; clipboardNotify] ->
  readExtendedClipboard maxCutText 4 (mkRState (encodeU32 flags ++ rest) cs)
  = (inr tt,
     mkRState rest
       (cs ++ [if b =? clipboardRequest then ClipboardRequest flags
               else if b =? clipboardPeek then ClipboardPeek flags
               else ClipboardNotify flags])).
Proof.
  intros Hf Hact Hin.
  destruct actions_differ as (Hrp & Hrn & Hrv & Hpn & Hpv & Hnv).
  assert (Hb : In b actionBits) by (unfold actionBits; simpl in *; tauto).
  destruct (action_facts consts b Hb) as (_ & _ & Hcaps).
  unfold readExtendedClipboard.
  change (4 <? 4) with false. cbv iota.
  destruct (Z.gtb_spec 4 maxCutText); [lia|].
  unfold bind at 1. rewrite readU32_encodeU32 by assumption.
  rewrite Hact, Hcaps. change (0 =? 0) with true. cbn [negb].
  assert (Hnp : (b =? clipboardProvide) = false).
  { apply Z.eqb_neq. simpl in Hin.
    destruct Hin as [<-|[<-|[<-|[]]]]; assumption. }
  rewrite Hnp.
  destruct (Z.eqb_spec b clipboardRequest); [reflexivity|].
  destruct (Z.eqb_spec b clipboardPeek); [reflexivity|].
  destruct (Z.eqb_spec b clipboardNotify); [reflexivity|].
  simpl in Hin. exfalso. intuition congruence.
Qed.

(** A message written by [writeClipboardAction], read back. *)
Lemma action_message_trip client cp a b flags :
  supportsExtendedClipboard cp = true ->
  Z.land (clipboardFlags cp) b <> 0 ->
  0 <= flags < 2 ^ 16 ->
  In b [clipboardRequest; clipboardPeek; clipboardNotify] ->
  exists type body,
    Writer.writeClipboardAction client cp a b flags []
    = (inr tt, type :: body) /\
    forall rest cs,
      readCutText maxCutText (mkRState (body ++ rest) cs)
      = (inr tt,
         mkRState rest
           (cs ++ [if b =? clipboardRequest
                   then ClipboardRequest (Z.lor flags b)
                   else if b =? clipboardPeek
                        then ClipboardPeek (Z.lor flags b)
                        else ClipboardNotify (Z.lor flags b)])).
Proof.
  intros Hext Hbit Hf Hin.
  assert (Hb : In b actionBits) by (unfold actionBits; simpl in *; tauto).
  destruct (action_facts consts b Hb) as (Hbr & Hbm & _).
  assert (Hlor : 0 <= Z.lor flags b < 2 ^ 32) by (apply lor_u32; lia).
  rewrite writeClipboardAction_capable by assumption.
  exists (u8 (Writer.cutTextType client)),
    ([0; 0; 0] ++ encodeU32 4294967292 ++ encodeU32 (Z.lor flags b)).
  split.
  - rewrite (u32_small (Z.lor flags b)) by exact Hlor.
    rewrite <- !app_assoc. reflexivity.
  - intros rest cs. rewrite <- !app_assoc.
    destruct (readCutText_cases maxCutText 4294967292 []
                (encodeU32 (Z.lor flags b) ++ rest) cs ltac:(lia)
                ltac:(lia)) as ((_ & Hhigh) & _); [lia|].
    rewrite Hhigh. change (2 ^ 32 - 4294967292) with 4.
    apply read_action_message; [exact Hlor| |exact Hin].
    apply action_of_lor; assumption.
Qed.

(** X3: a request, peek or notify message written for a peer that
    advertises the action comes out of [readCutText] as one call of the
    handler of that action, with the format flags and the action's bit. *)
Theorem clipboard_action_round_trip (client : bool) (cp : ConnParams)
    (flags : Z) :
  supportsExtendedClipboard cp = true ->
  0 <= flags < 2 ^ 16 ->
  (Z.land (clipboardFlags cp) clipboardRequest <> 0 ->
   exists type body,
     Writer.writeClipboardRequest client cp flags [] = (inr tt, type :: body) /\
     forall rest cs,
       readCutText maxCutText (mkRState (body ++ rest) cs)
       = (inr tt,
          mkRState rest
            (cs ++ [ClipboardRequest (Z.lor flags clipboardRequest)]))) /\
  (Z.land (clipboardFlags cp) clipboardPeek <> 0 ->
   exists type body,
     Writer.writeClipboardPeek client cp flags [] = (inr tt, type :: body) /\
     forall rest cs,
       readCutText maxCutText (mkRState (body ++ rest) cs)
       = (inr tt,
          mkRState rest (cs ++ [ClipboardPeek (Z.lor flags clipboardPeek)]))) /\
  (Z.land (clipboardFlags cp) clipboardNotify <> 0 ->
   exists type body,
     Writer.writeClipboardNotify client cp flags [] = (inr tt, type :: body) /\
     forall rest cs,
       readCutText maxCutText (mkRState (body ++ rest) cs)
       = (inr tt,
          mkRState rest
            (cs ++ [ClipboardNotify (Z.lor flags clipboardNotify)]))).
Proof.
  intros Hext Hf.
  destruct actions_differ as (Hrp & Hrn & Hrv & Hpn & Hpv & Hnv).
  split; [|split]; intros Hbit.
  - destruct (action_message_trip client cp ActRequest clipboardRequest flags
                Hext Hbit Hf ltac:(simpl; tauto))
      as (type & body & Hw & Hr).
    exists type, body. split; [exact Hw|].
    intros rest cs. rewrite Hr, Z.eqb_refl. reflexivity.
  - destruct (action_message_trip client cp ActPeek clipboardPeek flags
                Hext Hbit Hf ltac:(simpl; tauto))
      as (type & body & Hw & Hr).
    exists type, body. split; [exact Hw|].
    intros rest cs. rewrite Hr, Z.eqb_refl.
    destruct (Z.eqb_spec clipboardPeek clipboardRequest);
      [congruence|reflexivity].
  - destruct (action_message_trip client cp ActNotify clipboardNotify flags
                Hext Hbit Hf ltac:(simpl; tauto))
      as (type & body & Hw & Hr).
    exists type, body. split; [exact Hw|].
    intros rest cs. rewrite Hr.
    destruct (Z.eqb_spec clipboardNotify clipboardRequest); [congruence|].
    destruct (Z.eqb_spec clipboardNotify clipboardPeek);
      [congruence|reflexivity].
Qed.

End ActionTrip.

(** [clipboard_action_round_trip] on a request for format 0, with the
    constants of the protocol and the default [MaxCutText]. *)
Lemma clipboard_action_round_trip_witness :
  exists type body,
    Wire.Writer.writeClipboardRequest (K := Wire.rfbConsts) false
      Concrete.plainPeer 1 [] = (inr tt, type :: body) /\
    Wire.Reader.readCutText (K := Wire.rfbConsts) (Zl := Wire.storedZlib)
      262144 (Wire.Reader.mkRState (body ++ [7]) [])
    = (inr tt,
       Wire.Reader.mkRState [7] ([] ++ [Wire.ClipboardRequest 33554433])).
Proof.
  destruct (clipboard_action_round_trip (K := Wire.rfbConsts)
              (Zl := Wire.storedZlib) rfbConsts_wellFormed 262144
              ltac:(lia) false Concrete.plainPeer 1)
    as (Hreq & _).
  - reflexivity.
  - lia.
  - destruct Hreq as (type & body & Hw & Hr).
    + vm_compute. discriminate.
    + exists type, body. split; [exact Hw|apply Hr].
Defined.

Section CapsTrip.

Import Wire Wire.Reader Protocol.

Context `{K : ProtocolConsts} `{Zl : Zlib}.

Hypothesis consts : wellFormed K.

Variable maxCutText : Z.

(** The loop of [writeClipboardCaps] writes the limits of the set
    formats, in order. *)
Lemma capsWriteLoop caps lengths bits :
  forall done todo os,
    lengths = done ++ todo ->
    length todo = length (List.filter (bitSet caps) bits) ->
    Writer.forEach bits
      (fun i count =>
         if bitSet caps i then
           Writer.bind (Writer.writeU32 (default 0 (lengths !! count)))
             (fun _ => Writer.ret (S count))
         else Writer.ret count) (length done) os
    = (inr (length done + length todo)%nat,
       os ++ concat (map (fun l => encodeU32 (u32 l)) todo)).
Proof.
  induction bits as [|i bits IH]; intros done todo os Hl Hlen.
  - simpl in Hlen. destruct todo; [|discriminate].
    simpl. unfold Writer.ret. rewrite Nat.add_0_r, app_nil_r. reflexivity.
  - simpl in Hlen. simpl Writer.forEach. unfold Writer.bind at 1.
    destruct (bitSet caps i).
    + destruct todo as [|l todo]; [discriminate|].
      simpl in Hlen. injection Hlen as Hlen.
      assert (Hlook : lengths !! length done = Some l)
        by (subst lengths; apply list_lookup_middle; reflexivity).
      rewrite Hlook. simpl default.
      unfold Writer.bind at 1, Writer.writeU32, Writer.ret at 1.
      replace (S (length done)) with (length (done ++ [l]))
        by (rewrite length_app; simpl; lia).
      rewrite (IH (done ++ [l]) todo)
        by (rewrite <- ?app_assoc; assumption).
      rewrite length_app. simpl.
      rewrite <- !app_assoc.
      replace (length done + 1 + length todo)%nat
        with (length done + S (length todo))%nat by lia.
      reflexivity.
    + unfold Writer.ret at 1. apply IH; assumption.
Qed.

(** A Caps message of sufficient length is delivered. *)
Lemma read_caps_message len flags lens rest cs :
  0 <= flags < 2 ^ 32 ->
  Z.land (Z.land flags clipboardActionMask) clipboardCaps <> 0 ->
  len <= maxCutText ->
  4 + 4 * countFormats flags <= len ->
  Z.of_nat (length lens) = countFormats flags ->
  Forall (fun l => 0 <= l < 2 ^ 32) lens ->
  readExtendedClipboard maxCutText len
    (mkRState (encodeU32 flags ++ concat (map encodeU32 lens) ++ rest) cs)
  = (inr tt,
     mkRState rest
       (cs ++ [ClipboardCaps flags
                 (map Some lens ++ replicate (16 - length lens) None)])).
Proof.
  intros Hf Hcaps Hmax Hlong Hlens Hrange.
  pose proof (setFormats_le_16 flags) as H16.
  pose proof (countFormats_setFormats flags) as Hn.
  unfold readExtendedClipboard.
  destruct (Z.ltb_spec len 4); [lia|].
  destruct (Z.gtb_spec len maxCutText); [lia|].
  unfold bind at 1. rewrite readU32_encodeU32 by assumption.
  destruct (Z.eqb_spec (Z.land (Z.land flags clipboardActionMask)
                          clipboardCaps) 0); [contradiction|].
  cbn [negb].
  assert (Hs32 : s32 (4 + 4 * countFormats flags) = 4 + 4 * countFormats flags).
  { unfold s32. rewrite Z.mod_small by lia. lia. }
  rewrite Hs32.
  destruct (Z.ltb_spec len (4 + 4 * countFormats flags)); [lia|].
  unfold bind at 1.
  assert (Hl : length lens = length (List.filter (bitSet flags) formatBits))
    by (unfold Codec.setFormats in Hn; lia).
  pose proof (capsLoop flags formatBits [] lens (16 - length lens) rest cs
                Hl Hrange) as Hloop.
  simpl map in Hloop at 1. simpl app in Hloop at 1.
  replace (length lens + (16 - length lens))%nat with 16%nat in Hloop
    by (unfold Codec.setFormats in H16; lia).
  simpl length in Hloop at 1.
  rewrite Hloop. reflexivity.
Qed.

(** X4: the capabilities written by [writeClipboardCaps], one limit per
    format bit set in [caps], come out of [readCutText] as one call of
    [clipboardCaps] with the same flags (and the Caps bit) and the same
    limits in the first slots of the array. *)
Theorem clipboard_caps_round_trip (client : bool) (cp : ConnParams)
    (caps : Z) (lengths : list Z) :
  supportsExtendedClipboard cp = true ->
  0 <= caps < 2 ^ 16 ->
  Z.of_nat (length lengths) = countFormats caps ->
  Forall (fun l => 0 <= l < 2 ^ 32) lengths ->
  4 + 4 * countFormats caps <= maxCutText < 2 ^ 31 ->
  exists type body,
    Writer.writeClipboardCaps client cp caps lengths []
    = (inr tt, type :: body) /\
    forall rest cs,
      readCutText maxCutText (mkRState (body ++ rest) cs)
      = (inr tt,
         mkRState rest
           (cs ++ [ClipboardCaps (Z.lor caps clipboardCaps)
                     (map Some lengths
                        ++ replicate (16 - length lengths) None)])).
Proof.
  intros Hext Hcaps Hlen Hrange Hmax.
  pose proof (setFormats_le_16 caps) as H16.
  pose proof (countFormats_setFormats caps) as Hn.
  pose proof (caps_range consts) as Hcr.
  pose proof (caps_in_mask consts) as Hcm.
  assert (Hlor : 0 <= Z.lor caps clipboardCaps < 2 ^ 32)
    by (apply lor_u32; lia).
  set (n := countFormats caps) in *.
  assert (Hloop :
    Writer.forEach formatBits
      (fun i count =>
         if bitSet caps i then
           Writer.bind (Writer.writeU32 (default 0 (lengths !! count)))
             (fun _ => Writer.ret (S count))
         else Writer.ret count) 0%nat
      ([u8 (Writer.cutTextType client)] ++ [0; 0; 0]
         ++ encodeU32 (2 ^ 32 - (4 + 4 * n))
         ++ encodeU32 (Z.lor caps clipboardCaps))
    = (inr (length lengths),
       ([u8 (Writer.cutTextType client)] ++ [0; 0; 0]
          ++ encodeU32 (2 ^ 32 - (4 + 4 * n))
          ++ encodeU32 (Z.lor caps clipboardCaps))
         ++ concat (map (fun l => encodeU32 (u32 l)) lengths))).
  { apply (capsWriteLoop caps lengths formatBits [] lengths);
      [reflexivity|].
    unfold Codec.setFormats in Hn. lia. }
  assert (Hu : forall l, In l lengths -> u32 l = l).
  { intros l Hl. rewrite List.Forall_forall in Hrange.
    apply u32_small, Hrange, Hl. }
  rewrite (map_ext_in _ encodeU32) in Hloop
    by (intros l Hl; rewrite (Hu l Hl); reflexivity).
  exists (u8 (Writer.cutTextType client)),
    ([0; 0; 0] ++ encodeU32 (2 ^ 32 - (4 + 4 * n))
       ++ encodeU32 (Z.lor caps clipboardCaps)
       ++ concat (map encodeU32 lengths)).
  split.
  - unfold Writer.writeClipboardCaps. rewrite Hext. cbn [negb].
    fold n.
    unfold Writer.bind at 1, Writer.startMsg, Writer.writeU8.
    unfold Writer.bind at 1, Writer.pad.
    unfold Writer.bind at 1, Writer.writeS32, Writer.writeU32.
    unfold Writer.bind at 1. unfold Writer.bind at 1.
    assert (Hneg : u32 (u32 (- (4 + 4 * n))) = 2 ^ 32 - (4 + 4 * n)).
    { unfold u32. rewrite Z.mod_mod by lia.
      symmetry. apply Z.mod_unique with (-1); lia. }
    rewrite Hneg, (u32_small (Z.lor caps clipboardCaps)) by exact Hlor.
    simpl replicate. rewrite <- !app_assoc.
    change ([] ++ ?l) with l.
    rewrite <- !app_assoc in Hloop. unfold Writer.writeU32 in Hloop.
    rewrite Hloop. reflexivity.
  - intros rest cs. rewrite <- !app_assoc.
    destruct (readCutText_cases maxCutText (2 ^ 32 - (4 + 4 * n)) []
                (encodeU32 (Z.lor caps clipboardCaps)
                   ++ concat (map encodeU32 lengths) ++ rest) cs
                ltac:(lia) ltac:(lia)) as ((_ & Hhigh) & _); [lia|].
    rewrite Hhigh.
    replace (2 ^ 32 - (2 ^ 32 - (4 + 4 * n))) with (4 + 4 * n) by lia.
    assert (Hcount : countFormats (Z.lor caps clipboardCaps) = n)
      by (apply countFormats_lor_action; assumption).
    apply read_caps_message; rewrite ?Hcount; try lia; try assumption.
    rewrite (action_of_lor consts) by assumption.
    rewrite Z.land_diag. lia.
Qed.

End CapsTrip.

(** [clipboard_caps_round_trip] on the limits 20 and 0 for the formats 0
    and 1. *)
Lemma clipboard_caps_round_trip_witness :
  exists type body,
    Wire.Writer.writeClipboardCaps (K := Wire.rfbConsts) false
      Concrete.plainPeer 3 [20; 0] [] = (inr tt, type :: body) /\
    Wire.Reader.readCutText (K := Wire.rfbConsts) (Zl := Wire.storedZlib)
      262144 (Wire.Reader.mkRState (body ++ [7]) [])
    = (inr tt,
       Wire.Reader.mkRState [7]
         ([] ++ [Wire.ClipboardCaps 16777219
                   ([Some 20; Some 0] ++ replicate 14 None)])).
Proof.
  destruct (clipboard_caps_round_trip (K := Wire.rfbConsts)
              (Zl := Wire.storedZlib) rfbConsts_wellFormed 262144
              false Concrete.plainPeer 3 [20; 0])
    as (type & body & Hw & Hr).
  - reflexivity.
  - lia.
  - reflexivity.
  - repeat constructor; lia.
  - vm_compute. split; [discriminate|reflexivity].
  - exists type, body. split; [exact Hw|apply Hr].
Defined.

Section ProvideTrip.

Import Wire Wire.Reader Protocol Codec.

Context `{K : ProtocolConsts} `{Zl : Zlib}.

Hypothesis consts : wellFormed K.

Variable maxCutText : Z.
Hypothesis maxCutText_range : 0 <= maxCutText < 2 ^ 31.

(** The loop of [writeClipboardProvide] writes one record per set
    format, in order. *)
Lemma provideWriteLoop flags lengths data bits :
  forall done todo os,
    lengths = map fst (done ++ todo) ->
    data = map snd (done ++ todo) ->
    length todo = length (List.filter (bitSet flags) bits) ->
    Forall (fun r => 0 <= fst r < 2 ^ 32 /\
                     Z.of_nat (length (snd r)) = fst r) todo ->
    Writer.forEach bits
      (fun i count =>
         if negb (bitSet flags i) then Writer.ret count
         else
           Writer.bind (Writer.writeU32 (default 0 (lengths !! count)))
             (fun _ =>
                Writer.bind
                  (Writer.writeBytes (default [] (data !! count))
                     (default 0 (lengths !! count)))
                  (fun _ => Writer.ret (S count)))) (length done) os
    = (inr (length done + length todo)%nat,
       os ++ concat (map provideRecord todo)).
Proof.
  induction bits as [|i bits IH]; intros done todo os Hl Hd Hlen Hwf.
  - simpl in Hlen. destruct todo; [|discriminate].
    simpl. unfold Writer.ret. rewrite Nat.add_0_r, app_nil_r. reflexivity.
  - simpl in Hlen. simpl Writer.forEach. unfold Writer.bind at 1.
    destruct (bitSet flags i); cbn [negb].
    + destruct todo as [|[l d] todo]; [discriminate|].
      simpl in Hlen. injection Hlen as Hlen.
      apply Forall_cons_1 in Hwf. destruct Hwf as [[Hlr Hld] Hwf].
      simpl in Hlr, Hld.
      assert (Hlook : lengths !! length done = Some l).
      { subst lengths. rewrite map_app. simpl.
        apply list_lookup_middle. rewrite length_map. reflexivity. }
      assert (Hlookd : data !! length done = Some d).
      { subst data. rewrite map_app. simpl.
        apply list_lookup_middle. rewrite length_map. reflexivity. }
      rewrite Hlook, Hlookd. simpl default.
      unfold Writer.bind at 1, Writer.writeU32.
      unfold Writer.bind at 1, Writer.writeBytes, Writer.ret at 1.
      replace (S (length done)) with (length (done ++ [(l, d)]))
        by (rewrite length_app; simpl; lia).
      rewrite (IH (done ++ [(l, d)]) todo)
        by (rewrite <- ?app_assoc; assumption).
      rewrite length_app. simpl length.
      rewrite <- Hld at 2. rewrite Nat2Z.id, firstn_all, u32_small by lia.
      change (concat (map provideRecord ((l, d) :: todo)))
        with ((encodeU32 l ++ d) ++ concat (map provideRecord todo)).
      rewrite <- !app_assoc.
      replace (length done + 1 + length todo)%nat
        with (length done + S (length todo))%nat by lia.
      reflexivity.
    + unfold Writer.ret at 1. apply IH; assumption.
Qed.

(** When every record fits, none is dropped. *)
Lemma all_fit_kept bits recs :
  Forall (fun r => fst r <= maxCutText) recs ->
  length recs = length bits ->
  droppedOf maxCutText bits recs = [] /\
  map (fun fr => Some (fst (snd fr))) (keptOf maxCutText bits recs)
  = map (fun r => Some (fst r)) recs /\
  map (fun fr => Some (snd (snd fr))) (keptOf maxCutText bits recs)
  = map (fun r => Some (snd r)) recs /\
  length (keptOf maxCutText bits recs) = length recs.
Proof.
  intros Hfit. revert bits.
  induction Hfit as [|r recs Hr Hfit IH]; intros bits Hlen.
  - destruct bits; [|discriminate]. repeat split.
  - destruct bits as [|i bits]; [discriminate|].
    simpl in Hlen. injection Hlen as Hlen.
    destruct (IH bits Hlen) as (Hd & Hl & Hb & Hn).
    unfold droppedOf, keptOf, fits in *. simpl combine.
    simpl List.filter. simpl snd at 1 3 5 7.
    destruct (Z.leb_spec (fst r) maxCutText); [|lia]. simpl.
    rewrite Hd, Hl, Hb, Hn. repeat split.
Qed.

(** A Provide message with whole records, read by
    [readExtendedClipboard]. *)
Lemma read_provide_message len flags recs compressed rest cs :
  4 <= len <= maxCutText ->
  0 <= flags < 2 ^ 32 ->
  Z.land (Z.land flags clipboardActionMask) clipboardCaps = 0 ->
  Z.land flags clipboardActionMask = clipboardProvide ->
  Z.of_nat (length compressed) = len - 4 ->
  inflate compressed = concat (map provideRecord recs) ->
  length recs = length (setFormats flags) ->
  Forall (fun r => 0 <= fst r < 2 ^ 32 /\
                   Z.of_nat (length (snd r)) = fst r) recs ->
  exists st',
    readExtendedClipboard maxCutText len
      (mkRState (encodeU32 flags ++ compressed ++ rest) cs)
    = (inr tt,
       mkRState rest
         (cs ++ [ClipboardProvide (p_flags st') (p_lengths st')
                   (p_buffers st')])) /\
    p_flags st'
    = fold_left clearBit (droppedOf maxCutText (setFormats flags) recs)
        flags /\
    take (length (keptOf maxCutText (setFormats flags) recs))
      (p_lengths st')
    = map (fun fr => Some (fst (snd fr)))
        (keptOf maxCutText (setFormats flags) recs) /\
    take (length (keptOf maxCutText (setFormats flags) recs))
      (p_buffers st')
    = map (fun fr => Some (snd (snd fr)))
        (keptOf maxCutText (setFormats flags) recs).
Proof.
  intros Hlen Hflags Hcaps Hact Hcomp Hinf Hrecs Hwf.
  pose proof (setFormats_le_16 flags) as H16.
  destruct (provideLoop maxCutText maxCutText_range formatBits
              formatBits_NoDup formatBits_range recs
              (mkProvide flags 0 (replicate 16 None) (replicate 16 None))
              [] cs)
    as (st' & Hrun & Hf & Hnum & Hls & Hbs & _ & _).
  { exact Hrecs. }
  { exact Hwf. }
  { simpl. unfold setFormats in *. lia. }
  { simpl. unfold setFormats in *. lia. }
  cbn [p_flags p_num p_lengths p_buffers] in Hf, Hnum, Hls, Hbs.
  rewrite firstn_O, app_nil_l in Hls. rewrite firstn_O, app_nil_l in Hbs.
  rewrite Nat.add_0_l in Hnum. rewrite app_nil_r in Hrun.
  fold (setFormats flags) in Hf, Hnum, Hls, Hbs.
  exists st'. split; [|split; [exact Hf|split]].
  - unfold readExtendedClipboard.
    destruct (Z.ltb_spec len 4); [lia|].
    destruct (Z.gtb_spec len maxCutText); [lia|].
    unfold bind at 1. rewrite readU32_encodeU32 by assumption.
    rewrite Hcaps, Hact. change (0 =? 0) with true. cbn [negb].
    rewrite Z.eqb_refl.
    unfold bind at 1, withZlib. cbn [input calls].
    rewrite <- Hcomp, length_app.
    destruct (Z.leb_spec (Z.of_nat (length compressed))
                (Z.of_nat (length compressed + length rest))); [|lia].
    rewrite Nat2Z.id, take_app_length, drop_app_length, Hinf, Hrun.
    reflexivity.
  - rewrite <- Hnum. exact Hls.
  - rewrite <- Hnum. exact Hbs.
Qed.

(** X5: clipboard data written by [writeClipboardProvide], one buffer
    per format bit set in [flags] and none longer than [maxCutText],
    comes out of [readCutText] as one call of [clipboardProvide] with
    the same flags (and the Provide bit), lengths and buffers, when the
    zlib stream gives back what was put in and the message fits
    [maxCutText]. *)
Theorem clipboard_provide_round_trip (client : bool) (cp : ConnParams)
    (flags : Z) (recs : list (Z * list Z)) :
  supportsExtendedClipboard cp = true ->
  Z.land (clipboardFlags cp) clipboardProvide <> 0 ->
  0 <= flags < 2 ^ 16 ->
  length recs = length (setFormats flags) ->
  Forall (fun r => 0 <= fst r < 2 ^ 32 /\
                   Z.of_nat (length (snd r)) = fst r) recs ->
  Forall (fun r => fst r <= maxCutText) recs ->
  inflate (deflate (concat (map provideRecord recs)))
  = concat (map provideRecord recs) ->
  4 + Z.of_nat (length (deflate (concat (map provideRecord recs))))
  <= maxCutText ->
  exists type body,
    Writer.writeClipboardProvide client cp flags (map fst recs)
      (map snd recs) [] = (inr tt, type :: body) /\
    forall rest cs,
      exists lengths buffers,
        readCutText maxCutText (mkRState (body ++ rest) cs)
        = (inr tt,
           mkRState rest
             (cs ++ [ClipboardProvide (Z.lor flags clipboardProvide)
                       lengths buffers])) /\
        take (length recs) lengths = map (fun r => Some (fst r)) recs /\
        take (length recs) buffers = map (fun r => Some (snd r)) recs.
Proof.
  intros Hext Hbit Hf Hrecs Hwf Hfit Hzlib Hmsg.
  set (inner := concat (map provideRecord recs)) in *.
  set (mos := deflate inner) in *.
  assert (Hp : In clipboardProvide actionBits)
    by (unfold actionBits; simpl; tauto).
  destruct (action_facts consts _ Hp) as (Hpr & Hpm & Hpc).
  assert (Hlor : 0 <= Z.lor flags clipboardProvide < 2 ^ 32)
    by (apply lor_u32; lia).
  assert (Hinner : Writer.provideRecords flags (map fst recs) (map snd recs) []
                   = (inr (length recs), inner)).
  { unfold Writer.provideRecords.
    pose proof (provideWriteLoop flags (map fst recs) (map snd recs)
                  formatBits [] recs [] eq_refl eq_refl Hrecs Hwf) as Hloop.
    simpl in Hloop. exact Hloop. }
  exists (u8 (Writer.cutTextType client)),
    ([0; 0; 0] ++ encodeU32 (2 ^ 32 - (4 + Z.of_nat (length mos)))
       ++ encodeU32 (Z.lor flags clipboardProvide) ++ mos).
  split.
  - unfold Writer.writeClipboardProvide. rewrite Hext. cbn [negb].
    destruct (Z.eqb_spec (Z.land (clipboardFlags cp) clipboardProvide) 0);
      [contradiction|].
    rewrite Hinner. cbn [snd]. fold mos.
    unfold Writer.bind, Writer.startMsg, Writer.writeU8, Writer.pad,
      Writer.writeS32, Writer.writeU32, Writer.writeBytes, Writer.endMsg,
      Writer.flushStream, Writer.ret.
    assert (Hneg : u32 (u32 (- (4 + Z.of_nat (length mos))))
                   = 2 ^ 32 - (4 + Z.of_nat (length mos))).
    { unfold u32. rewrite Z.mod_mod by lia.
      symmetry. apply Z.mod_unique with (-1); lia. }
    rewrite Hneg, (u32_small (Z.lor flags clipboardProvide)) by exact Hlor.
    rewrite Nat2Z.id, firstn_all.
    simpl replicate. rewrite <- !app_assoc. reflexivity.
  - intros rest cs. rewrite <- !app_assoc.
    destruct (readCutText_cases maxCutText
                (2 ^ 32 - (4 + Z.of_nat (length mos))) []
                (encodeU32 (Z.lor flags clipboardProvide) ++ mos ++ rest) cs
                ltac:(lia) maxCutText_range) as ((_ & Hhigh) & _); [lia|].
    rewrite Hhigh.
    replace (2 ^ 32 - (2 ^ 32 - (4 + Z.of_nat (length mos))))
      with (4 + Z.of_nat (length mos)) by lia.
    assert (Hset : setFormats (Z.lor flags clipboardProvide)
                   = setFormats flags)
      by (apply (setFormats_lor_action consts); exact Hpm).
    destruct (read_provide_message (4 + Z.of_nat (length mos))
                (Z.lor flags clipboardProvide) recs mos rest cs)
      as (st' & Hrun & Hflags & Hls & Hbs).
    { lia. }
    { exact Hlor. }
    { rewrite (action_of_lor consts) by assumption. exact Hpc. }
    { apply (action_of_lor consts); assumption. }
    { lia. }
    { exact Hzlib. }
    { rewrite Hset. exact Hrecs. }
    { exact Hwf. }
    rewrite Hset in Hflags, Hls, Hbs.
    destruct (all_fit_kept (setFormats flags) recs Hfit Hrecs)
      as (Hd & Hkl & Hkb & Hkn).
    rewrite Hd in Hflags. simpl in Hflags.
    rewrite Hkn, Hkl in Hls. rewrite Hkn, Hkb in Hbs.
    exists (p_lengths st'), (p_buffers st').
    rewrite Hrun, Hflags. repeat split; assumption.
Qed.

End ProvideTrip.

(** [clipboard_provide_round_trip] on the text "hi" for format 0, with a
    zlib stand-in that stores the bytes. *)
Lemma clipboard_provide_round_trip_witness :
  exists type body lengths buffers,
    Wire.Writer.writeClipboardProvide (K := Wire.rfbConsts)
      (Zl := Wire.storedZlib) false Concrete.plainPeer 1 [2] [[104; 105]] []
    = (inr tt, type :: body) /\
    Wire.Reader.readCutText (K := Wire.rfbConsts) (Zl := Wire.storedZlib)
      262144 (Wire.Reader.mkRState (body ++ [7]) [])
    = (inr tt,
       Wire.Reader.mkRState [7]
         ([] ++ [Wire.ClipboardProvide 268435457 lengths buffers])) /\
    take 1 lengths = [Some 2] /\
    take 1 buffers = [Some [104; 105]].
Proof.
  destruct (clipboard_provide_round_trip (K := Wire.rfbConsts)
              (Zl := Wire.storedZlib) rfbConsts_wellFormed 262144
              ltac:(lia) false Concrete.plainPeer 1 [(2, [104; 105])])
    as (type & body & Hw & Hr).
  - reflexivity.
  - vm_compute. discriminate.
  - lia.
  - reflexivity.
  - repeat constructor; simpl; lia.
  - repeat constructor; simpl; lia.
  - reflexivity.
  - vm_compute. discriminate.
  - destruct (Hr [7] []) as (lengths & buffers & Hrun & Hl & Hb).
    exists type, body, lengths, buffers.
    split; [exact Hw|]. split; [exact Hrun|]. split; [exact Hl|exact Hb].
Defined.

Section WriterFraming.

Import Wire Wire.Writer Framing.

Lemma appends_ret {A} (a : A) : appends (ret a).
Proof. exists a, []. intros os. unfold ret. rewrite app_nil_r. reflexivity. Qed.

Lemma appends_bind {A B} (m : W A) (k : A -> W B) :
  appends m -> (forall a, appends (k a)) -> appends (bind m k).
Proof.
  intros (a & b1 & Hm) Hk. destruct (Hk a) as (b & b2 & Hka).
  exists b, (b1 ++ b2). intros os. unfold bind.
  rewrite Hm, Hka, app_assoc. reflexivity.
Qed.

Lemma appends_writeU8 v : appends (writeU8 v).
Proof. exists tt, [u8 v]. reflexivity. Qed.

Lemma appends_writeU32 v : appends (writeU32 v).
Proof. exists tt, (encodeU32 (u32 v)). reflexivity. Qed.

Lemma appends_writeS32 v : appends (writeS32 v).
Proof. apply appends_writeU32. Qed.

Lemma appends_pad n : appends (pad n).
Proof. exists tt, (replicate n 0). reflexivity. Qed.

Lemma appends_writeBytes d n : appends (writeBytes d n).
Proof. exists tt, (take (Z.to_nat n) d). reflexivity. Qed.

Lemma appends_forEach {St} idxs (body : Z -> St -> W St) :
  (forall i st, appends (body i st)) ->
  forall st, appends (forEach idxs body st).
Proof.
  intros Hbody. induction idxs as [|i idxs IH]; intros st; simpl.
  - apply appends_ret.
  - apply appends_bind; [apply Hbody|exact IH].
Qed.

Lemma atomic_throw {A} e : atomic (@throw A e).
Proof. left. exists e. reflexivity. Qed.

End WriterFraming.

Create HintDb framing.

#[local] Hint Resolve appends_ret appends_writeU8 appends_writeU32
  appends_writeS32 appends_pad appends_writeBytes : framing.

Ltac appending :=
  repeat first
    [ apply appends_bind; [|intros]
    | apply appends_forEach; intros
    | match goal with
      | |- Framing.appends (if ?b then _ else _) => destruct b
      end
    | solve [auto with framing] ].

Section WritersAtomic.

Import Wire Wire.Writer Framing.

Context `{K : ProtocolConsts} `{Zl : Zlib}.

Variable client : bool.
Variable cp : ConnParams.

(** X7: no writer of [MsgWriter] leaves part of a message on the
    stream.  Each of them either throws before its first byte, with the
    stream as it found it, or returns after appending the whole message,
    whose bytes do not depend on what the stream held before. *)
Theorem writers_atomic :
  (forall flags len data, atomic (writeFence client cp flags len data)) /\
  (forall str len, atomic (writeCutText client str len)) /\
  (forall caps lengths, atomic (writeClipboardCaps client cp caps lengths)) /\
  (forall flags, atomic (writeClipboardRequest client cp flags)) /\
  (forall flags, atomic (writeClipboardPeek client cp flags)) /\
  (forall flags, atomic (writeClipboardNotify client cp flags)) /\
  (forall flags lengths data,
     atomic (writeClipboardProvide client cp flags lengths data)).
Proof.
  assert (Hact : forall a bit flags,
             atomic (writeClipboardAction client cp a bit flags)).
  { intros a bit flags. unfold writeClipboardAction.
    destruct (negb (supportsExtendedClipboard cp)); [apply atomic_throw|].
    destruct (Z.land (clipboardFlags cp) bit =? 0); [apply atomic_throw|].
    right. unfold startMsg, endMsg, flushStream. appending. }
  repeat split; intros.
  - unfold writeFence.
    destruct (negb (supportsFence cp)); [apply atomic_throw|].
    destruct (len >? 64); [apply atomic_throw|].
    destruct (negb _); [apply atomic_throw|].
    right. unfold startMsg, endMsg, flushStream. appending.
  - right. unfold writeCutText, startMsg, endMsg, flushStream. appending.
  - unfold writeClipboardCaps.
    destruct (negb (supportsExtendedClipboard cp)); [apply atomic_throw|].
    right. unfold startMsg, endMsg, flushStream. appending.
  - apply Hact.
  - apply Hact.
  - apply Hact.
  - unfold writeClipboardProvide.
    destruct (negb (supportsExtendedClipboard cp)); [apply atomic_throw|].
    destruct (Z.land (clipboardFlags cp) clipboardProvide =? 0);
      [apply atomic_throw|].
    right. unfold startMsg, endMsg, flushStream. appending.
Qed.

End WritersAtomic.

Section ReaderFraming.

Import Wire Wire.Reader Framing.

Lemma silent_ret {A} (a : A) : silent (ret a).
Proof. intros s. reflexivity. Qed.

Lemma silent_throw {A} e : silent (@throw A e).
Proof. intros s. reflexivity. Qed.

Lemma silent_bind {A B} (m : M A) (k : A -> M B) :
  silent m -> (forall a, silent (k a)) -> silent (bind m k).
Proof.
  intros Hm Hk s. unfold bind. specialize (Hm s).
  destruct (m s) as [[e|a] s']; simpl in *; [exact Hm|].
  rewrite (Hk a s'). exact Hm.
Qed.

Lemma silent_skip n : silent (skip n).
Proof. intros s. unfold skip. destruct (n <=? _); reflexivity. Qed.

Lemma silent_readBytes n : silent (readBytes n).
Proof. intros s. unfold readBytes. destruct (n <=? _); reflexivity. Qed.

Lemma silent_readU8 : silent readU8.
Proof. intros s. unfold readU8. destruct (input s); reflexivity. Qed.

Lemma silent_readU32 : silent readU32.
Proof.
  unfold readU32.
  repeat (apply silent_bind; [apply silent_readU8|intros]).
  apply silent_ret.
Qed.

Lemma silent_forEach {St} idxs (body : Z -> St -> M St) :
  (forall i st, silent (body i st)) ->
  forall st, silent (forEach idxs body st).
Proof.
  intros Hbody. induction idxs as [|i idxs IH]; intros st; simpl.
  - apply silent_ret.
  - apply silent_bind; [apply Hbody|exact IH].
Qed.

Lemma silent_withZlib `{Zl : Zlib} {A} n (body : M A) :
  silent body -> silent (withZlib n body).
Proof.
  intros Hb s. unfold withZlib. destruct (n <=? _); [|reflexivity].
  specialize (Hb (mkRState (inflate (take (Z.to_nat n) (input s))) (calls s))).
  destruct (body _) as [r s']. simpl in *. exact Hb.
Qed.

Lemma consumes_ret {A} (a : A) : consumes (ret a).
Proof. intros s. exists []. reflexivity. Qed.

Lemma consumes_throw {A} e : consumes (@throw A e).
Proof. intros s. exists []. reflexivity. Qed.

Lemma consumes_bind {A B} (m : M A) (k : A -> M B) :
  consumes m -> (forall a, consumes (k a)) -> consumes (bind m k).
Proof.
  intros Hm Hk s. unfold bind. destruct (Hm s) as (t1 & H1).
  destruct (m s) as [[e|a] s']; simpl in *; [exists t1; exact H1|].
  destruct (Hk a s') as (t2 & H2).
  exists (t1 ++ t2). rewrite H1, H2, app_assoc. reflexivity.
Qed.

Lemma consumes_skip n : consumes (skip n).
Proof.
  intros s. unfold skip. destruct (n <=? _); simpl.
  - exists (take (Z.to_nat n) (input s)). symmetry. apply take_drop.
  - exists []. reflexivity.
Qed.

Lemma consumes_readBytes n : consumes (readBytes n).
Proof.
  intros s. unfold readBytes. destruct (n <=? _); simpl.
  - exists (take (Z.to_nat n) (input s)). symmetry. apply take_drop.
  - exists []. reflexivity.
Qed.

Lemma consumes_readU8 : consumes readU8.
Proof.
  intros s. unfold readU8. destruct (input s) as [|b rest] eqn:E; simpl.
  - exists []. symmetry. exact E.
  - exists [b]. reflexivity.
Qed.

Lemma consumes_readU32 : consumes readU32.
Proof.
  unfold readU32.
  repeat (apply consumes_bind; [apply consumes_readU8|intros]).
  apply consumes_ret.
Qed.

Lemma consumes_call c : consumes (call c).
Proof. intros s. exists []. reflexivity. Qed.

Lemma consumes_forEach {St} idxs (body : Z -> St -> M St) :
  (forall i st, consumes (body i st)) ->
  forall st, consumes (forEach idxs body st).
Proof.
  intros Hbody. induction idxs as [|i idxs IH]; intros st; simpl.
  - apply consumes_ret.
  - apply consumes_bind; [apply Hbody|exact IH].
Qed.

(** Whatever the body does with the inflated bytes, the underlying
    stream loses the compressed bytes and no others. *)
Lemma consumes_withZlib `{Zl : Zlib} {A} n (body : M A) :
  consumes (withZlib n body).
Proof.
  intros s. unfold withZlib. destruct (n <=? _).
  - destruct (body _) as [r s']. simpl.
    exists (take (Z.to_nat n) (input s)). symmetry. apply take_drop.
  - exists []. reflexivity.
Qed.

Lemma atMostOneCall_silent (m : M unit) : silent m -> atMostOneCall m.
Proof. intros Hm s. left. apply Hm. Qed.

Lemma atMostOneCall_call c : atMostOneCall (call c).
Proof. intros s. right. exists c. split; reflexivity. Qed.

Lemma atMostOneCall_bind {A} (m : M A) (k : A -> M unit) :
  silent m -> (forall a, atMostOneCall (k a)) -> atMostOneCall (bind m k).
Proof.
  intros Hm Hk s. unfold bind. specialize (Hm s).
  destruct (m s) as [[e|a] s']; simpl in *; [left; exact Hm|].
  rewrite <- Hm. apply Hk.
Qed.

End ReaderFraming.

#[local] Hint Resolve silent_ret silent_throw silent_skip silent_readBytes
  silent_readU8 silent_readU32 consumes_ret consumes_throw consumes_skip
  consumes_readBytes consumes_readU8 consumes_readU32 consumes_call
  consumes_withZlib atMostOneCall_call : framing.

Ltac framed :=
  repeat first
    [ solve [auto with framing]
    | apply silent_bind; [|intros]
    | apply consumes_bind; [|intros]
    | apply atMostOneCall_bind; [|intros]
    | apply silent_forEach; intros
    | apply consumes_forEach; intros
    | apply silent_withZlib
    | match goal with
      | |- Framing.silent (if ?b then _ else _) => destruct b
      | |- Framing.consumes (if ?b then _ else _) => destruct b
      | |- Framing.atMostOneCall (if ?b then _ else _) => destruct b
      | |- Framing.silent (let '(_, _) := ?p in _) => destruct p
      | |- Framing.consumes (let '(_, _) := ?p in _) => destruct p
      end
    | apply atMostOneCall_silent ].

Section ReadersFramed.

Import Wire Wire.Reader Framing.

Context `{K : ProtocolConsts} `{Zl : Zlib}.

Variable maxCutText : Z.

Lemma silent_capsBody flags i st : silent (capsBody flags i st).
Proof. unfold capsBody. framed. Qed.

Lemma silent_provideBody i st : silent (provideBody maxCutText i st).
Proof. unfold provideBody. framed. Qed.

Lemma consumes_capsBody flags i st : consumes (capsBody flags i st).
Proof. unfold capsBody. framed. Qed.

Lemma atMostOneCall_readExtendedClipboard len :
  atMostOneCall (readExtendedClipboard maxCutText len).
Proof.
  unfold readExtendedClipboard.
  pose proof silent_capsBody. pose proof silent_provideBody.
  framed.
Qed.

Lemma consumes_readExtendedClipboard len :
  consumes (readExtendedClipboard maxCutText len).
Proof.
  unfold readExtendedClipboard. pose proof consumes_capsBody. framed.
Qed.

(** X8: on any input, well formed or not, each reader of [MsgReader]
    only takes bytes off the front of the stream, and makes at most one
    call on the handler: none at all when it throws (a short stream, an
    invalid message) or skips an oversized message, exactly one when it
    delivers. *)
Theorem readers_call_at_most_once :
  let framed m := consumes m /\ atMostOneCall m in
  framed (readCutText maxCutText) /\ framed readFence /\
  framed (Legacy.readCutText maxCutText).
Proof.
  pose proof atMostOneCall_readExtendedClipboard.
  pose proof consumes_readExtendedClipboard.
  cbv zeta. unfold readCutText, readFence, Legacy.readCutText.
  repeat split; framed.
Qed.

End ReadersFramed.

Section FenceOversize.

Import Wire Wire.Reader.

(** X6: a fence whose length byte is above 64 is ignored by [readFence]:
    the payload is skipped, the handler is not called, and the reader
    stops right behind the message, ready for the next one.  The writer
    never sends such a fence, so this is what a peer that does gets. *)
Theorem readFence_oversized_skipped (padding : list Z) (flags len : Z)
    (payload rest : list Z) (cs : list HandlerCall) :
  length padding = 3%nat ->
  0 <= flags < 2 ^ 32 ->
  64 < len ->
  Z.of_nat (length payload) = len ->
  readFence
    (mkRState (padding ++ encodeU32 flags ++ [len] ++ payload ++ rest) cs)
  = (inr tt, mkRState rest cs).
Proof.
  intros Hpad Hflags Hlen Hpay.
  unfold readFence. unfold bind at 1.
  change 3 with (Z.of_nat 3). rewrite <- Hpad, skip_app.
  unfold bind at 1. rewrite readU32_encodeU32 by assumption.
  unfold bind at 1. simpl app. rewrite readU8_cons.
  destruct (Z.gtb_spec len 64); [|lia].
  rewrite <- Hpay. apply skip_app.
Qed.

End FenceOversize.

(** [readFence_oversized_skipped] on a fence of 65 bytes. *)
Lemma readFence_oversized_skipped_witness :
  Wire.Reader.readFence
    (Wire.Reader.mkRState
       ([0; 0; 0] ++ Wire.encodeU32 1 ++ [65] ++ replicate 65 9 ++ [42])
       [])
  = (inr tt, Wire.Reader.mkRState [42] []).
Proof.
  apply (readFence_oversized_skipped [0; 0; 0] 1 65 (replicate 65 9) [42] []).
  - reflexivity.
  - lia.
  - lia.
  - reflexivity.
Defined.

Section CoverFacts.

Import Split Cover.

Lemma filter_seq_none (P : nat -> bool) n :
  (forall j, (j < n)%nat -> P j = false) ->
  List.filter P (seq 0 n) = [].
Proof.
  induction n as [|n IH]; intros HP; [reflexivity|].
  rewrite seq_S, List.filter_app, IH by (intros; apply HP; lia).
  simpl. rewrite HP by lia. reflexivity.
Qed.

Lemma filter_seq_one (P : nat -> bool) n k :
  (k < n)%nat ->
  (forall j, (j < n)%nat -> P j = true <-> j = k) ->
  List.filter P (seq 0 n) = [k].
Proof.
  induction n as [|n IH]; intros Hk HP; [lia|].
  rewrite seq_S, List.filter_app. simpl.
  destruct (Nat.eq_dec k n) as [->|Hne].
  - rewrite filter_seq_none.
    + destruct (P n) eqn:E; [reflexivity|].
      assert (P n = true) by (apply HP; lia). congruence.
    + intros j Hj. destruct (P j) eqn:E; [|reflexivity].
      apply HP in E; lia.
  - rewrite IH by (try lia; intros; apply HP; lia).
    destruct (P n) eqn:E; [|reflexivity].
    apply HP in E; lia.
Qed.

(** Along one axis: the clipped steps of size [s] from [a] cut
    [a, a + w) into pieces of which exactly one holds [x]. *)
Lemma steps_cover a w s x :
  0 < s ->
  length
    (List.filter
       (fun j => (a + Z.of_nat j * s <=? x) &&
                 (x <? Z.min (a + Z.of_nat j * s + s) (a + w)))
       (seq 0 (Z.to_nat (ceilDiv w s))))
  = if (a <=? x) && (x <? a + w) then 1%nat else 0%nat.
Proof.
  intros Hs.
  destruct (Z.leb_spec a x) as [Hax|Hax]; simpl.
  2:{ rewrite filter_seq_none; [reflexivity|]. intros j _.
      apply andb_false_iff. left. apply Z.leb_gt. nia. }
  destruct (Z.ltb_spec x (a + w)) as [Hxw|Hxw].
  2:{ rewrite filter_seq_none; [reflexivity|]. intros j _.
      apply andb_false_iff. right. apply Z.ltb_ge. lia. }
  rewrite (filter_seq_one _ _ (Z.to_nat ((x - a) / s))); [reflexivity| |].
  - assert (H0 : 0 <= (x - a) / s) by (apply Z.div_pos; lia).
    assert (H1 : (x - a) / s <= (w - 1) / s)
      by (apply Z.div_le_mono; lia).
    assert (H2 : ceilDiv w s = (w - 1) / s + 1).
    { unfold ceilDiv. replace (w + s - 1) with (w - 1 + 1 * s) by lia.
      apply Z.div_add. lia. }
    rewrite H2. lia.
  - intros j _.
    rewrite andb_true_iff, Z.leb_le, Z.ltb_lt.
    assert (H0 : 0 <= (x - a) / s) by (apply Z.div_pos; lia).
    pose proof (Z.mul_div_le (x - a) s Hs) as Hlo.
    pose proof (Z.mul_succ_div_gt (x - a) s Hs) as Hhi.
    split.
    + intros [Hl Hr].
      assert (Z.of_nat j = (x - a) / s); [|lia].
      apply Z.div_unique with (x - a - s * Z.of_nat j); lia.
    + intros ->. rewrite Z2Nat.id by lia. lia.
Qed.

(** Over a grid of tiles the count is the product of the counts along
    the two axes. *)
Lemma grid_count (PX PY : nat -> bool) (f : nat -> nat -> Rect) x y lj :
  (forall i j, inside (f i j) x y = PY i && PX j) ->
  forall li,
    length (List.filter (fun r => inside r x y)
              (flat_map (fun i => map (f i) lj) li))
    = (length (List.filter PY li) * length (List.filter PX lj))%nat.
Proof.
  intros Hin.
  assert (Hrow : forall i,
             length (List.filter (fun r => inside r x y) (map (f i) lj))
             = if PY i then length (List.filter PX lj) else 0%nat).
  { intros i. induction lj as [|j lj IH]; simpl.
    - destruct (PY i); reflexivity.
    - rewrite Hin. destruct (PY i), (PX j); simpl; rewrite ?IH; reflexivity. }
  induction li as [|i li IH]; [reflexivity|].
  simpl flat_map. rewrite List.filter_app, length_app, Hrow, IH.
  simpl List.filter. destruct (PY i); simpl; lia.
Qed.

Lemma tiling_covers r sw sh x y :
  0 < sw -> 0 < sh ->
  covers (tiling r sw sh (Z.to_nat (ceilDiv (width r) sw))
            (Z.to_nat (ceilDiv (height r) sh))) x y
  = if inside r x y then 1%nat else 0%nat.
Proof.
  intros Hsw Hsh. unfold covers, tiling.
  rewrite (grid_count
             (fun j => (px (tl r) + Z.of_nat j * sw <=? x) &&
                       (x <? Z.min (px (tl r) + Z.of_nat j * sw + sw)
                               (px (tl r) + width r)))
             (fun i => (py (tl r) + Z.of_nat i * sh <=? y) &&
                       (y <? Z.min (py (tl r) + Z.of_nat i * sh + sh)
                               (py (tl r) + height r)))).
  - rewrite !steps_cover by assumption.
    unfold inside, width, height.
    replace (px (tl r) + (px (br r) - px (tl r))) with (px (br r)) by lia.
    replace (py (tl r) + (py (br r) - py (tl r))) with (py (br r)) by lia.
    destruct (py (tl r) <=? y), (y <? py (br r)), (px (tl r) <=? x),
      (x <? px (br r)); reflexivity.
  - intros i j. unfold inside, tile, rectXY, width, height. simpl.
    replace (px (tl r) + (px (br r) - px (tl r))) with (px (br r)) by lia.
    replace (py (tl r) + (py (br r) - py (tl r))) with (py (br r)) by lia.
    destruct (px (tl r) + Z.of_nat j * sw <=? x),
      (x <? Z.min (px (tl r) + Z.of_nat j * sw + sw) (px (br r))),
      (py (tl r) + Z.of_nat i * sh <=? y),
      (y <? Z.min (py (tl r) + Z.of_nat i * sh + sh) (py (br r)));
      reflexivity.
Qed.

Lemma splitRect_covers r q x y :
  splitRect r = Some q ->
  covers q x y = if inside r x y then 1%nat else 0%nat.
Proof.
  intros Hq.
  destruct (noSplit (width r) (height r)) eqn:Hns.
  - unfold splitRect in Hq. rewrite Hns in Hq. injection Hq as <-.
    unfold covers. simpl. destruct (inside r x y); reflexivity.
  - destruct (Z_lt_le_dec 0 (width r)) as [Hw|Hw].
    + rewrite splitRect_tiles in Hq by assumption. injection Hq as <-.
      assert (Hsw : 0 < subWidth (width r) <= SubRectMaxWidth)
        by (rewrite subWidth_min; unfold SubRectMaxWidth; lia).
      apply tiling_covers; [lia|apply subHeight_pos; exact Hsw].
    + assert (Hin : inside r x y = false).
      { unfold inside, width in *.
        destruct (Z.leb_spec (px (tl r)) x), (Z.ltb_spec x (px (br r)));
          simpl; try reflexivity. lia. }
      rewrite Hin.
      assert (Hh : height r <= 0).
      { destruct (Z_le_gt_dec (height r) 0) as [|Hh]; [assumption|].
        exfalso. assert (noSplit (width r) (height r) = true); [|congruence].
        apply noSplit_spec. unfold SubRectMaxArea, SubRectMaxWidth. nia. }
      unfold splitRect in Hq. rewrite Hns in Hq. unfold height in Hh.
      assert (Hy : (py (tl r) <? py (br r)) = false) by (apply Z.ltb_ge; lia).
      destruct (Z.to_nat (height r)); simpl in Hq; rewrite Hy in Hq;
        injection Hq as <-; reflexivity.
Qed.

Lemma covers_app a b x y :
  covers (a ++ b) x y = (covers a x y + covers b x y)%nat.
Proof. unfold covers. rewrite List.filter_app, length_app. reflexivity. Qed.

(** X10: the sub-rectangles [writeRects] queues cover every pixel
    exactly as often as the rectangles of the region do: a pixel of one
    rectangle of [changed] lies in exactly one queued sub-rectangle, and
    a pixel outside the region in none.  Nothing is encoded twice and
    nothing is left out. *)
Theorem queuedRects_exact_cover (rects : list Rect) (x y : Z) :
  exists q,
    queuedRects rects = Some q /\
    covers q x y = covers rects x y.
Proof.
  induction rects as [|r rs (qs & Hqs & IH)]; simpl.
  - exists []. split; reflexivity.
  - destruct (splitRect_total r) as [q Hq]. rewrite Hq, Hqs.
    exists (q ++ qs). split; [reflexivity|].
    rewrite covers_app, IH, (splitRect_covers r q x y Hq).
    change (r :: rs) with ([r] ++ rs). rewrite covers_app.
    unfold covers at 2. simpl. destruct (inside r x y); reflexivity.
Qed.

End CoverFacts.

Section EncoderSelection.

Import EncodeManager.

Variable preferred : Preferred.
Variable isSupported : EncoderClass -> bool.
Variable bpp : Z.
Variable gray : bool.

Ltac selection t :=
  unfold prepareEncoders;
  destruct (isSupported encoderRRE) eqn:HRRE,
    (isSupported encoderHextile) eqn:HHextile,
    (isSupported encoderTight) eqn:HTight,
    (isSupported encoderTightJPEG) eqn:HJPEG,
    (isSupported encoderZRLE) eqn:HZRLE,
    (bpp >=? 16) eqn:Hbpp, gray, preferred, t; vm_compute.

(** X11: what [prepareEncoders] may put in [activeEncoders].  Every
    class it selects is Raw, a class the peer supports, or the class of
    the peer's preferred encoding; and Tight JPEG is selected only when
    the peer supports it, and then only for full-colour rectangles at 16
    bits per pixel or more, or for everything when the peer asked for
    grayscale. *)
Theorem prepareEncoders_selection (t : EncoderType) :
  let c := prepareEncoders preferred isSupported bpp gray t in
  (c = encoderRaw \/ isSupported c = true \/
   (preferred = preferRRE /\ c = encoderRRE) \/
   (preferred = preferHextile /\ c = encoderHextile) \/
   (preferred = preferTight /\ c = encoderTight) \/
   (preferred = preferZRLE /\ c = encoderZRLE)) /\
  (c = encoderTightJPEG ->
   isSupported encoderTightJPEG = true /\
   (gray = true \/ (t = encoderFullColour /\ 16 <= bpp))).
Proof.
  assert (Hge : (bpp >=? 16) = true -> 16 <= bpp).
  { intros H. destruct (Z.geb_spec bpp 16); [lia|discriminate]. }
  cbv zeta. revert Hge. generalize (16 <= bpp) as deep. intros deep.
  selection t;
    (intros Hge; split; [auto 7|intros Hc; try discriminate Hc; auto]).
Qed.

(** X12: Raw is the last resort of [prepareEncoders]: a rectangle type
    is left with the Raw encoder only when the peer supports none of
    ZRLE, Tight and Hextile; and when the peer asked for grayscale and
    supports Tight JPEG, every type goes to Tight JPEG. *)
Theorem prepareEncoders_raw_last_resort (t : EncoderType) :
  let c := prepareEncoders preferred isSupported bpp gray t in
  (c = encoderRaw ->
   isSupported encoderZRLE = false /\ isSupported encoderTight = false /\
   isSupported encoderHextile = false) /\
  (gray = true -> isSupported encoderTightJPEG = true ->
   c = encoderTightJPEG).
Proof.
  cbv zeta. selection t;
    (split; [intros Hc; try discriminate Hc; auto
            |intros Hg Hj; try discriminate Hg; try discriminate Hj;
             reflexivity]).
Qed.

End EncoderSelection.

Section PixelExtension.

Import Cover Solid.

Variable checkSolidTile : Rect -> bool.

Lemma scanDown_spec lo probe :
  forall fuel c,
    c - lo + 1 <= Z.of_nat fuel ->
    exists c',
      scanDown checkSolidTile fuel lo probe c = Some c' /\
      Z.min c (lo - 1) <= c' <= c /\
      (forall k, c' < k <= c -> checkSolidTile (probe k) = true) /\
      (c' < lo \/ checkSolidTile (probe c') = false).
Proof.
  induction fuel as [|f IH]; intros c Hf.
  - exists c. simpl. destruct (Z.geb_spec c lo); [lia|].
    repeat split; try lia; try (intros; lia).
  - simpl. destruct (Z.geb_spec c lo) as [Hc|Hc].
    + destruct (checkSolidTile (probe c)) eqn:Hchk; cbn [negb].
      * destruct (IH (c - 1)) as (c' & Hrun & Hb & Hall & Hstop); [lia|].
        exists c'. split; [exact Hrun|]. split; [lia|]. split; [|exact Hstop].
        intros k Hk. destruct (Z.eq_dec k c) as [->|]; [exact Hchk|].
        apply Hall. lia.
      * exists c. repeat split; try lia; try (intros; lia).
        right; exact Hchk.
    + exists c. repeat split; try lia; try (intros; lia).
Qed.

Lemma scanUp_spec hi probe :
  forall fuel c,
    hi - c <= Z.of_nat fuel ->
    exists c',
      scanUp checkSolidTile fuel hi probe c = Some c' /\
      c <= c' <= Z.max c hi /\
      (forall k, c <= k < c' -> checkSolidTile (probe k) = true) /\
      (hi <= c' \/ checkSolidTile (probe c') = false).
Proof.
  induction fuel as [|f IH]; intros c Hf.
  - exists c. simpl. destruct (Z.ltb_spec c hi); [lia|].
    repeat split; try lia; try (intros; lia).
  - simpl. destruct (Z.ltb_spec c hi) as [Hc|Hc].
    + destruct (checkSolidTile (probe c)) eqn:Hchk; cbn [negb].
      * destruct (IH (c + 1)) as (c' & Hrun & Hb & Hall & Hstop); [lia|].
        exists c'. split; [exact Hrun|]. split; [lia|]. split; [|exact Hstop].
        intros k Hk. destruct (Z.eq_dec k c) as [->|]; [exact Hchk|].
        apply Hall. lia.
      * exists c. repeat split; try lia; try (intros; lia).
        right; exact Hchk.
    + exists c. repeat split; try lia; try (intros; lia).
Qed.

Lemma inside_iff r x y :
  inside r x y = true <->
  px (tl r) <= x < px (br r) /\ py (tl r) <= y < py (br r).
Proof.
  unfold inside. rewrite !andb_true_iff, !Z.leb_le, !Z.ltb_lt. lia.
Qed.

(** What the four loops of [extendSolidAreaByPixel] leave in [*er]. *)
Lemma extendSolidAreaByPixel_spec r sr :
  within sr r ->
  exists er,
    extendSolidAreaByPixel checkSolidTile r sr = Some er /\
    within sr er /\ within er r /\
    (forall k, py (tl er) <= k < py (tl sr) ->
       checkSolidTile (setXYWH (px (tl sr)) k (width sr) 1) = true) /\
    (forall k, py (br sr) <= k < py (br er) ->
       checkSolidTile (setXYWH (px (tl sr)) k (width sr) 1) = true) /\
    (forall k, px (tl er) <= k < px (tl sr) ->
       checkSolidTile (setXYWH k (py (tl er)) 1 (height er)) = true) /\
    (forall k, px (br sr) <= k < px (br er) ->
       checkSolidTile (setXYWH k (py (tl er)) 1 (height er)) = true) /\
    (py (tl er) = py (tl r) \/
     checkSolidTile (setXYWH (px (tl sr)) (py (tl er) - 1) (width sr) 1)
     = false) /\
    (py (br er) = py (br r) \/
     checkSolidTile (setXYWH (px (tl sr)) (py (br er)) (width sr) 1)
     = false) /\
    (px (tl er) = px (tl r) \/
     checkSolidTile (setXYWH (px (tl er) - 1) (py (tl er)) 1 (height er))
     = false) /\
    (px (br er) = px (br r) \/
     checkSolidTile (setXYWH (px (br er)) (py (tl er)) 1 (height er))
     = false).
Proof.
  intros (Hx1 & Hy1 & Hx2 & Hy2). unfold extendSolidAreaByPixel.
  destruct (scanDown_spec (py (tl r))
              (fun cy => setXYWH (px (tl sr)) cy (width sr) 1)
              (Z.to_nat (py (tl sr) - py (tl r))) (py (tl sr) - 1))
    as (up & -> & Hub & Hua & Hus); [lia|].
  destruct (scanUp_spec (py (br r))
              (fun cy => setXYWH (px (tl sr)) cy (width sr) 1)
              (Z.to_nat (py (br r) - py (br sr))) (py (br sr)))
    as (down & -> & Hdb & Hda & Hds); [lia|].
  destruct (scanDown_spec (px (tl r))
              (fun cx => setXYWH cx (up + 1) 1 (down - (up + 1)))
              (Z.to_nat (px (tl sr) - px (tl r))) (px (tl sr) - 1))
    as (left & -> & Hlb & Hla & Hls); [lia|].
  destruct (scanUp_spec (px (br r))
              (fun cx => setXYWH cx (up + 1) 1 (down - (up + 1)))
              (Z.to_nat (px (br r) - px (br sr))) (px (br sr)))
    as (right & -> & Hrb & Hra & Hrs); [lia|].
  eexists. split; [reflexivity|].
  unfold within, height, rectXY. simpl.
  replace (left + 1 - 1) with left by lia.
  replace (up + 1 - 1) with up by lia.
  repeat split; try lia.
  - intros k Hk. apply Hua. lia.
  - intros k Hk. apply Hda. lia.
  - intros k Hk. apply Hla. lia.
  - intros k Hk. apply Hra. lia.
  - destruct Hus as [Hus|Hus]; [left; lia|right; exact Hus].
  - destruct Hds as [Hds|Hds]; [left; lia|right; exact Hds].
  - destruct Hls as [Hls|Hls]; [left; lia|right; exact Hls].
  - destruct Hrs as [Hrs|Hrs]; [left; lia|right; exact Hrs].
Qed.

Variable solid : Z -> Z -> bool.

Hypothesis check_sound :
  forall r, checkSolidTile r = true -> allSolid solid r.

(** The rectangle [extendSolidAreaByPixel] returns is solid. *)
Lemma pixelExtension_solid (r sr : Rect) :
  within sr r ->
  allSolid solid sr ->
  exists er,
    extendSolidAreaByPixel checkSolidTile r sr = Some er /\
    within sr er /\ within er r /\ allSolid solid er.
Proof.
  intros Hin Hsr.
  destruct (extendSolidAreaByPixel_spec r sr Hin)
    as (er & Hrun & Hsrer & Herr & Hup & Hdown & Hleft & Hright & _).
  exists er. split; [exact Hrun|]. split; [exact Hsrer|].
  split; [exact Herr|].
  destruct Hsrer as (Hx1 & Hy1 & Hx2 & Hy2).
  intros x y Hxy. apply inside_iff in Hxy. destruct Hxy as [Hx Hy].
  destruct (Z_lt_le_dec x (px (tl sr))) as [Hl|Hl].
  { apply (check_sound _ (Hleft x ltac:(lia))).
    apply inside_iff. unfold setXYWH, rectXY, height. simpl. lia. }
  destruct (Z_lt_le_dec x (px (br sr))) as [Hr|Hr].
  2:{ apply (check_sound _ (Hright x ltac:(lia))).
      apply inside_iff. unfold setXYWH, rectXY, height. simpl. lia. }
  destruct (Z_lt_le_dec y (py (tl sr))) as [Hu|Hu].
  { apply (check_sound _ (Hup y ltac:(lia))).
    apply inside_iff. unfold setXYWH, rectXY, width. simpl. lia. }
  destruct (Z_lt_le_dec y (py (br sr))) as [Hd|Hd].
  2:{ apply (check_sound _ (Hdown y ltac:(lia))).
      apply inside_iff. unfold setXYWH, rectXY, width. simpl. lia. }
  apply Hsr. apply inside_iff. lia.
Qed.

(** X15: [extendSolidAreaByPixel] grows a solid rectangle [sr] inside
    [r] without leaving [r] and without taking in a pixel of another
    colour: when [checkSolidTile] says yes only for tiles that are
    solid, the rectangle it returns contains [sr], lies within [r], and
    every pixel of it has the colour. *)
Theorem extendSolidAreaByPixel_sound (r sr : Rect) :
  within sr r ->
  allSolid solid sr ->
  exists er,
    extendSolidAreaByPixel checkSolidTile r sr = Some er /\
    within sr er /\ within er r /\ allSolid solid er.
Proof. apply pixelExtension_solid. Qed.

End PixelExtension.

Section PixelExtensionStops.

Import Cover Solid.

Variable checkSolidTile : Rect -> bool.

(** X16: [extendSolidAreaByPixel] stops on each side only at the border
    of [r] or at a row or column that [checkSolidTile] rejects: above
    and below, the row of [sr]'s width next to the result; left and
    right, the column of the result's height next to it. *)
Theorem extendSolidAreaByPixel_stops (r sr : Rect) :
  within sr r ->
  exists er,
    extendSolidAreaByPixel checkSolidTile r sr = Some er /\
    (py (tl er) = py (tl r) \/
     checkSolidTile (setXYWH (px (tl sr)) (py (tl er) - 1) (width sr) 1)
     = false) /\
    (py (br er) = py (br r) \/
     checkSolidTile (setXYWH (px (tl sr)) (py (br er)) (width sr) 1)
     = false) /\
    (px (tl er) = px (tl r) \/
     checkSolidTile (setXYWH (px (tl er) - 1) (py (tl er)) 1 (height er))
     = false) /\
    (px (br er) = px (br r) \/
     checkSolidTile (setXYWH (px (br er)) (py (tl er)) 1 (height er))
     = false).
Proof.
  intros Hin.
  destruct (extendSolidAreaByPixel_spec checkSolidTile r sr Hin)
    as (er & Hrun & _ & _ & _ & _ & _ & _ & Hstops).
  exists er. split; [exact Hrun|exact Hstops].
Qed.

End PixelExtensionStops.

Section BlockExtension.

Import Cover Solid.

Variable checkSolidTile : Rect -> bool.

(** What a tile that passed the check tells about its pixels. *)
Variable Q : Z -> Z -> Prop.

Hypothesis check_Q :
  forall r, checkSolidTile r = true ->
  forall x y, inside r x y = true -> Q x y.

Lemma checked_tile x0 y0 w h x y :
  checkSolidTile (setXYWH x0 y0 w h) = true ->
  x0 <= x < x0 + w -> y0 <= y < y0 + h -> Q x y.
Proof.
  intros Hc Hx Hy. apply (check_Q _ Hc).
  apply inside_iff. unfold setXYWH, rectXY. simpl. lia.
Qed.

Lemma blockXLoop_spec r w_prev dy dh :
  forall fuel dx,
    px (tl r) + w_prev - dx <= Z.of_nat fuel ->
    exists dx',
      blockXLoop checkSolidTile fuel r w_prev dy dh dx = Some dx' /\
      dx <= dx' <= Z.max dx (px (tl r) + w_prev) /\
      (forall x y, dx <= x < dx' -> dy <= y < dy + dh -> Q x y).
Proof.
  induction fuel as [|f IH]; intros dx Hf.
  - exists dx. simpl. destruct (Z.ltb_spec dx (px (tl r) + w_prev)); [lia|].
    repeat split; try lia; try (intros; lia).
  - simpl. destruct (Z.ltb_spec dx (px (tl r) + w_prev)) as [Hdx|Hdx].
    2:{ exists dx. repeat split; try lia; try (intros; lia). }
    set (dw := if dx + SolidSearchBlock >? px (tl r) + w_prev
               then px (tl r) + w_prev - dx else SolidSearchBlock).
    assert (Hdw : 1 <= dw /\ dx + dw <= px (tl r) + w_prev).
    { unfold dw, SolidSearchBlock.
      destruct (Z.gtb_spec (dx + 16) (px (tl r) + w_prev)); lia. }
    destruct (checkSolidTile (setXYWH dx dy dw dh)) eqn:Hchk; cbn [negb].
    + destruct (IH (dx + dw)) as (dx' & Hrun & Hb & Hall); [lia|].
      exists dx'. split; [exact Hrun|]. split; [lia|].
      intros x y Hx Hy.
      destruct (Z_lt_le_dec x (dx + dw)) as [Hlt|Hge].
      * apply (checked_tile _ _ _ _ _ _ Hchk); lia.
      * apply Hall; lia.
    + exists dx. repeat split; try lia; try (intros; lia).
Qed.

Lemma blockYLoop_spec r :
  forall fuel w_prev w_best h_best dy,
    py (br r) - dy <= Z.of_nat fuel ->
    py (tl r) <= dy ->
    0 <= w_prev <= width r ->
    (forall x y, px (tl r) <= x < px (tl r) + w_prev ->
       py (tl r) <= y < Z.min dy (py (br r)) -> Q x y) ->
    0 <= w_best <= width r ->
    0 <= h_best <= height r ->
    (forall x y, px (tl r) <= x < px (tl r) + w_best ->
       py (tl r) <= y < py (tl r) + h_best -> Q x y) ->
    exists wb hb,
      blockYLoop checkSolidTile fuel r w_prev w_best h_best dy
      = Some (wb, hb) /\
      0 <= wb <= width r /\ 0 <= hb <= height r /\
      w_best * h_best <= wb * hb /\
      (forall x y, px (tl r) <= x < px (tl r) + wb ->
         py (tl r) <= y < py (tl r) + hb -> Q x y).
Proof.
  induction fuel as [|f IH];
    intros w_prev w_best h_best dy Hf Hdy Hw Hrows Hwb Hhb Hbest.
  - exists w_best, h_best. simpl.
    destruct (Z.ltb_spec dy (py (br r))); [lia|].
    repeat split; try lia; try exact Hbest.
  - simpl. destruct (Z.ltb_spec dy (py (br r))) as [Hlt|Hge].
    2:{ exists w_best, h_best. repeat split; try lia; try exact Hbest. }
    set (dh := if dy + SolidSearchBlock >? py (br r)
               then py (br r) - dy else SolidSearchBlock).
    set (dw := if SolidSearchBlock >? w_prev then w_prev
               else SolidSearchBlock).
    assert (Hdh : 1 <= dh /\ dy + dh = Z.min (dy + SolidSearchBlock)
                                         (py (br r))).
    { unfold dh, SolidSearchBlock.
      destruct (Z.gtb_spec (dy + 16) (py (br r))); lia. }
    assert (Hdw : 0 <= dw <= w_prev).
    { unfold dw, SolidSearchBlock.
      destruct (Z.gtb_spec 16 w_prev); lia. }
    destruct (checkSolidTile (setXYWH (px (tl r)) dy dw dh)) eqn:Hchk;
      cbn [negb].
    2:{ exists w_best, h_best. repeat split; try lia; try exact Hbest. }
    destruct (blockXLoop_spec r w_prev dy dh (Z.to_nat w_prev)
                (px (tl r) + dw)) as (dx & -> & Hdx & Hrow); [lia|].
    assert (Hall : forall x y, px (tl r) <= x < dx ->
                     py (tl r) <= y < dy + dh -> Q x y).
    { intros x y Hx Hy.
      destruct (Z_lt_le_dec y dy) as [Hy1|Hy1].
      - apply Hrows; lia.
      - destruct (Z_lt_le_dec x (px (tl r) + dw)) as [Hx1|Hx1].
        + apply (checked_tile _ _ _ _ _ _ Hchk); lia.
        + apply Hrow; lia. }
    unfold height in *.
    destruct (Z.gtb_spec ((dx - px (tl r)) * (dy + dh - py (tl r)))
                (w_best * h_best)) as [Hgt|Hle].
    + destruct (IH (dx - px (tl r)) (dx - px (tl r)) (dy + dh - py (tl r))
                  (dy + SolidSearchBlock))
        as (wb & hb & Hrun & Hb1 & Hb2 & Hmono & Hsolid);
        try (unfold SolidSearchBlock in *; lia).
      * intros x y Hx Hy. apply Hall; lia.
      * intros x y Hx Hy. apply Hall; lia.
      * exists wb, hb. split; [exact Hrun|].
        repeat split; try lia; try exact Hsolid.
    + destruct (IH (dx - px (tl r)) w_best h_best (dy + SolidSearchBlock))
        as (wb & hb & Hrun & Hb1 & Hb2 & Hmono & Hsolid);
        try (unfold SolidSearchBlock in *; lia).
      * intros x y Hx Hy. apply Hall; lia.
      * exact Hbest.
      * exists wb, hb. split; [exact Hrun|].
        repeat split; try lia; try exact Hsolid.
Qed.

End BlockExtension.

Section BlockExtensionSound.

Import Cover Solid.

Variable checkSolidTile : Rect -> bool.
Variable solid : Z -> Z -> bool.

Hypothesis check_sound :
  forall r, checkSolidTile r = true -> allSolid solid r.

(** The rectangle [extendSolidAreaByBlock] returns is solid. *)
Lemma blockExtension_solid (r : Rect) :
  valid r ->
  exists er,
    extendSolidAreaByBlock checkSolidTile r = Some er /\
    tl er = tl r /\ valid er /\ within er r /\ allSolid solid er.
Proof.
  intros [Hw Hh]. unfold extendSolidAreaByBlock.
  destruct (blockYLoop_spec checkSolidTile (fun x y => solid x y = true)
              check_sound r (Z.to_nat (height r)) (width r) 0 0 (py (tl r)))
    as (wb & hb & -> & Hwb & Hhb & _ & Hsolid);
    try lia; try (unfold height in *; lia).
  eexists. split; [reflexivity|].
  unfold within, width, height in *. destruct r as [[x1 y1] [x2 y2]].
  simpl in *. split; [reflexivity|]. split; [unfold valid, width, height; simpl; lia|].
  split; [lia|].
  intros x y Hxy. apply inside_iff in Hxy. simpl in Hxy.
  apply Hsolid; lia.
Qed.

(** X17: the rectangle [extendSolidAreaByBlock] returns for [r] starts
    at the top left corner of [r], lies within [r], and is solid: when
    [checkSolidTile] says yes only for tiles that are solid, every pixel
    of the result has the colour, whichever width and height the search
    settles on. *)
Theorem extendSolidAreaByBlock_sound (r : Rect) :
  valid r ->
  exists er,
    extendSolidAreaByBlock checkSolidTile r = Some er /\
    tl er = tl r /\ within er r /\ allSolid solid er.
Proof.
  intros Hv. destruct (blockExtension_solid r Hv) as (er & H1 & H2 & _ & H3).
  exists er. split; [exact H1|]. split; [exact H2|exact H3].
Qed.

End BlockExtensionSound.

Section BlockExtensionArea.

Import Cover Solid.

Variable checkSolidTile : Rect -> bool.

(** X18: [extendSolidAreaByBlock] never returns less than the block it
    starts from: when the first block of [r], 16 x 16 pixels clipped to
    [r], passes [checkSolidTile], the rectangle returned has at least
    that block's area, so it is not empty. *)
Theorem extendSolidAreaByBlock_keeps_first_block (r : Rect) :
  nonempty r ->
  checkSolidTile
    (setXYWH (px (tl r)) (py (tl r)) (Z.min 16 (width r))
       (Z.min 16 (height r))) = true ->
  exists er,
    extendSolidAreaByBlock checkSolidTile r = Some er /\
    Z.min 16 (width r) * Z.min 16 (height r) <= area er /\
    within er r.
Proof.
  intros [Hw Hh] Hfirst. unfold extendSolidAreaByBlock.
  destruct (Z.to_nat (height r)) as [|f] eqn:Hfuel; [lia|].
  simpl blockYLoop. unfold height, width in *.
  destruct (Z.ltb_spec (py (tl r)) (py (br r))) as [_|]; [|lia].
  replace (if py (tl r) + SolidSearchBlock >? py (br r)
           then py (br r) - py (tl r) else SolidSearchBlock)
    with (Z.min 16 (py (br r) - py (tl r)))
    by (unfold SolidSearchBlock;
        destruct (Z.gtb_spec (py (tl r) + 16) (py (br r))); lia).
  replace (if SolidSearchBlock >? px (br r) - px (tl r)
           then px (br r) - px (tl r) else SolidSearchBlock)
    with (Z.min 16 (px (br r) - px (tl r)))
    by (unfold SolidSearchBlock;
        destruct (Z.gtb_spec 16 (px (br r) - px (tl r))); lia).
  rewrite Hfirst. cbn [negb].
  set (dw := Z.min 16 (px (br r) - px (tl r))) in *.
  set (dh := Z.min 16 (py (br r) - py (tl r))) in *.
  assert (Htriv : forall t, checkSolidTile t = true ->
                    forall x y, inside t x y = true -> True) by trivial.
  destruct (blockXLoop_spec checkSolidTile (fun _ _ => True) Htriv r
              (px (br r) - px (tl r)) (py (tl r)) dh
              (Z.to_nat (px (br r) - px (tl r))) (px (tl r) + dw))
    as (dx & -> & Hdx & _); [lia|].
  replace (py (tl r) + dh - py (tl r)) with dh by lia.
  assert (Harea : dw * dh <= (dx - px (tl r)) * dh) by nia.
  destruct (Z.gtb_spec ((dx - px (tl r)) * dh) (0 * 0)) as [_|]; [|nia].
  destruct (blockYLoop_spec checkSolidTile (fun _ _ => True) Htriv r f
              (dx - px (tl r)) (dx - px (tl r)) dh
              (py (tl r) + SolidSearchBlock))
    as (wb & hb & -> & Hwb & Hhb & Hmono & _);
    unfold height, width, SolidSearchBlock; try lia; try trivial.
  eexists. split; [reflexivity|].
  unfold area, within, width, height, rectXY in *. simpl. split; lia.
Qed.

End BlockExtensionArea.

Section PixelCheck.

Import Cover Solid SolidCheck.

Lemma in_tilePixels r x y :
  inside r x y = true -> In (x, y) (tilePixels r).
Proof.
  intros Hin. apply inside_iff in Hin. destruct Hin as [Hx Hy].
  unfold tilePixels, width, height. apply in_flat_map.
  exists (Z.to_nat (y - py (tl r))). split; [apply in_seq; lia|].
  apply in_map_iff. exists (Z.to_nat (x - px (tl r))).
  split; [f_equal; lia|apply in_seq; lia].
Qed.

(** A check that looks at every pixel says yes only for solid tiles. *)
Lemma checkPixels_sound solid r :
  checkPixels solid r = true -> allSolid solid r.
Proof.
  unfold checkPixels. rewrite forallb_forall. intros Hall x y Hin.
  apply (Hall (x, y)), in_tilePixels, Hin.
Qed.

End PixelCheck.

(** [extendSolidAreaByPixel_sound] on a 5 x 4 frame whose top left 3 x 2
    corner is solid, starting from the pixel (1, 0). *)
Lemma extendSolidAreaByPixel_sound_witness :
  exists er,
    Solid.extendSolidAreaByPixel (SolidCheck.checkPixels SolidCheck.corner)
      (rectXY 0 0 5 4) (rectXY 1 0 2 1) = Some er /\
    Solid.within (rectXY 1 0 2 1) er /\ Solid.within er (rectXY 0 0 5 4) /\
    Solid.allSolid SolidCheck.corner er.
Proof.
  apply (extendSolidAreaByPixel_sound
           (SolidCheck.checkPixels SolidCheck.corner) SolidCheck.corner
           (checkPixels_sound SolidCheck.corner)).
  - unfold Solid.within. simpl. lia.
  - apply checkPixels_sound. reflexivity.
Defined.

(** [extendSolidAreaByPixel_stops] on the same frame. *)
Lemma extendSolidAreaByPixel_stops_witness :
  exists er,
    Solid.extendSolidAreaByPixel (SolidCheck.checkPixels SolidCheck.corner)
      (rectXY 0 0 5 4) (rectXY 1 0 2 1) = Some er /\
    py (br er) <> 4 /\ px (br er) <> 5.
Proof.
  destruct (extendSolidAreaByPixel_stops
              (SolidCheck.checkPixels SolidCheck.corner)
              (rectXY 0 0 5 4) (rectXY 1 0 2 1))
    as (er & Hrun & _ & _ & _ & _).
  - unfold Solid.within. simpl. lia.
  - exists er. split; [exact Hrun|].
    vm_compute in Hrun. injection Hrun as <-. simpl. lia.
Defined.

(** [extendSolidAreaByBlock_sound] on the same frame. *)
Lemma extendSolidAreaByBlock_sound_witness :
  exists er,
    Solid.extendSolidAreaByBlock (SolidCheck.checkPixels SolidCheck.corner)
      (rectXY 0 0 3 2) = Some er /\
    tl er = tl (rectXY 0 0 3 2) /\ Solid.within er (rectXY 0 0 3 2) /\
    Solid.allSolid SolidCheck.corner er.
Proof.
  apply (extendSolidAreaByBlock_sound
           (SolidCheck.checkPixels SolidCheck.corner) SolidCheck.corner
           (checkPixels_sound SolidCheck.corner)).
  unfold valid, width, height. simpl. lia.
Defined.

(** [extendSolidAreaByBlock_keeps_first_block] on the solid corner. *)
Lemma extendSolidAreaByBlock_keeps_first_block_witness :
  exists er,
    Solid.extendSolidAreaByBlock (SolidCheck.checkPixels SolidCheck.corner)
      (rectXY 0 0 3 2) = Some er /\
    Z.min 16 (width (rectXY 0 0 3 2)) * Z.min 16 (height (rectXY 0 0 3 2))
    <= area er /\
    Solid.within er (rectXY 0 0 3 2).
Proof.
  apply (extendSolidAreaByBlock_keeps_first_block
           (SolidCheck.checkPixels SolidCheck.corner)).
  - unfold nonempty, width, height. simpl. lia.
  - reflexivity.
Defined.

Section PaletteFacts.

Import EncodeManager.

Context {PB : Type} `{Co : Collaborators PB}.

Variable encoders : EncoderClass -> Encoder.
Variable activeEncoders : EncoderType -> EncoderClass.
Variable cp : ConnParams.

Lemma paletteDivisor_min : 4 <= paletteDivisor cp.
Proof.
  unfold paletteDivisor.
  destruct (compressLevel cp =? -1);
    match goal with |- context [?d <? 4] => destruct (Z.ltb_spec d 4) end;
    lia.
Qed.

(** X13: the palette budget [prepareRect] hands to [analyseRect] is never
    above the [maxPaletteSize] of the two indexed encoders, is at least
    2 when those allow 2 colours, and, unless Tight JPEG takes the
    full-colour rectangles, is at most a quarter of the pixel count
    (or 2); with Tight JPEG it is at most 96. *)
Theorem paletteBudget_bounds (rect : Rect) :
  let budget := paletteBudget encoders activeEncoders cp rect in
  let maxRLE :=
    maxPaletteSize (getEncoder encoders activeEncoders encoderIndexedRLE) in
  let maxIndexed :=
    maxPaletteSize (getEncoder encoders activeEncoders encoderIndexed) in
  budget <= maxRLE /\ budget <= maxIndexed /\
  (2 <= maxRLE -> 2 <= maxIndexed -> 2 <= budget) /\
  (activeEncoders encoderFullColour <> encoderTightJPEG ->
   0 <= area rect < 2 ^ 32 -> budget <= Z.max 2 (area rect / 4)) /\
  (activeEncoders encoderFullColour = encoderTightJPEG -> budget <= 96).
Proof.
  cbv zeta. unfold paletteBudget.
  pose proof paletteDivisor_min as Hdiv.
  set (d := paletteDivisor cp) in *.
  set (mR := maxPaletteSize
               (getEncoder encoders activeEncoders encoderIndexedRLE)).
  set (mI := maxPaletteSize
               (getEncoder encoders activeEncoders encoderIndexed)).
  assert (Hquarter : 0 <= area rect < 2 ^ 32 ->
                     u32 (area rect) / d <= area rect / 4).
  { intros Ha. rewrite u32_small by exact Ha.
    apply Z.div_le_compat_l; lia. }
  set (m0 := u32 (area rect) / d) in *.
  set (m1 := if decide (activeEncoders encoderFullColour = encoderTightJPEG)
             then if negb (compressLevel cp =? -1) && (compressLevel cp <? 2)
                  then 24 else 96
             else m0).
  assert (Hm1 : (activeEncoders encoderFullColour <> encoderTightJPEG ->
                 m1 = m0) /\
                (activeEncoders encoderFullColour = encoderTightJPEG ->
                 m1 <= 96)).
  { unfold m1.
    destruct (decide (activeEncoders encoderFullColour = encoderTightJPEG));
      [|split; [reflexivity|contradiction]].
    split; [contradiction|].
    destruct (negb (compressLevel cp =? -1) && (compressLevel cp <? 2)); lia. }
  clearbody m1.
  destruct (Z.ltb_spec m1 2);
    match goal with
    | |- context [?m >? mR] => destruct (Z.gtb_spec m mR)
    end;
    match goal with
    | |- context [?m >? mI] => destruct (Z.gtb_spec m mI)
    end;
    destruct Hm1 as [Hm1a Hm1b];
    (repeat split; try lia; intros;
     repeat match goal with
       | H : _ <> encoderTightJPEG |- _ => specialize (Hm1a H); clear H
       | H : _ = encoderTightJPEG |- _ => specialize (Hm1b H); clear H
       | H : 0 <= area rect < _ |- _ => specialize (Hquarter H); clear H
       end; lia).
Qed.

End PaletteFacts.

(** [paletteBudget_bounds] on a 64 x 64 rectangle for a peer that prefers
    ZRLE: 4096 pixels give a budget of 256 colours, cut to ZRLE's 127. *)
Lemma paletteBudget_bounds_witness :
  EncodeManager.paletteBudget Concrete.stockEncoders Concrete.zrleActive
    Concrete.plainPeer (rectXY 0 0 64 64)
  <= Z.max 2 (area (rectXY 0 0 64 64) / 4).
Proof.
  destruct (paletteBudget_bounds Concrete.stockEncoders Concrete.zrleActive
              Concrete.plainPeer (rectXY 0 0 64 64))
    as (_ & _ & _ & Hquarter & _).
  apply Hquarter.
  - vm_compute. discriminate.
  - unfold area, width, height. simpl. lia.
Defined.

(** [prepareEncoders_selection] for a peer that prefers Tight, supports
    everything and has 32 bits per pixel. *)
Lemma prepareEncoders_selection_witness :
  EncodeManager.prepareEncoders EncodeManager.preferTight (fun _ => true) 32
    false encoderFullColour = encoderTightJPEG /\
  16 <= 32.
Proof.
  split; [reflexivity|].
  destruct (prepareEncoders_selection EncodeManager.preferTight
              (fun _ => true) 32 false encoderFullColour) as [_ H].
  destruct (H eq_refl) as [_ [Hg|[_ Hb]]]; [discriminate Hg|exact Hb].
Defined.

(** [prepareEncoders_raw_last_resort] for a peer that supports nothing
    and prefers nothing known: everything is Raw. *)
Lemma prepareEncoders_raw_last_resort_witness :
  EncodeManager.prepareEncoders EncodeManager.preferOther (fun _ => false) 8
    false encoderIndexed = encoderRaw /\
  (fun _ : EncoderClass => false) encoderZRLE = false.
Proof.
  split; [reflexivity|].
  destruct (prepareEncoders_raw_last_resort EncodeManager.preferOther
              (fun _ => false) 8 false encoderIndexed) as [H _].
  destruct (H eq_refl) as [Hz _]. exact Hz.
Defined.

Section PoolAccounting.

Import EncodeManager Sched Progress.

Context {PB : Type} `{Co : Collaborators PB}.

Variable encoders : EncoderClass -> Encoder.
Variable activeEncoders : EncoderType -> EncoderClass.
Variable cp : ConnParams.

Lemma filter_insert_count (p : Thread PB -> bool) l i t t' :
  l !! i = Some t ->
  (length (List.filter p (<[i := t']> l)) + (if p t then 1 else 0)
   = length (List.filter p l) + (if p t' then 1 else 0))%nat.
Proof.
  revert i. induction l as [|x l IH]; intros i Hi; [discriminate|].
  destruct i as [|i]; simpl in Hi.
  - injection Hi as ->. simpl. destruct (p t), (p t'); simpl; lia.
  - simpl. specialize (IH i Hi). destruct (p x); simpl; lia.
Qed.

Lemma queuedCount_insert (f : EncoderClass -> list (PreparedEntry PB)) k q :
  (queuedCount (<[k := q]> f) + length (f k)
   = queuedCount f + length q)%nat.
Proof.
  unfold queuedCount, allClasses, insert, fn_insert.
  destruct k; simpl; repeat (destruct (decide _); try congruence); lia.
Qed.

Lemma filter_none (p : Thread PB -> bool) l :
  (forall t, In t l -> p t = false) -> List.filter p l = [].
Proof.
  induction l as [|x l IH]; intros Hp; [reflexivity|].
  simpl. rewrite (Hp x) by (left; reflexivity).
  apply IH. intros t Ht. apply Hp. right. exact Ht.
Qed.

Lemma live_insert (s : State PB) l i t' :
  live s -> l = <[i := t']> (threads s) -> t' <> Stopped ->
  exists j t, l !! j = Some t /\ t <> Stopped.
Proof.
  intros (j & t & Hj & Ht) -> Ht'.
  destruct (decide (i = j)) as [->|Hne].
  - exists j, t'. split; [|exact Ht'].
    apply list_lookup_insert_eq. eapply lookup_lt_Some. exact Hj.
  - exists j, t. split; [|exact Ht].
    rewrite list_lookup_insert_ne by exact Hne. exact Hj.
Qed.

Ltac account Hi :=
  cbn [workQueue rectCount encoderQueue outputQueue threads written
       pushedLog workerMove];
  try match goal with
    | |- context [<[?i := ?t']> (threads ?s)] =>
        pose proof (filter_insert_count preparing _ _ _ t' Hi);
        pose proof (filter_insert_count encodingPlain _ _ _ t' Hi)
    end;
  try match goal with
    | |- context [queuedCount (<[?k := ?q]> ?f)] =>
        pose proof (queuedCount_insert f k q)
    end;
  cbn [preparing encodingPlain length] in *.

(** What one critical section does to the counts. *)
Lemma move_accounting (s s' : State PB) m :
  (forall k, classInv encoders activeEncoders s k) ->
  move encoders activeEncoders cp m s = Some s' ->
  (inFlight s' + rectCount s = inFlight s + rectCount s')%nat /\
  (workerMove m = true ->
   stepsLeft s = S (stepsLeft s') /\ pushedLog s' = pushedLog s /\
   (live s -> live s')).
Proof.
  intros Hinv Hmove. unfold inFlight, stepsLeft.
  destruct m as [e|i|i|i| |i]; simpl in Hmove.
  - injection Hmove as <-. unfold doQueue. account I.
    rewrite length_app. simpl length.
    split; [lia|discriminate].
  - unfold doPop in Hmove.
    destruct (threads s !! i) as [[| | | |]|] eqn:Hi; try discriminate.
    destruct (workQueue s) as [|e rest] eqn:Hwq; [discriminate|].
    injection Hmove as <-. account Hi.
    split; [lia|]. intros _. split; [lia|]. split; [reflexivity|].
    intros Hlive. eapply live_insert; [exact Hlive|reflexivity|discriminate].
  - unfold doPrepared in Hmove.
    destruct (threads s !! i) as [[|e| | |]|] eqn:Hi; try discriminate.
    set (prep := prepare encoders activeEncoders cp e) in *.
    set (k0 := klassOf activeEncoders prep) in *.
    destruct (ordered (encoders k0)).
    + destruct (decide (length (encoderQueue s k0 ++ [prep]) = 1%nat))
        as [Hone|Hmore].
      * destruct (encoderQueue s k0 ++ [prep]) as [|front rest] eqn:Hq;
          [discriminate|].
        injection Hmove as <-. account Hi.
        assert (Hlen : length (front :: rest)
                       = S (length (encoderQueue s k0)))
          by (rewrite <- Hq, length_app; simpl; lia).
        simpl in Hlen.
        split; [lia|]. intros _. split; [lia|]. split; [reflexivity|].
        intros Hlive.
        eapply live_insert; [exact Hlive|reflexivity|discriminate].
      * injection Hmove as <-. account Hi.
        rewrite length_app in *. simpl in *.
        split; [lia|]. intros _. split; [lia|]. split; [reflexivity|].
        intros Hlive.
        eapply live_insert; [exact Hlive|reflexivity|discriminate].
    + injection Hmove as <-. account Hi.
      split; [lia|]. intros _. split; [lia|]. split; [reflexivity|].
      intros Hlive.
      eapply live_insert; [exact Hlive|reflexivity|discriminate].
  - unfold doEncoded in Hmove.
    destruct (threads s !! i) as [[| |k0 prep|prep|]|] eqn:Hi;
      try discriminate.
    + destruct (Hinv k0) as (Hfront & _).
      specialize (Hfront i prep Hi).
      destruct (encoderQueue s k0) as [|p0 q0] eqn:Hq; [discriminate|].
      simpl tail in Hmove.
      destruct q0 as [|front rest]; injection Hmove as <-; account Hi;
        rewrite Hq in *; rewrite length_app in *; simpl in *;
        (split; [lia|]; intros _; split; [lia|]; split; [reflexivity|];
         intros Hlive;
         eapply live_insert; [exact Hlive|reflexivity|discriminate]).
    + injection Hmove as <-. account Hi. rewrite length_app. simpl.
      split; [lia|]. intros _. split; [lia|]. split; [reflexivity|].
      intros Hlive.
      eapply live_insert; [exact Hlive|reflexivity|discriminate].
  - unfold doFlush in Hmove.
    destruct (rectCount s) as [|n] eqn:Hn; [discriminate|].
    destruct (outputQueue s) as [|o rest] eqn:Ho; [discriminate|].
    injection Hmove as <-. account I.
    split; [lia|]. intros _. split; [lia|]. split; [reflexivity|].
    intros Hlive. exact Hlive.
  - unfold doStop in Hmove.
    destruct (threads s !! i) as [[| | | |]|] eqn:Hi; try discriminate.
    injection Hmove as <-. account Hi.
    split; [lia|discriminate].
Qed.

End PoolAccounting.

Section PoolProgress.

Import EncodeManager Sched Progress.

Context {PB : Type} `{Co : Collaborators PB}.

Variable encoders : EncoderClass -> Encoder.
Variable activeEncoders : EncoderType -> EncoderClass.
Variable cp : ConnParams.

Local Abbreviation move := (Sched.move encoders activeEncoders cp).
Local Abbreviation reachable := (Sched.reachable encoders activeEncoders cp).
Local Abbreviation run := (Sched.run encoders activeEncoders cp).

Lemma pool_conservation n (s : State PB) :
  reachable n s -> rectCount s = inFlight s.
Proof.
  induction 1 as [|s s' Hreach IH Hstep].
  - unfold inFlight, init. simpl.
    rewrite filter_none, filter_none; [reflexivity| |];
      intros t Ht; apply list_elem_of_In, elem_of_replicate in Ht;
      destruct Ht as [-> _]; reflexivity.
  - destruct Hstep as [m s s' Hmove].
    pose proof (classInv_reachable encoders activeEncoders cp n s Hreach)
      as Hinv.
    destruct (move_accounting encoders activeEncoders cp s s' m Hinv Hmove)
      as [Hacc _].
    lia.
Qed.

Lemma existsb_none {A} (p : A -> bool) l x :
  existsb p l = false -> In x l -> p x = false.
Proof.
  intros Hex Hin. destruct (p x) eqn:Hp; [|reflexivity].
  assert (existsb p l = true) by (apply existsb_exists; eauto).
  congruence.
Qed.

(** While [flush] has something to wait for and a worker is alive, some
    critical section can be entered. *)
Lemma pool_step n (s : State PB) :
  reachable n s -> live s -> (0 < rectCount s)%nat ->
  exists m s', workerMove m = true /\ move m s = Some s'.
Proof.
  intros Hreach (i0 & t0 & Hi0 & Ht0) Hcount.
  pose proof (classInv_reachable encoders activeEncoders cp n s Hreach)
    as Hinv.
  pose proof (pool_conservation n s Hreach) as Hcons.
  destruct (outputQueue s) as [|o rest] eqn:Ho.
  2:{ exists MFlush. simpl. unfold doFlush. rewrite Ho.
      destruct (rectCount s); [lia|]. eexists. split; reflexivity. }
  destruct (existsb busy (threads s)) eqn:Hb.
  - apply existsb_exists in Hb. destruct Hb as (t & Hin & Hbusy).
    apply list_elem_of_In, list_elem_of_lookup_1 in Hin.
    destruct Hin as [i Hi].
    destruct t as [|e|k p|p|]; try discriminate.
    + exists (MPrepared i). simpl. unfold doPrepared. rewrite Hi.
      destruct (ordered _); [|eexists; split; reflexivity].
      destruct (decide _); [|eexists; split; reflexivity].
      destruct (_ ++ _) eqn:Hq; [|eexists; split; reflexivity].
      apply app_eq_nil in Hq. destruct Hq as [_ Hq]. discriminate.
    + exists (MEncoded i). simpl. unfold doEncoded. rewrite Hi.
      destruct (tail _); eexists; split; reflexivity.
    + exists (MEncoded i). simpl. unfold doEncoded. rewrite Hi.
      eexists; split; reflexivity.
  - assert (Hidle : forall t, In t (threads s) -> busy t = false)
      by (intros t Ht; eapply existsb_none; eassumption).
    assert (Hprep : List.filter preparing (threads s) = []).
    { apply filter_none. intros t Ht. specialize (Hidle t Ht).
      destruct t; try reflexivity; discriminate. }
    assert (Hplain : List.filter encodingPlain (threads s) = []).
    { apply filter_none. intros t Ht. specialize (Hidle t Ht).
      destruct t; try reflexivity; discriminate. }
    assert (Hqueues : forall k, encoderQueue s k = []).
    { intros k. destruct (encoderQueue s k) as [|p q] eqn:Hq; [reflexivity|].
      destruct (Hinv k) as (_ & _ & Hown & _).
      destruct Hown as (i & p' & Hi); [rewrite Hq; discriminate|].
      apply list_elem_of_lookup_2, list_elem_of_In, Hidle in Hi.
      discriminate. }
    unfold inFlight in Hcons. rewrite Hprep, Hplain, Ho in Hcons.
    unfold queuedCount, allClasses in Hcons. simpl in Hcons.
    rewrite !Hqueues in Hcons. simpl in Hcons.
    destruct (workQueue s) as [|e rest] eqn:Hwq; [simpl in Hcons; lia|].
    assert (Hwait : t0 = Waiting).
    { apply list_elem_of_lookup_2, list_elem_of_In, Hidle in Hi0 as Hb0.
      destruct t0; try discriminate; [reflexivity|contradiction]. }
    subst t0. exists (MPop i0). simpl. unfold doPop. rewrite Hi0, Hwq.
    eexists. split; reflexivity.
Qed.

Lemma stepsLeft_bounds (s : State PB) :
  (inFlight s <= stepsLeft s <= 4 * inFlight s)%nat.
Proof. unfold inFlight, stepsLeft. lia. Qed.

Lemma worker_run_accounting n ms :
  forall s s' : State PB,
    reachable n s ->
    forallb workerMove ms = true ->
    run ms s = Some s' ->
    (length ms + stepsLeft s' = stepsLeft s)%nat /\
    pushedLog s' = pushedLog s /\ (live s -> live s').
Proof.
  induction ms as [|m ms IH]; intros s s' Hreach Hms Hrun; simpl in Hrun.
  - injection Hrun as <-. repeat split; auto.
  - simpl in Hms. apply andb_true_iff in Hms. destruct Hms as [Hm Hms].
    destruct (move m s) as [s1|] eqn:Hmove; [|discriminate].
    pose proof (classInv_reachable encoders activeEncoders cp n s Hreach)
      as Hinv.
    destruct (move_accounting encoders activeEncoders cp s s1 m Hinv Hmove)
      as [_ Hacc].
    destruct (Hacc Hm) as (Hsteps & Hlog & Hlive).
    assert (Hreach1 : reachable n s1)
      by (eapply reach_step; [exact Hreach|econstructor; exact Hmove]).
    destruct (IH s1 s' Hreach1 Hms Hrun) as (Hlen & Hlog' & Hlive').
    simpl length. repeat split; [lia|congruence|auto].
Qed.

(** X19: [rectCount], which [flush] waits on, counts the entries in the
    pool: in every state the pool can reach it is the number of entries
    on the work queue, in the hands of a thread, on the encoder queues
    and on the output queue, and every entry ever queued is either
    written or among those.  No entry is lost and none is counted
    twice. *)
Theorem rectCount_counts_entries (n : nat) (s : State PB) :
  Sched.reachable encoders activeEncoders cp n s ->
  rectCount s = inFlight s /\
  length (pushedLog s) = (length (written s) + inFlight s)%nat.
Proof.
  intros Hreach. pose proof (pool_conservation n s Hreach) as Hc.
  split; [exact Hc|].
  rewrite <- Hc. eapply pool_counts. exact Hreach.
Qed.

(** X20: the pool cannot get stuck.  In every reachable state in which
    [flush] still waits for an entry ([rectCount > 0]) and some worker
    thread has not been stopped, a worker or [flush] can enter its next
    critical section. *)
Theorem pool_never_stuck (n : nat) (s : State PB) :
  Sched.reachable encoders activeEncoders cp n s ->
  live s ->
  (0 < rectCount s)%nat ->
  exists m s',
    workerMove m = true /\
    Sched.move encoders activeEncoders cp m s = Some s'.
Proof. apply pool_step. Qed.

(** X21: every schedule is short.  From a reachable state, any sequence
    of critical sections of the workers and of [flush] has at most four
    steps per entry [flush] waits for (popped, analysed, encoded,
    written); each step brings the pool one step nearer to the state in
    which nothing is left, and leaves live workers alive. *)
Theorem worker_schedule_bounded (n : nat) (ms : list (Move PB))
    (s s' : State PB) :
  Sched.reachable encoders activeEncoders cp n s ->
  forallb workerMove ms = true ->
  Sched.run encoders activeEncoders cp ms s = Some s' ->
  (length ms + stepsLeft s' = stepsLeft s)%nat /\
  (length ms <= 4 * rectCount s)%nat /\
  (rectCount s' <= stepsLeft s')%nat.
Proof.
  intros Hreach Hms Hrun.
  destruct (worker_run_accounting n ms s s' Hreach Hms Hrun) as (Hlen & _).
  pose proof (pool_conservation n s Hreach) as Hc.
  pose proof (pool_conservation n s'
                (run_reachable encoders activeEncoders cp n ms s s'
                   Hreach Hrun)) as Hc'.
  pose proof (stepsLeft_bounds s). pose proof (stepsLeft_bounds s').
  repeat split; lia.
Qed.

(** X22: [flush] can always return.  From every reachable state with a
    live worker there is a schedule of the workers and of [flush] after
    which [rectCount] is 0 and every entry ever queued has been
    written. *)
Theorem flush_can_complete (n : nat) (s : State PB) :
  Sched.reachable encoders activeEncoders cp n s ->
  live s ->
  exists ms s',
    forallb workerMove ms = true /\
    Sched.run encoders activeEncoders cp ms s = Some s' /\
    rectCount s' = 0%nat /\
    pushedLog s' = pushedLog s /\
    length (written s') = length (pushedLog s).
Proof.
  remember (stepsLeft s) as k eqn:Hk. revert s Hk.
  induction k as [|k IH]; intros s Hk Hreach Hlive.
  - exists [], s. pose proof (stepsLeft_bounds s) as Hb.
    pose proof (pool_conservation n s Hreach) as Hc.
    pose proof (pool_counts encoders activeEncoders cp n s Hreach) as Hp.
    repeat split; try reflexivity; lia.
  - destruct (rectCount s) as [|c] eqn:Hcount.
    + exists [], s.
      pose proof (pool_counts encoders activeEncoders cp n s Hreach) as Hp.
      repeat split; try reflexivity; try assumption; lia.
    + destruct (pool_step n s Hreach Hlive ltac:(lia))
        as (m & s1 & Hm & Hmove).
      pose proof (classInv_reachable encoders activeEncoders cp n s Hreach)
        as Hinv.
      destruct (move_accounting encoders activeEncoders cp s s1 m Hinv Hmove)
        as [_ Hacc].
      destruct (Hacc Hm) as (Hsteps & Hlog & Hlive1).
      assert (Hreach1 : reachable n s1)
        by (eapply reach_step; [exact Hreach|econstructor; exact Hmove]).
      destruct (IH s1 ltac:(lia) Hreach1 (Hlive1 Hlive))
        as (ms & s' & Hms & Hrun & Hzero & Hlog' & Hwritten).
      exists (m :: ms), s'. simpl. rewrite Hm, Hmove.
      repeat split; try assumption; congruence.
Qed.

End PoolProgress.

Section SingleWorker.

Import EncodeManager Sched.

Context {PB : Type} `{Co : Collaborators PB}.

Variable encoders : EncoderClass -> Encoder.
Variable activeEncoders : EncoderType -> EncoderClass.
Variable cp : ConnParams.

Local Abbreviation move := (Sched.move encoders activeEncoders cp).
Local Abbreviation reachable := (Sched.reachable encoders activeEncoders cp).
Local Abbreviation prepare := (Sched.prepare encoders activeEncoders cp).
Local Abbreviation encode := (Sched.encode activeEncoders cp).

(** With one thread, the entries pushed so far are those encoded, in
    order, then the one the thread has in hand, then the work queue. *)
Lemma single_worker_inv (s : State PB) :
  reachable 1 s ->
  exists done hand t,
    threads s = [t] /\
    pushedLog s = done ++ hand ++ workQueue s /\
    map (fun e => encode (prepare e)) done = written s ++ outputQueue s /\
    match t with
    | Waiting | Stopped => hand = [] /\ forall k, encoderQueue s k = []
    | Preparing e => hand = [e] /\ forall k, encoderQueue s k = []
    | EncodingOrdered k p =>
        exists e, hand = [e] /\ p = prepare e /\ encoderQueue s k = [p] /\
                  forall k', k' <> k -> encoderQueue s k' = []
    | EncodingPlain p =>
        exists e, hand = [e] /\ p = prepare e /\
                  forall k, encoderQueue s k = []
    end.
Proof.
  induction 1 as [|s s' Hreach IH Hstep].
  - exists [], [], Waiting. simpl. repeat split; reflexivity.
  - destruct IH as (done & hand & t & Hth & Hlog & Hout & Hhand).
    destruct Hstep as [m s s' Hmove].
    assert (Hzero : forall i x, threads s !! i = Some x -> i = 0%nat /\ x = t).
    { intros i x Hi. rewrite Hth in Hi.
      destruct i as [|i]; simpl in Hi; [|destruct i; discriminate].
      injection Hi as <-. split; reflexivity. }
    destruct m as [e|i|i|i| |i]; simpl in Hmove.
    + injection Hmove as <-. exists done, hand, t. simpl.
      rewrite Hlog, <- !app_assoc. repeat split; assumption.
    + unfold doPop in Hmove.
      destruct (threads s !! i) as [[| | | |]|] eqn:Hi; try discriminate.
      destruct (Hzero _ _ Hi) as [-> <-].
      destruct (workQueue s) as [|e rest] eqn:Hwq; [discriminate|].
      injection Hmove as <-. destruct Hhand as [-> Hq].
      exists done, [e], (Preparing e). simpl. rewrite Hth.
      repeat split; assumption.
    + unfold doPrepared in Hmove.
      destruct (threads s !! i) as [[|e| | |]|] eqn:Hi; try discriminate.
      destruct (Hzero _ _ Hi) as [-> <-]. destruct Hhand as [-> Hq].
      destruct (ordered _).
      * rewrite Hq in Hmove. simpl in Hmove. injection Hmove as <-.
        exists done, [e], (EncodingOrdered (klassOf activeEncoders (prepare e))
                             (prepare e)).
        simpl. rewrite Hth, fn_lookup_insert.
        repeat split; try assumption. exists e. repeat split.
        intros k' Hne. rewrite fn_lookup_insert_ne by congruence. apply Hq.
      * injection Hmove as <-.
        exists done, [e], (EncodingPlain (prepare e)).
        simpl. rewrite Hth. repeat split; try assumption.
        exists e. repeat split. exact Hq.
    + unfold doEncoded in Hmove.
      destruct (threads s !! i) as [[| |k0 prep|prep|]|] eqn:Hi;
        try discriminate.
      * destruct (Hzero _ _ Hi) as [-> <-].
        destruct Hhand as (e & -> & -> & Hq & Hothers).
        rewrite Hq in Hmove. simpl in Hmove. injection Hmove as <-.
        exists (done ++ [e]), [], Waiting. simpl. rewrite Hth.
        rewrite Hlog, map_app, Hout, <- !app_assoc. simpl.
        repeat split.
        intros k. destruct (decide (k0 = k)) as [<-|Hne].
        -- apply fn_lookup_insert.
        -- rewrite fn_lookup_insert_ne by exact Hne. apply Hothers.
           congruence.
      * destruct (Hzero _ _ Hi) as [-> <-].
        destruct Hhand as (e & -> & -> & Hq).
        injection Hmove as <-.
        exists (done ++ [e]), [], Waiting. simpl. rewrite Hth.
        rewrite Hlog, map_app, Hout, <- !app_assoc. simpl.
        repeat split. exact Hq.
    + unfold doFlush in Hmove.
      destruct (rectCount s) as [|c]; [discriminate|].
      destruct (outputQueue s) as [|o rest] eqn:Ho; [discriminate|].
      injection Hmove as <-. exists done, hand, t. simpl.
      rewrite <- app_assoc. simpl. repeat split; assumption.
    + unfold doStop in Hmove.
      destruct (threads s !! i) as [[| | | |]|] eqn:Hi; try discriminate.
      destruct (Hzero _ _ Hi) as [-> <-].
      injection Hmove as <-. exists done, hand, Stopped. simpl. rewrite Hth.
      repeat split; try assumption; apply Hhand.
Qed.

(** X23: with a single worker thread, rectangles leave in the order
    they were queued: in every state a pool of one thread can reach,
    the outputs written and those waiting on the output queue are, in
    order, the encodings of the first entries pushed on the work
    queue. *)
Theorem single_worker_keeps_order (s : State PB) :
  Sched.reachable encoders activeEncoders cp 1 s ->
  written s ++ outputQueue s =
  map (fun e => Sched.encode activeEncoders cp
                  (Sched.prepare encoders activeEncoders cp e))
    (take (length (written s) + length (outputQueue s)) (pushedLog s)).
Proof.
  intros Hreach.
  destruct (single_worker_inv s Hreach)
    as (done & hand & t & _ & Hlog & Hout & _).
  rewrite <- length_app, <- Hout, length_map, Hlog, take_app_length.
  reflexivity.
Qed.

End SingleWorker.

(** The state reached by the run [soloRun] of one worker. *)
Lemma soloState_reachable :
  Sched.reachable Concrete.stockEncoders Concrete.zrleActive
    Concrete.plainPeer 1 Solo.soloState.
Proof.
  apply (run_reachable Concrete.stockEncoders Concrete.zrleActive
           Concrete.plainPeer 1 Solo.soloRun (Sched.init 1)).
  - constructor.
  - unfold Solo.soloState.
    destruct (Sched.run _ _ _ _ _) as [s|] eqn:Hrun; [reflexivity|].
    vm_compute in Hrun. discriminate Hrun.
Qed.

Lemma racingState_live : Progress.live Concrete.racingState.
Proof.
  exists 0%nat, Sched.Waiting. split; [reflexivity|discriminate].
Qed.

(** [rectCount_counts_entries] in the state of the racing run. *)
Lemma rectCount_counts_entries_witness :
  Sched.rectCount Concrete.racingState
  = Progress.inFlight Concrete.racingState.
Proof.
  apply (rectCount_counts_entries Concrete.stockEncoders Concrete.zrleActive
           Concrete.plainPeer 2 Concrete.racingState racingState_reachable).
Defined.

(** [pool_never_stuck] in the state of the racing run. *)
Lemma pool_never_stuck_witness :
  exists m s',
    Progress.workerMove m = true /\
    Sched.move Concrete.stockEncoders Concrete.zrleActive Concrete.plainPeer
      m Concrete.racingState = Some s'.
Proof.
  apply (pool_never_stuck Concrete.stockEncoders Concrete.zrleActive
           Concrete.plainPeer 2 Concrete.racingState racingState_reachable
           racingState_live).
  apply Nat.ltb_lt. reflexivity.
Defined.

(** [worker_schedule_bounded] for the rest of the racing run. *)
Lemma worker_schedule_bounded_witness :
  (length Solo.finishRun <= 4 * Sched.rectCount Concrete.racingState)%nat.
Proof.
  destruct (Sched.run Concrete.stockEncoders Concrete.zrleActive
              Concrete.plainPeer Solo.finishRun Concrete.racingState)
    as [s'|] eqn:Hrun.
  - destruct (worker_schedule_bounded Concrete.stockEncoders
                Concrete.zrleActive Concrete.plainPeer 2 Solo.finishRun
                Concrete.racingState s' racingState_reachable eq_refl Hrun)
      as (_ & Hbound & _).
    exact Hbound.
  - vm_compute in Hrun. discriminate Hrun.
Defined.

(** [flush_can_complete] from the state of the racing run. *)
Lemma flush_can_complete_witness :
  exists ms s',
    forallb Progress.workerMove ms = true /\
    Sched.run Concrete.stockEncoders Concrete.zrleActive Concrete.plainPeer
      ms Concrete.racingState = Some s' /\
    Sched.rectCount s' = 0%nat /\
    Sched.pushedLog s' = Sched.pushedLog Concrete.racingState /\
    length (Sched.written s') = length (Sched.pushedLog Concrete.racingState).
Proof.
  apply (flush_can_complete Concrete.stockEncoders Concrete.zrleActive
           Concrete.plainPeer 2 Concrete.racingState racingState_reachable
           racingState_live).
Defined.

(** [single_worker_keeps_order] in the state of the solo run. *)
Lemma single_worker_keeps_order_witness :
  Sched.written Solo.soloState ++ Sched.outputQueue Solo.soloState =
  map (fun e => Sched.encode Concrete.zrleActive Concrete.plainPeer
                  (Sched.prepare Concrete.stockEncoders Concrete.zrleActive
                     Concrete.plainPeer e))
    (take (length (Sched.written Solo.soloState)
           + length (Sched.outputQueue Solo.soloState))
       (Sched.pushedLog Solo.soloState)).
Proof.
  apply (single_worker_keeps_order Concrete.stockEncoders Concrete.zrleActive
           Concrete.plainPeer Solo.soloState soloState_reachable).
Defined.

Section SolidCandidate.

Import Cover Solid SolidRect.

Variable checkSolidTile : Rect -> bool.
Variable solid : Z -> Z -> bool.

Hypothesis check_sound :
  forall r, checkSolidTile r = true -> allSolid solid r.

Lemma equals_eq a b : equals a b = true -> a = b.
Proof.
  unfold equals. rewrite !andb_true_iff, !Z.eqb_eq.
  destruct a as [[x1 y1] [x2 y2]], b as [[x3 y3] [x4 y4]]. simpl.
  intros [[[-> ->] ->] ->]. reflexivity.
Qed.

(** X24: what [findSolidRect] sends as a solid rectangle is one.  For a
    block position inside [rect] and a [checkSolidTile] that accepts
    only solid tiles, the search from that block terminates, and if it
    settles on a rectangle [erp], then [erp] lies within [rect], every
    pixel of it has the colour, and it is either the whole of [rect] or
    at least [SolidBlockMinArea] pixels large. *)
Theorem solidAreaAt_sound (rect : Rect) (dx dy : Z) :
  px (tl rect) <= dx < px (br rect) ->
  py (tl rect) <= dy < py (br rect) ->
  exists res,
    solidAreaAt checkSolidTile rect dx dy = Some res /\
    forall erp, res = Some erp ->
      within erp rect /\ allSolid solid erp /\
      (erp = rect \/ SolidBlockMinArea <= area erp).
Proof.
  intros Hx Hy. unfold solidAreaAt.
  destruct (checkSolidTile (setXYWH dx dy _ _)).
  2:{ exists None. split; [reflexivity|]. intros erp H. discriminate H. }
  destruct (blockExtension_solid checkSolidTile solid check_sound
              (setXYWH dx dy (px (br rect) - dx) (py (br rect) - dy)))
    as (erb & -> & Htl & Hvalid & Hin & Hsolid).
  { unfold valid, width, height, setXYWH, rectXY. simpl. lia. }
  assert (Hinr : within erb rect).
  { unfold within, setXYWH, rectXY in *. simpl in Hin. lia. }
  destruct (equals erb rect) eqn:Heq.
  { apply equals_eq in Heq. subst erb.
    exists (Some rect). split; [reflexivity|].
    intros erp H. injection H as <-.
    split; [exact Hinr|]. split; [exact Hsolid|]. left. reflexivity. }
  destruct (Z.ltb_spec (area erb) SolidBlockMinArea) as [Hsmall|Hbig].
  { exists None. split; [reflexivity|]. intros erp H. discriminate H. }
  destruct (pixelExtension_solid checkSolidTile solid check_sound rect erb
              Hinr Hsolid) as (erp & -> & Hsub & Hwithin & Hall).
  exists (Some erp). split; [reflexivity|].
  intros erp' H. injection H as <-.
  split; [exact Hwithin|]. split; [exact Hall|]. right.
  unfold within, valid, area, width, height in *. nia.
Qed.

End SolidCandidate.

(** [solidAreaAt_sound] on the frame with the solid 3 x 2 corner: the
    search from the block at (0, 0) settles on a solid rectangle. *)
Lemma solidAreaAt_sound_witness :
  exists res,
    SolidRect.solidAreaAt (SolidCheck.checkPixels SolidCheck.corner)
      (rectXY 0 0 3 2) 0 0 = Some res /\
    forall erp, res = Some erp ->
      Solid.within erp (rectXY 0 0 3 2) /\
      Solid.allSolid SolidCheck.corner erp /\
      (erp = rectXY 0 0 3 2 \/ Solid.SolidBlockMinArea <= area erp).
Proof.
  apply (solidAreaAt_sound (SolidCheck.checkPixels SolidCheck.corner)
           SolidCheck.corner (checkPixels_sound SolidCheck.corner)).
  - simpl. lia.
  - simpl. lia.
Defined.
